(** * Hikari state registry: a shallow embedding of
      [hikari/state/state_registry_impl.py] and [hikari/state/models/channels.py]

    Python objects live in typed stores (one list per class, a reference is
    an index into the store of its class); the registry's own attributes and
    the stores together form the [World] that every method threads.  A method
    is a computation in the monad [M]: it returns a value or raises a Python
    exception, and in both cases the mutations done so far stay in the world,
    as they do in Python.

    The two source files are embedded method by method.  The classes they
    use from modules that are not among the sources ([guilds], [roles],
    [members], [emojis], [messages], [reactions], [users] and
    [data_structures.LRUDict]) are modelled from the specification, each under
    a comment that says so.  Of the registry, the [update_*] methods (they
    snapshot an object with [copy()], which comes from the absent
    [models/interfaces.py]) and the presence and webhook parsers are left
    out; none of them inserts into a collection of the registry. *)

From stdpp Require Import gmap strings list fin_maps.

Open Scope Z_scope.

(** ** Python exceptions and results *)

Inductive Exn :=
  | KeyError                  (* missing key in a subscript or [del] *)
  | TypeError                 (* raised by [channels.parse_channel] on an unknown type *)
  | AttributeError            (* attribute access on [None], or a missing slot *)
  | ValueError                (* [list.remove] of an element that is not there *)
  | CapacityMisconfiguration  (* non-positive capacity of a bounded cache *)
  | DanglingReference.        (* a reference outside its store: no Python object *)

Inductive Result (A : Type) :=
  | Ok (a : A)
  | Raise (e : Exn).
Arguments Ok {A} a.
Arguments Raise {A} e.

#[global] Instance Exn_eq_dec : EqDecision Exn.
Proof. solve_decision. Defined.

(** A reference to an object: its index in the store of its class. *)
Abbreviation ref := nat.

(** ** Payloads

    A payload is a JSON object.  It is modelled by a record with one field
    per key the code reads; a key the code reads with [.get] or tests with
    [in], or that only some payload shapes carry, is an [option].
    Identifiers are already integers ([int(...)] of a snowflake string). *)

Record UserPayload := {
  up_id : Z;
  up_username : string;
  up_mfa_enabled : option bool;
  up_verified : option bool;
}.

Record EmojiPayload := {
  ep_id : option Z;
  ep_name : string;
}.

Record GuildPayload := {
  gp_id : Z;
  gp_unavailable : option bool;
  gp_name : string;
}.

Record RolePayload := {
  rp_id : Z;
  rp_name : string;
}.

Record MemberPayload := {
  mp_user : UserPayload;
  mp_nick : option string;
  mp_roles : list Z;
}.

Record MessagePayload := {
  msg_id : Z;
  msg_channel_id : Z;
  msg_content : string;
}.

Record ReactionPayload := {
  rx_message_id : Z;
  rx_count : Z;
  rx_emoji : EmojiPayload;
}.

(** A raw permission overwrite; [overwrites.Overwrite] is kept abstract. *)
Definition Overwrite : Type := Z.

Record ChannelPayload := {
  cp_id : Z;
  cp_type : option Z;
  cp_guild_id : option Z;
  cp_position : option Z;
  cp_permission_overwrites : option (list Overwrite);
  cp_name : option string;
  cp_parent_id : option Z;
  cp_nsfw : option bool;
  cp_topic : option string;
  cp_rate_limit_per_user : option Z;
  cp_last_message_id : option Z;
  cp_recipients : option (list UserPayload);
  cp_bitrate : option Z;
  cp_user_limit : option Z;
  cp_icon : option string;
  cp_application_id : option Z;
  cp_owner_id : option Z;
}.

(** [channel_payload["guild_id"] = guild_obj.id] *)
Definition cp_set_guild_id (g : Z) (p : ChannelPayload) : ChannelPayload :=
  {| cp_id := cp_id p; cp_type := cp_type p; cp_guild_id := Some g;
     cp_position := cp_position p;
     cp_permission_overwrites := cp_permission_overwrites p;
     cp_name := cp_name p; cp_parent_id := cp_parent_id p;
     cp_nsfw := cp_nsfw p; cp_topic := cp_topic p;
     cp_rate_limit_per_user := cp_rate_limit_per_user p;
     cp_last_message_id := cp_last_message_id p;
     cp_recipients := cp_recipients p; cp_bitrate := cp_bitrate p;
     cp_user_limit := cp_user_limit p; cp_icon := cp_icon p;
     cp_application_id := cp_application_id p; cp_owner_id := cp_owner_id p |}.

(** ** Objects *)

(** Slots of [channels.GuildChannel] (the [id] slot of [Channel] is kept in
    the variant). *)
Record GuildChannelSlots := {
  gc_guild_id : Z;
  gc_position : Z;
  gc_permission_overwrites : list Overwrite;
  gc_name : string;
  gc_parent_id : option Z;
}.

(** Slots of [channels.DMChannel]; [recipients] holds references to users. *)
Record DMChannelSlots := {
  dm_last_message_id : option Z;
  dm_recipients : list ref;
}.

(** The concrete classes of [channels.py], one constructor per class, with
    the slots the class and its bases declare. *)
Inductive Channel :=
  | GuildTextChannel (id : Z) (gc : GuildChannelSlots) (topic : option string)
      (rate_limit_per_user : Z) (last_message_id : option Z) (nsfw : bool)
  | DMChannel (id : Z) (dm : DMChannelSlots)
  | GuildVoiceChannel (id : Z) (gc : GuildChannelSlots)
      (bitrate : option Z) (user_limit : option Z)
  | GroupDMChannel (id : Z) (dm : DMChannelSlots) (icon_hash : option string)
      (name : option string) (owner_application_id : option Z) (owner_id : option Z)
  | GuildCategory (id : Z) (gc : GuildChannelSlots)
  | GuildNewsChannel (id : Z) (gc : GuildChannelSlots) (topic : option string)
      (last_message_id : option Z) (nsfw : bool)
  | GuildStoreChannel (id : Z) (gc : GuildChannelSlots).

Definition Channel_id (c : Channel) : Z :=
  match c with
  | GuildTextChannel i _ _ _ _ _ | DMChannel i _ | GuildVoiceChannel i _ _ _
  | GroupDMChannel i _ _ _ _ _ | GuildCategory i _ | GuildNewsChannel i _ _ _ _
  | GuildStoreChannel i _ => i
  end.

(** The [guild_id] slot, present on the subclasses of [GuildChannel]. *)
Definition Channel_guild_id (c : Channel) : option Z :=
  match c with
  | GuildTextChannel _ gc _ _ _ _ | GuildVoiceChannel _ gc _ _
  | GuildCategory _ gc | GuildNewsChannel _ gc _ _ _
  | GuildStoreChannel _ gc => Some (gc_guild_id gc)
  | DMChannel _ _ | GroupDMChannel _ _ _ _ _ _ => None
  end.

(** The slots of [GuildChannel], on the classes that have them. *)
Definition Channel_guild_slots (c : Channel) : option GuildChannelSlots :=
  match c with
  | GuildTextChannel _ gc _ _ _ _ | GuildVoiceChannel _ gc _ _
  | GuildCategory _ gc | GuildNewsChannel _ gc _ _ _
  | GuildStoreChannel _ gc => Some gc
  | DMChannel _ _ | GroupDMChannel _ _ _ _ _ _ => None
  end.

(** The class declares a [last_message_id] slot (the [TextChannel]s). *)
Definition Channel_has_last_message_id (c : Channel) : bool :=
  match c with
  | GuildTextChannel _ _ _ _ _ _ | DMChannel _ _ | GroupDMChannel _ _ _ _ _ _
  | GuildNewsChannel _ _ _ _ _ => true
  | _ => false
  end.

Definition Channel_last_message_id (c : Channel) : option Z :=
  match c with
  | GuildTextChannel _ _ _ _ l _ | GuildNewsChannel _ _ _ l _ => l
  | DMChannel _ dm | GroupDMChannel _ dm _ _ _ _ => dm_last_message_id dm
  | _ => None
  end.

(** [channel.last_message_id = v]: succeeds on the classes that have the
    slot.  The other classes declare [__slots__] without it; whether their
    instances accept the attribute depends on the bases in
    [models/interfaces.py], and the model raises [AttributeError] there. *)
Definition Channel_set_last_message_id (v : option Z) (c : Channel) : option Channel :=
  match c with
  | GuildTextChannel i gc t r _ n => Some (GuildTextChannel i gc t r v n)
  | GuildNewsChannel i gc t _ n => Some (GuildNewsChannel i gc t v n)
  | DMChannel i dm =>
      Some (DMChannel i {| dm_last_message_id := v; dm_recipients := dm_recipients dm |})
  | GroupDMChannel i dm ic n oa o =>
      Some (GroupDMChannel i {| dm_last_message_id := v; dm_recipients := dm_recipients dm |}
              ic n oa o)
  | _ => None
  end.

(** Modelled from the spec: [guilds.Guild] is not in the sources.  A guild
    has an id, the unavailable flag and the four collections it owns, each
    a dict from id to object. *)
Record Guild := {
  Guild_id : Z;
  Guild_unavailable : bool;
  Guild_name : string;
  Guild_channels : gmap Z ref;
  Guild_roles : gmap Z ref;
  Guild_members : gmap Z ref;
  Guild_emojis : gmap Z ref;
}.

(** Modelled from the spec: [roles.Role] (id, guild_id); the constructor is
    called as [Role(state, payload, guild_id)]. *)
Record Role := {
  Role_id : Z;
  Role_guild_id : Z;
  Role_name : string;
}.

(** Modelled from the spec: [members.Member], keyed by its user's id, with
    a user reference, a list of role references and a nickname.  The list
    holds what [get_role_by_id] returned for each id, so an entry may be
    [None].  A member has no guild id: it keeps the guild object that its
    constructor is given ([parse_member] passes [guild_obj] itself). *)
Record Member := {
  Member_id : Z;
  Member_guild : ref;
  Member_user : ref;
  Member_roles : list (option ref);
  Member_nick : option string;
}.

(** Modelled from the spec: [emojis.GuildEmoji], a custom emoji owned by a
    guild. *)
Record GuildEmoji := {
  GuildEmoji_id : Z;
  GuildEmoji_guild_id : Z;
  GuildEmoji_name : string;
}.

(** Modelled from the spec: an emoji handle.  A custom emoji of a guild is
    an object of the registry; any other emoji is ephemeral, a value that is
    built for the occasion and indexed nowhere.  [==] on emoji is equality of
    handles. *)
Inductive Emoji :=
  | EphemeralEmoji (id : option Z) (name : string)
  | GuildEmojiRef (r : ref).

#[global] Instance Emoji_eq_dec : EqDecision Emoji.
Proof. solve_decision. Defined.

(** Modelled from the spec: [messages.Message] (id, channel reference by
    id, list of reactions). *)
Record Message := {
  Message_id : Z;
  Message_channel_id : Z;
  Message_content : string;
  Message_reactions : list ref;
}.

(** Modelled from the spec: [reactions.Reaction], built as
    [Reaction(count, emoji, message)]. *)
Record Reaction := {
  Reaction_count : Z;
  Reaction_emoji : Emoji;
  Reaction_message : ref;
}.

(** Modelled from the spec: [users.User] and its specialisation
    [users.BotUser]. *)
Inductive UserClass := UserCls | BotUserCls.

#[global] Instance UserClass_eq_dec : EqDecision UserClass.
Proof. solve_decision. Defined.

Record User := {
  User_class : UserClass;
  User_id : Z;
  User_username : string;
  User_mfa_enabled : option bool;
  User_verified : option bool;
}.

(** ** Bounded cache *)

Module data_structures.

(** Modelled from the spec: [data_structures.LRUDict] is not in the sources.
    A fixed-capacity mapping with least-recently-used eviction: the entries
    are kept from the least recently used (head) to the most recently used
    (last). *)
Record LRUDict := {
  lru_size : Z;
  lru_data : list (Z * ref);
}.

(** Modelled from the spec: [LRUDict(capacity)]; a capacity of zero or
    less is a construction-time error. *)
Definition LRUDict_init (capacity : Z) : Result LRUDict :=
  if decide (capacity <= 0) then Raise CapacityMisconfiguration
  else Ok {| lru_size := capacity; lru_data := [] |}.

(** The entries without the one for [k]. *)
Definition lru_without (k : Z) (data : list (Z * ref)) : list (Z * ref) :=
  filter (λ e, e.1 ≠ k) data.

(** The value stored for [k]. *)
Fixpoint lru_find (k : Z) (data : list (Z * ref)) : option ref :=
  match data with
  | [] => None
  | e :: rest => if decide (e.1 = k) then Some (e.2) else lru_find k rest
  end.

(** [len(d)] *)
Definition lru_length (d : LRUDict) : Z := Z.of_nat (length (lru_data d)).

(** Modelled from the spec: [key in d]; the spec gives the test no effect
    on recency. *)
Definition contains (k : Z) (d : LRUDict) : bool :=
  bool_decide (is_Some (lru_find k (lru_data d))).

(** Modelled from the spec: [d[key] = value], the spec's [put]: insert, or
    replace and refresh; the key becomes the most recently used; past the
    capacity the least recently used entry is evicted. *)
Definition setitem (k : Z) (v : ref) (d : LRUDict) : LRUDict :=
  let data := lru_without k (lru_data d) ++ [(k, v)] in
  {| lru_size := lru_size d;
     lru_data := if decide (lru_size d < Z.of_nat (length data)) then tail data else data |}.

(** Modelled from the spec: [d[key]], the spec's [get] as a subscript: the
    value, and the key becomes the most recently used; [KeyError] when
    absent. *)
Definition getitem (k : Z) (d : LRUDict) : Result ref * LRUDict :=
  match lru_find k (lru_data d) with
  | Some v => (Ok v, {| lru_size := lru_size d;
                        lru_data := lru_without k (lru_data d) ++ [(k, v)] |})
  | None => (Raise KeyError, d)
  end.

(** Modelled from the spec: [d.get(key)], as [d[key]] with [None] for an
    absent key. *)
Definition get (k : Z) (d : LRUDict) : option ref * LRUDict :=
  match getitem k d with
  | (Ok v, d') => (Some v, d')
  | (Raise _, d') => (None, d')
  end.

(** Modelled from the spec: [del d[key]], the spec's [remove]: deletes
    unconditionally, no error if absent. *)
Definition delitem (k : Z) (d : LRUDict) : LRUDict :=
  {| lru_size := lru_size d; lru_data := lru_without k (lru_data d) |}.

(** The entry that the next eviction drops. *)
Definition least_recently_used (d : LRUDict) : option (Z * ref) := head (lru_data d).

(** The entry used last. *)
Definition most_recently_used (d : LRUDict) : option (Z * ref) := last (lru_data d).

End data_structures.

(** ** The world: the registry's attributes and the object stores *)

(** The attributes of [StateRegistryImpl] ([__slots__], without the logger)
    followed by one store per class.  The three [WeakValueDictionary]s are
    embedded as the entries that are visible: the code writes and deletes
    entries, and an entry is also lost when its object is released by
    whatever held it.  Release is no step of a method: the methods are
    embedded on the entries that are there, the objects that a method is
    given or creates being alive while it runs, and the loss of entries is
    the relation [weak_entries_lost] further down.  A statement about a weak
    index is therefore about an entry whose object the caller holds, or is
    one that the loss of entries keeps true.  The one method that can
    release an indexed object that it was not given before it reads the
    index again is [delete_channel], on an object that is not the one
    indexed under its id; the statements about its failures leave that
    case out. *)
Record World := {
  _dm_channels : data_structures.LRUDict;
  _emojis : gmap Z ref;
  _guilds : gmap Z ref;
  _guild_channels : gmap Z ref;
  _users : gmap Z ref;
  _message_cache : data_structures.LRUDict;
  _user : option ref;
  guild_objs : list Guild;
  channel_objs : list Channel;
  role_objs : list Role;
  member_objs : list Member;
  emoji_objs : list GuildEmoji;
  message_objs : list Message;
  reaction_objs : list Reaction;
  user_objs : list User;
}.

Definition set_dm_channels (f : data_structures.LRUDict → data_structures.LRUDict)
    (w : World) : World :=
  {| _dm_channels := f (_dm_channels w); _emojis := _emojis w; _guilds := _guilds w;
     _guild_channels := _guild_channels w; _users := _users w;
     _message_cache := _message_cache w; _user := _user w; guild_objs := guild_objs w;
     channel_objs := channel_objs w; role_objs := role_objs w;
     member_objs := member_objs w; emoji_objs := emoji_objs w;
     message_objs := message_objs w; reaction_objs := reaction_objs w;
     user_objs := user_objs w |}.

Definition set_emojis (f : gmap Z ref → gmap Z ref)
    (w : World) : World :=
  {| _dm_channels := _dm_channels w; _emojis := f (_emojis w); _guilds := _guilds w;
     _guild_channels := _guild_channels w; _users := _users w;
     _message_cache := _message_cache w; _user := _user w; guild_objs := guild_objs w;
     channel_objs := channel_objs w; role_objs := role_objs w;
     member_objs := member_objs w; emoji_objs := emoji_objs w;
     message_objs := message_objs w; reaction_objs := reaction_objs w;
     user_objs := user_objs w |}.

Definition set_guilds (f : gmap Z ref → gmap Z ref)
    (w : World) : World :=
  {| _dm_channels := _dm_channels w; _emojis := _emojis w; _guilds := f (_guilds w);
     _guild_channels := _guild_channels w; _users := _users w;
     _message_cache := _message_cache w; _user := _user w; guild_objs := guild_objs w;
     channel_objs := channel_objs w; role_objs := role_objs w;
     member_objs := member_objs w; emoji_objs := emoji_objs w;
     message_objs := message_objs w; reaction_objs := reaction_objs w;
     user_objs := user_objs w |}.

Definition set_guild_channels (f : gmap Z ref → gmap Z ref)
    (w : World) : World :=
  {| _dm_channels := _dm_channels w; _emojis := _emojis w; _guilds := _guilds w;
     _guild_channels := f (_guild_channels w); _users := _users w;
     _message_cache := _message_cache w; _user := _user w; guild_objs := guild_objs w;
     channel_objs := channel_objs w; role_objs := role_objs w;
     member_objs := member_objs w; emoji_objs := emoji_objs w;
     message_objs := message_objs w; reaction_objs := reaction_objs w;
     user_objs := user_objs w |}.

Definition set_users (f : gmap Z ref → gmap Z ref)
    (w : World) : World :=
  {| _dm_channels := _dm_channels w; _emojis := _emojis w; _guilds := _guilds w;
     _guild_channels := _guild_channels w; _users := f (_users w);
     _message_cache := _message_cache w; _user := _user w; guild_objs := guild_objs w;
     channel_objs := channel_objs w; role_objs := role_objs w;
     member_objs := member_objs w; emoji_objs := emoji_objs w;
     message_objs := message_objs w; reaction_objs := reaction_objs w;
     user_objs := user_objs w |}.

Definition set_message_cache (f : data_structures.LRUDict → data_structures.LRUDict)
    (w : World) : World :=
  {| _dm_channels := _dm_channels w; _emojis := _emojis w; _guilds := _guilds w;
     _guild_channels := _guild_channels w; _users := _users w;
     _message_cache := f (_message_cache w); _user := _user w;
     guild_objs := guild_objs w; channel_objs := channel_objs w;
     role_objs := role_objs w; member_objs := member_objs w;
     emoji_objs := emoji_objs w; message_objs := message_objs w;
     reaction_objs := reaction_objs w; user_objs := user_objs w |}.

Definition set_user (f : option ref → option ref)
    (w : World) : World :=
  {| _dm_channels := _dm_channels w; _emojis := _emojis w; _guilds := _guilds w;
     _guild_channels := _guild_channels w; _users := _users w;
     _message_cache := _message_cache w; _user := f (_user w);
     guild_objs := guild_objs w; channel_objs := channel_objs w;
     role_objs := role_objs w; member_objs := member_objs w;
     emoji_objs := emoji_objs w; message_objs := message_objs w;
     reaction_objs := reaction_objs w; user_objs := user_objs w |}.

Definition set_guild_objs (f : list Guild → list Guild)
    (w : World) : World :=
  {| _dm_channels := _dm_channels w; _emojis := _emojis w; _guilds := _guilds w;
     _guild_channels := _guild_channels w; _users := _users w;
     _message_cache := _message_cache w; _user := _user w;
     guild_objs := f (guild_objs w); channel_objs := channel_objs w;
     role_objs := role_objs w; member_objs := member_objs w;
     emoji_objs := emoji_objs w; message_objs := message_objs w;
     reaction_objs := reaction_objs w; user_objs := user_objs w |}.

Definition set_channel_objs (f : list Channel → list Channel)
    (w : World) : World :=
  {| _dm_channels := _dm_channels w; _emojis := _emojis w; _guilds := _guilds w;
     _guild_channels := _guild_channels w; _users := _users w;
     _message_cache := _message_cache w; _user := _user w; guild_objs := guild_objs w;
     channel_objs := f (channel_objs w); role_objs := role_objs w;
     member_objs := member_objs w; emoji_objs := emoji_objs w;
     message_objs := message_objs w; reaction_objs := reaction_objs w;
     user_objs := user_objs w |}.

Definition set_role_objs (f : list Role → list Role)
    (w : World) : World :=
  {| _dm_channels := _dm_channels w; _emojis := _emojis w; _guilds := _guilds w;
     _guild_channels := _guild_channels w; _users := _users w;
     _message_cache := _message_cache w; _user := _user w; guild_objs := guild_objs w;
     channel_objs := channel_objs w; role_objs := f (role_objs w);
     member_objs := member_objs w; emoji_objs := emoji_objs w;
     message_objs := message_objs w; reaction_objs := reaction_objs w;
     user_objs := user_objs w |}.

Definition set_member_objs (f : list Member → list Member)
    (w : World) : World :=
  {| _dm_channels := _dm_channels w; _emojis := _emojis w; _guilds := _guilds w;
     _guild_channels := _guild_channels w; _users := _users w;
     _message_cache := _message_cache w; _user := _user w; guild_objs := guild_objs w;
     channel_objs := channel_objs w; role_objs := role_objs w;
     member_objs := f (member_objs w); emoji_objs := emoji_objs w;
     message_objs := message_objs w; reaction_objs := reaction_objs w;
     user_objs := user_objs w |}.

Definition set_emoji_objs (f : list GuildEmoji → list GuildEmoji)
    (w : World) : World :=
  {| _dm_channels := _dm_channels w; _emojis := _emojis w; _guilds := _guilds w;
     _guild_channels := _guild_channels w; _users := _users w;
     _message_cache := _message_cache w; _user := _user w; guild_objs := guild_objs w;
     channel_objs := channel_objs w; role_objs := role_objs w;
     member_objs := member_objs w; emoji_objs := f (emoji_objs w);
     message_objs := message_objs w; reaction_objs := reaction_objs w;
     user_objs := user_objs w |}.

Definition set_message_objs (f : list Message → list Message)
    (w : World) : World :=
  {| _dm_channels := _dm_channels w; _emojis := _emojis w; _guilds := _guilds w;
     _guild_channels := _guild_channels w; _users := _users w;
     _message_cache := _message_cache w; _user := _user w; guild_objs := guild_objs w;
     channel_objs := channel_objs w; role_objs := role_objs w;
     member_objs := member_objs w; emoji_objs := emoji_objs w;
     message_objs := f (message_objs w); reaction_objs := reaction_objs w;
     user_objs := user_objs w |}.

Definition set_reaction_objs (f : list Reaction → list Reaction)
    (w : World) : World :=
  {| _dm_channels := _dm_channels w; _emojis := _emojis w; _guilds := _guilds w;
     _guild_channels := _guild_channels w; _users := _users w;
     _message_cache := _message_cache w; _user := _user w; guild_objs := guild_objs w;
     channel_objs := channel_objs w; role_objs := role_objs w;
     member_objs := member_objs w; emoji_objs := emoji_objs w;
     message_objs := message_objs w; reaction_objs := f (reaction_objs w);
     user_objs := user_objs w |}.

Definition set_user_objs (f : list User → list User)
    (w : World) : World :=
  {| _dm_channels := _dm_channels w; _emojis := _emojis w; _guilds := _guilds w;
     _guild_channels := _guild_channels w; _users := _users w;
     _message_cache := _message_cache w; _user := _user w; guild_objs := guild_objs w;
     channel_objs := channel_objs w; role_objs := role_objs w;
     member_objs := member_objs w; emoji_objs := emoji_objs w;
     message_objs := message_objs w; reaction_objs := reaction_objs w;
     user_objs := f (user_objs w) |}.

(** ** The monad of methods *)

Definition M (A : Type) : Type := World → Result A * World.

#[global] Instance M_ret : MRet M := λ A a w, (Ok a, w).

#[global] Instance M_bind : MBind M := λ A B f m w,
  match m w with
  | (Ok a, w') => f a w'
  | (Raise e, w') => (Raise e, w')
  end.

Definition raise {A} (e : Exn) : M A := λ w, (Raise e, w).

Definition gets {A} (f : World → A) : M A := λ w, (Ok (f w), w).

Definition modify (f : World → World) : M unit := λ w, (Ok tt, f w).

(** [with contextlib.suppress(e): c] *)
Definition suppress (e : Exn) (c : M unit) : M unit := λ w,
  match c w with
  | (Raise e', w') => if decide (e' = e) then (Ok tt, w') else (Raise e', w')
  | r => r
  end.

(** [[f(x) for x in l]] *)
Fixpoint mapM {A B} (f : A → M B) (l : list A) : M (list B) :=
  match l with
  | [] => mret []
  | x :: l' => y ← f x; ys ← mapM f l'; mret (y :: ys)
  end.

(** [for x in l: f(x)] *)
Fixpoint forM_ {A} (f : A → M unit) (l : list A) : M unit :=
  match l with
  | [] => mret tt
  | x :: l' => f x;; forM_ f l'
  end.

(** Reading, writing and creating an object of a store. *)
Definition deref {A} (store : World → list A) (r : ref) : M A := λ w,
  match store w !! r with
  | Some o => (Ok o, w)
  | None => (Raise DanglingReference, w)
  end.

Definition assign {A} (set : (list A → list A) → World → World)
    (r : ref) (o : A) : M unit :=
  modify (set (λ l, <[r:=o]> l)).

Definition alloc {A} (store : World → list A)
    (set : (list A → list A) → World → World) (o : A) : M ref := λ w,
  (Ok (length (store w)), set (λ l, l ++ [o]) w).

(** [d[k]] and [del d[k]] on a dict, [KeyError] when the key is absent. *)
Definition subscript {A} (o : option A) : M A :=
  match o with
  | Some a => mret a
  | None => raise KeyError
  end.

Definition dict_del (k : Z) (d : gmap Z ref) : Result (gmap Z ref) :=
  match d !! k with
  | Some _ => Ok (delete k d)
  | None => Raise KeyError
  end.

(** An attribute of [o], where [o] may be [None]. *)
Definition not_None {A} (o : option A) : M A :=
  match o with
  | Some a => mret a
  | None => raise AttributeError
  end.

(** The part of [state_registry.IStateRegistry] that the models call back
    through their [_state] attribute. *)
Module state_registry.

Record IStateRegistry := {
  get_guild_by_id : Z → M (option ref);
  get_channel_by_id : Z → M (option ref);
  get_role_by_id : Z → Z → M (option ref);
  parse_user : UserPayload → M ref;
}.

End state_registry.

Abbreviation IStateRegistry := state_registry.IStateRegistry.

(** [l.remove(x)]: drops the first element equal to [x]; [ValueError] when
    there is none. *)
Fixpoint list_remove {A} `{EqDecision A} (x : A) (l : list A) : option (list A) :=
  match l with
  | [] => None
  | y :: l' => if decide (y = x) then Some l' else cons y <$> list_remove x l'
  end.

(** [d.values()] *)
Definition values (d : gmap Z ref) : list ref := (map_to_list d).*2.

(** Field updates of a guild. *)
Definition Guild_with_channels (f : gmap Z ref → gmap Z ref) (g : Guild) : Guild :=
  {| Guild_id := Guild_id g; Guild_unavailable := Guild_unavailable g;
     Guild_name := Guild_name g; Guild_channels := f (Guild_channels g);
     Guild_roles := Guild_roles g; Guild_members := Guild_members g;
     Guild_emojis := Guild_emojis g |}.

Definition Guild_with_roles (f : gmap Z ref → gmap Z ref) (g : Guild) : Guild :=
  {| Guild_id := Guild_id g; Guild_unavailable := Guild_unavailable g;
     Guild_name := Guild_name g; Guild_channels := Guild_channels g;
     Guild_roles := f (Guild_roles g); Guild_members := Guild_members g;
     Guild_emojis := Guild_emojis g |}.

Definition Guild_with_members (f : gmap Z ref → gmap Z ref) (g : Guild) : Guild :=
  {| Guild_id := Guild_id g; Guild_unavailable := Guild_unavailable g;
     Guild_name := Guild_name g; Guild_channels := Guild_channels g;
     Guild_roles := Guild_roles g; Guild_members := f (Guild_members g);
     Guild_emojis := Guild_emojis g |}.

Definition Guild_with_emojis (f : gmap Z ref → gmap Z ref) (g : Guild) : Guild :=
  {| Guild_id := Guild_id g; Guild_unavailable := Guild_unavailable g;
     Guild_name := Guild_name g; Guild_channels := Guild_channels g;
     Guild_roles := Guild_roles g; Guild_members := Guild_members g;
     Guild_emojis := f (Guild_emojis g) |}.

Definition Guild_with_state (unavailable : bool) (name : string) (g : Guild) : Guild :=
  {| Guild_id := Guild_id g; Guild_unavailable := unavailable;
     Guild_name := name; Guild_channels := Guild_channels g;
     Guild_roles := Guild_roles g; Guild_members := Guild_members g;
     Guild_emojis := Guild_emojis g |}.

Definition Member_with_roles (roles : list (option ref)) (nick : option string)
    (m : Member) : Member :=
  {| Member_id := Member_id m; Member_guild := Member_guild m;
     Member_user := Member_user m; Member_roles := roles; Member_nick := nick |}.

Definition Message_with_reactions (reactions : list ref) (m : Message) : Message :=
  {| Message_id := Message_id m; Message_channel_id := Message_channel_id m;
     Message_content := Message_content m; Message_reactions := reactions |}.

Definition Reaction_with_count (count : Z) (r : Reaction) : Reaction :=
  {| Reaction_count := count; Reaction_emoji := Reaction_emoji r;
     Reaction_message := Reaction_message r |}.

(** ** The models *)

Module users.

(** Modelled from the spec: [users.User(state, payload)]. *)
Definition User__init__ (payload : UserPayload) : M ref :=
  alloc user_objs set_user_objs
    {| User_class := UserCls; User_id := up_id payload;
       User_username := up_username payload;
       User_mfa_enabled := None; User_verified := None |}.

(** Modelled from the spec: [users.BotUser(state, payload)]. *)
Definition BotUser__init__ (payload : UserPayload) : M ref :=
  alloc user_objs set_user_objs
    {| User_class := BotUserCls; User_id := up_id payload;
       User_username := up_username payload;
       User_mfa_enabled := up_mfa_enabled payload;
       User_verified := up_verified payload |}.

(** Modelled from the spec: [update_state(payload)] refreshes the fields of
    the object in place; it keeps the identifier and the class. *)
Definition update_state (self : ref) (payload : UserPayload) : M unit :=
  u ← deref user_objs self;
  assign set_user_objs self
    match User_class u with
    | UserCls =>
        {| User_class := UserCls; User_id := User_id u;
           User_username := up_username payload;
           User_mfa_enabled := User_mfa_enabled u; User_verified := User_verified u |}
    | BotUserCls =>
        {| User_class := BotUserCls; User_id := User_id u;
           User_username := up_username payload;
           User_mfa_enabled := up_mfa_enabled payload;
           User_verified := up_verified payload |}
    end.

End users.

Module guilds.

(** Modelled from the spec: [guilds.Guild(state, payload)], a guild with
    empty collections. *)
Definition Guild__init__ (payload : GuildPayload) : M ref :=
  alloc guild_objs set_guild_objs
    {| Guild_id := gp_id payload;
       Guild_unavailable := default false (gp_unavailable payload);
       Guild_name := gp_name payload;
       Guild_channels := ∅; Guild_roles := ∅; Guild_members := ∅; Guild_emojis := ∅ |}.

(** Modelled from the spec: [update_state(payload)] refreshes the guild's own
    fields and keeps its collections. *)
Definition update_state (self : ref) (payload : GuildPayload) : M unit :=
  g ← deref guild_objs self;
  assign set_guild_objs self
    (Guild_with_state (default false (gp_unavailable payload)) (gp_name payload) g).

End guilds.

Module roles.

(** Modelled from the spec: [roles.Role(state, payload, guild_id)]. *)
Definition Role__init__ (payload : RolePayload) (guild_id : Z) : M ref :=
  alloc role_objs set_role_objs
    {| Role_id := rp_id payload; Role_guild_id := guild_id; Role_name := rp_name payload |}.

(** Modelled from the spec: [update_state(payload)] refreshes the role's own
    fields; id and guild stay. *)
Definition update_state (self : ref) (payload : RolePayload) : M unit :=
  r ← deref role_objs self;
  assign set_role_objs self
    {| Role_id := Role_id r; Role_guild_id := Role_guild_id r; Role_name := rp_name payload |}.

(** Modelled from the spec: the [guild] property, resolved through the
    registry from [guild_id] as [channels.GuildChannel.guild] does. *)
Definition guild (global_state : IStateRegistry) (self : ref) : M (option ref) :=
  r ← deref role_objs self;
  state_registry.get_guild_by_id global_state (Role_guild_id r).

End roles.

Module emojis.

(** Modelled from the spec: [emojis.parse_emoji(state, payload, guild_id)].
    With a guild id the emoji is a custom emoji of that guild, a new
    [GuildEmoji] object that needs its id; without one it is ephemeral. *)
Definition parse_emoji (payload : EmojiPayload) (guild_id : option Z) : M Emoji :=
  match guild_id with
  | Some g =>
      i ← subscript (ep_id payload);
      e ← alloc emoji_objs set_emoji_objs
            {| GuildEmoji_id := i; GuildEmoji_guild_id := g;
               GuildEmoji_name := ep_name payload |};
      mret (GuildEmojiRef e)
  | None => mret (EphemeralEmoji (ep_id payload) (ep_name payload))
  end.

(** Modelled from the spec: [update_state(payload)] refreshes the emoji's
    own fields; id and guild stay. *)
Definition update_state (self : ref) (payload : EmojiPayload) : M unit :=
  e ← deref emoji_objs self;
  assign set_emoji_objs self
    {| GuildEmoji_id := GuildEmoji_id e; GuildEmoji_guild_id := GuildEmoji_guild_id e;
       GuildEmoji_name := ep_name payload |}.

(** Modelled from the spec: the [guild] property of a [GuildEmoji]. *)
Definition guild (global_state : IStateRegistry) (self : ref) : M (option ref) :=
  e ← deref emoji_objs self;
  state_registry.get_guild_by_id global_state (GuildEmoji_guild_id e).

End emojis.

Module members.

(** Modelled from the spec: [update_state(role_objs, nick)] replaces the
    role list and the nickname only. *)
Definition update_state (self : ref) (role_objs : list (option ref))
    (nick : option string) : M unit :=
  m ← deref member_objs self;
  assign set_member_objs self (Member_with_roles role_objs nick m).

(** Modelled from the spec: [members.Member(state, guild, payload)]: the
    user is parsed through the registry and the roles are resolved in the
    guild, as [parse_member] does for an update. *)
Definition Member__init__ (global_state : IStateRegistry) (guild_obj : ref)
    (payload : MemberPayload) : M ref :=
  g ← deref guild_objs guild_obj;
  u ← state_registry.parse_user global_state (mp_user payload);
  role_objs ← mapM (state_registry.get_role_by_id global_state (Guild_id g))
                   (mp_roles payload);
  alloc member_objs set_member_objs
    {| Member_id := up_id (mp_user payload); Member_guild := guild_obj;
       Member_user := u; Member_roles := role_objs; Member_nick := mp_nick payload |}.

(** Modelled from the spec: the [guild] attribute of a member, the guild
    object that the constructor was given; it does not go through the
    registry, so it is there whether the guild is still cached or not. *)
Definition guild (global_state : IStateRegistry) (self : ref) : M (option ref) :=
  m ← deref member_objs self;
  mret (Some (Member_guild m)).

End members.

Module messages.

(** Modelled from the spec: [messages.Message(state, payload)], a message
    without reactions yet. *)
Definition Message__init__ (payload : MessagePayload) : M ref :=
  alloc message_objs set_message_objs
    {| Message_id := msg_id payload; Message_channel_id := msg_channel_id payload;
       Message_content := msg_content payload; Message_reactions := [] |}.

(** Modelled from the spec: the [channel] property, the channel reference
    resolved through the registry from the channel id. *)
Definition channel (global_state : IStateRegistry) (self : ref) : M (option ref) :=
  m ← deref message_objs self;
  state_registry.get_channel_by_id global_state (Message_channel_id m).

End messages.

Module reactions.

(** Modelled from the spec: [reactions.Reaction(count, emoji, message)]. *)
Definition Reaction__init__ (count : Z) (emoji : Emoji) (message : ref) : M ref :=
  alloc reaction_objs set_reaction_objs
    {| Reaction_count := count; Reaction_emoji := emoji; Reaction_message := message |}.

End reactions.

(** ** [hikari/state/models/channels.py] *)

Module channels.

Inductive ChannelClass :=
  | GuildTextChannelCls | DMChannelCls | GuildVoiceChannelCls | GroupDMChannelCls
  | GuildCategoryCls | GuildNewsChannelCls | GuildStoreChannelCls.

(** [Channel._channel_implementations], filled by [__init_subclass__] from
    the [type=] keyword of each class. *)
Definition _channel_implementations (channel_type : Z) : option ChannelClass :=
  match channel_type with
  | 0 => Some GuildTextChannelCls
  | 1 => Some DMChannelCls
  | 2 => Some GuildVoiceChannelCls
  | 3 => Some GroupDMChannelCls
  | 4 => Some GuildCategoryCls
  | 5 => Some GuildNewsChannelCls
  | 6 => Some GuildStoreChannelCls
  | _ => None
  end.

(** The [is_dm=] keyword of each class. *)
Definition is_dm (cls : ChannelClass) : bool :=
  match cls with
  | DMChannelCls | GroupDMChannelCls => true
  | _ => false
  end.

(** [getattr(Channel._channel_implementations.get(channel_type), "is_dm", False)] *)
Definition is_channel_type_dm (channel_type : Z) : bool :=
  match _channel_implementations channel_type with
  | Some cls => is_dm cls
  | None => false
  end.

(** [GuildChannel.update_state]: the slots are written in the order of the
    source, so a [KeyError] on a missing key leaves the earlier ones
    written. *)
Definition GuildChannel_update_state (payload : ChannelPayload)
    (gc : GuildChannelSlots) : GuildChannelSlots * Result unit :=
  match cp_position payload with
  | None => (gc, Raise KeyError)
  | Some position =>
      let gc1 := {| gc_guild_id := gc_guild_id gc; gc_position := position;
                    gc_permission_overwrites := gc_permission_overwrites gc;
                    gc_name := gc_name gc; gc_parent_id := gc_parent_id gc |} in
      match cp_permission_overwrites payload with
      | None => (gc1, Raise KeyError)
      | Some overwrite_objs =>
          let gc2 := {| gc_guild_id := gc_guild_id gc; gc_position := position;
                        gc_permission_overwrites := overwrite_objs;
                        gc_name := gc_name gc; gc_parent_id := gc_parent_id gc |} in
          match cp_name payload with
          | None => (gc2, Raise KeyError)
          | Some name =>
              ({| gc_guild_id := gc_guild_id gc; gc_position := position;
                  gc_permission_overwrites := overwrite_objs;
                  gc_name := name; gc_parent_id := cp_parent_id payload |}, Ok tt)
          end
      end
  end.

(** [payload.get(key) or None] *)
Definition or_None (v : option Z) : option Z :=
  match v with
  | Some 0 => None
  | _ => v
  end.

Definition set_channel (self : ref) (c : Channel) : M unit :=
  assign set_channel_objs self c.

(** [DMChannel.update_state]: the base implementation does nothing, then
    [last_message_id] and [recipients] are set, each recipient parsed
    through the registry. *)
Definition DMChannel_update_state (global_state : IStateRegistry)
    (payload : ChannelPayload) (rebuild : DMChannelSlots → Channel)
    (self : ref) (dm : DMChannelSlots) : M DMChannelSlots :=
  let dm1 := {| dm_last_message_id := cp_last_message_id payload;
                dm_recipients := dm_recipients dm |} in
  set_channel self (rebuild dm1);;
  recipients ← mapM (state_registry.parse_user global_state)
                    (default [] (cp_recipients payload));
  let dm2 := {| dm_last_message_id := cp_last_message_id payload;
                dm_recipients := recipients |} in
  set_channel self (rebuild dm2);;
  mret dm2.

(** [update_state], dispatched on the class of [self]. *)
Definition update_state (global_state : IStateRegistry) (self : ref)
    (payload : ChannelPayload) : M unit :=
  c ← deref channel_objs self;
  match c with
  | GuildTextChannel i gc t r l n =>
      let '(gc', res) := GuildChannel_update_state payload gc in
      match res with
      | Raise e => set_channel self (GuildTextChannel i gc' t r l n);; raise e
      | Ok _ =>
          set_channel self
            (GuildTextChannel i gc' (cp_topic payload)
               (default 0 (cp_rate_limit_per_user payload))
               (cp_last_message_id payload) (default false (cp_nsfw payload)))
      end
  | DMChannel i dm =>
      DMChannel_update_state global_state payload (DMChannel i) self dm;; mret tt
  | GuildVoiceChannel i gc b u =>
      let '(gc', res) := GuildChannel_update_state payload gc in
      match res with
      | Raise e => set_channel self (GuildVoiceChannel i gc' b u);; raise e
      | Ok _ =>
          set_channel self
            (GuildVoiceChannel i gc' (or_None (cp_bitrate payload))
               (or_None (cp_user_limit payload)))
      end
  | GroupDMChannel i dm ic n oa o =>
      dm' ← DMChannel_update_state global_state payload
              (λ d, GroupDMChannel i d ic n oa o) self dm;
      set_channel self
        (GroupDMChannel i dm' (cp_icon payload) (cp_name payload)
           (cp_application_id payload) (cp_owner_id payload))
  | GuildCategory i gc =>
      let '(gc', res) := GuildChannel_update_state payload gc in
      set_channel self (GuildCategory i gc');;
      match res with Raise e => raise e | Ok _ => mret tt end
  | GuildNewsChannel i gc t l n =>
      let '(gc', res) := GuildChannel_update_state payload gc in
      match res with
      | Raise e => set_channel self (GuildNewsChannel i gc' t l n);; raise e
      | Ok _ =>
          set_channel self
            (GuildNewsChannel i gc' (cp_topic payload) (cp_last_message_id payload)
               (default false (cp_nsfw payload)))
      end
  | GuildStoreChannel i gc =>
      let '(gc', res) := GuildChannel_update_state payload gc in
      set_channel self (GuildStoreChannel i gc');;
      match res with Raise e => raise e | Ok _ => mret tt end
  end.

(** The slots of a guild channel before [update_state] has run: only
    [guild_id] is set, by [GuildChannel.__init__]. *)
Definition unset_GuildChannel (guild_id : Z) : GuildChannelSlots :=
  {| gc_guild_id := guild_id; gc_position := 0; gc_permission_overwrites := [];
     gc_name := ""; gc_parent_id := None |}.

Definition unset_DMChannel : DMChannelSlots :=
  {| dm_last_message_id := None; dm_recipients := [] |}.

(** [cls(global_state, payload)]: [GuildChannel.__init__] reads
    [payload["guild_id"]], [Channel.__init__] sets [id] and calls
    [update_state].  A constructor that raises leaves no reference to the
    object behind. *)
Definition Channel__init__ (global_state : IStateRegistry) (cls : ChannelClass)
    (payload : ChannelPayload) : M ref :=
  let id := cp_id payload in
  new ← match cls with
        | GuildTextChannelCls =>
            g ← subscript (cp_guild_id payload);
            mret (GuildTextChannel id (unset_GuildChannel g) None 0 None false)
        | DMChannelCls => mret (DMChannel id unset_DMChannel)
        | GuildVoiceChannelCls =>
            g ← subscript (cp_guild_id payload);
            mret (GuildVoiceChannel id (unset_GuildChannel g) None None)
        | GroupDMChannelCls =>
            mret (GroupDMChannel id unset_DMChannel None None None None)
        | GuildCategoryCls =>
            g ← subscript (cp_guild_id payload);
            mret (GuildCategory id (unset_GuildChannel g))
        | GuildNewsChannelCls =>
            g ← subscript (cp_guild_id payload);
            mret (GuildNewsChannel id (unset_GuildChannel g) None None false)
        | GuildStoreChannelCls =>
            g ← subscript (cp_guild_id payload);
            mret (GuildStoreChannel id (unset_GuildChannel g))
        end;
  self ← alloc channel_objs set_channel_objs new;
  update_state global_state self payload;;
  mret self.

(** [GuildChannel.guild]; a DM channel has no such attribute. *)
Definition guild (global_state : IStateRegistry) (self : ref) : M (option ref) :=
  c ← deref channel_objs self;
  match Channel_guild_id c with
  | Some guild_id => state_registry.get_guild_by_id global_state guild_id
  | None => raise AttributeError
  end.

(** [GuildChannel.parent]: the entry of the guild's channel collection for
    [parent_id], or [None] without a parent id; a DM channel has no such
    attribute. *)
Definition parent (global_state : IStateRegistry) (self : ref) : M (option ref) :=
  c ← deref channel_objs self;
  match Channel_guild_slots c with
  | Some gc =>
      match gc_parent_id gc with
      | Some parent_id =>
          guild_obj ← guild global_state self;
          g ← not_None guild_obj;
          go ← deref guild_objs g;
          parent_obj ← subscript (Guild_channels go !! parent_id);
          mret (Some parent_obj)
      | None => mret None
      end
  | None => raise AttributeError
  end.

(** [parse_channel(global_state, payload)] *)
Definition parse_channel (global_state : IStateRegistry)
    (payload : ChannelPayload) : M ref :=
  match cp_type payload ≫= _channel_implementations with
  | Some channel_type => Channel__init__ global_state channel_type payload
  | None => raise TypeError
  end.

End channels.

(** ** [hikari/state/state_registry_impl.py] *)

Module StateRegistryImpl.

Import data_structures.

(** A pure step that may raise, as a method step. *)
Definition lift {A} (r : Result A) : M A :=
  match r with
  | Ok a => mret a
  | Raise e => raise e
  end.

(** The attributes set by [__init__], in a world without objects. *)
Definition new_registry (dm_channels message_cache : LRUDict) : World :=
  {| _dm_channels := dm_channels; _emojis := ∅; _guilds := ∅;
     _guild_channels := ∅; _users := ∅; _message_cache := message_cache;
     _user := None;
     guild_objs := []; channel_objs := []; role_objs := [];
     member_objs := []; emoji_objs := []; message_objs := [];
     reaction_objs := []; user_objs := [] |}.

(** A use of one of the two bounded caches: the operation returns its
    result and the cache as it leaves it. *)
Definition on_dm_channels {A} (op : LRUDict → A * LRUDict) : M A := λ w,
  let '(a, d) := op (_dm_channels w) in
  (Ok a, set_dm_channels (λ _, d) w).

Definition on_message_cache {A} (op : LRUDict → A * LRUDict) : M A := λ w,
  let '(a, d) := op (_message_cache w) in
  (Ok a, set_message_cache (λ _, d) w).

(** [StateRegistryImpl(message_cache_size, user_dm_channel_size)] *)
Definition __init__ (message_cache_size user_dm_channel_size : Z) : Result World :=
  match LRUDict_init user_dm_channel_size with
  | Raise e => Raise e
  | Ok dm_channels =>
      match LRUDict_init message_cache_size with
      | Raise e => Raise e
      | Ok message_cache => Ok (new_registry dm_channels message_cache)
      end
  end.

(** The properties [me] and [message_cache]. *)
Definition me : M (option ref) := gets _user.

Definition message_cache : M LRUDict := gets _message_cache.

(** *** Queries *)

(** [self._guild_channels.get(channel_id) or self._dm_channels.get(channel_id)] *)
Definition get_channel_by_id (channel_id : Z) : M (option ref) :=
  gcs ← gets _guild_channels;
  match gcs !! channel_id with
  | Some c => mret (Some c)
  | None => on_dm_channels (get channel_id)
  end.

Definition get_emoji_by_id (emoji_id : Z) : M (option ref) :=
  gets (λ w, _emojis w !! emoji_id).

Definition get_guild_by_id (guild_id : Z) : M (option ref) :=
  gets (λ w, _guilds w !! guild_id).

Definition get_member_by_id (user_id guild_id : Z) : M (option ref) :=
  gs ← gets _guilds;
  match gs !! guild_id with
  | None => mret None
  | Some g => go ← deref guild_objs g; mret (Guild_members go !! user_id)
  end.

Definition get_message_by_id (message_id : Z) : M (option ref) :=
  on_message_cache (get message_id).

Definition get_role_by_id (guild_id role_id : Z) : M (option ref) :=
  gs ← gets _guilds;
  match gs !! guild_id with
  | None => mret None
  | Some g => go ← deref guild_objs g; mret (Guild_roles go !! role_id)
  end.

Definition get_user_by_id (user_id : Z) : M (option ref) :=
  u ← gets _user;
  is_me ← match u with
          | Some me => uo ← deref user_objs me; mret (bool_decide (User_id uo = user_id))
          | None => mret false
          end;
  if is_me : bool then mret u else gets (λ w, _users w !! user_id).

(** *** Users *)

Definition parse_bot_user (bot_user_payload : UserPayload) : M ref :=
  u ← gets _user;
  match u with
  | Some me => users.update_state me bot_user_payload;; mret me
  | None =>
      me ← users.BotUser__init__ bot_user_payload;
      modify (set_user (λ _, Some me));;
      mret me
  end.

Definition parse_user (user_payload : UserPayload) : M ref :=
  let user_id := up_id user_payload in
  u ← gets _user;
  is_me ← match u with
          | Some me => uo ← deref user_objs me; mret (bool_decide (user_id = User_id uo))
          | None => mret false
          end;
  if (is_me : bool) || bool_decide (is_Some (up_mfa_enabled user_payload))
     || bool_decide (is_Some (up_verified user_payload))
  then parse_bot_user user_payload
  else
    user_obj ← get_user_by_id user_id;
    match user_obj with
    | None =>
        user_obj ← users.User__init__ user_payload;
        modify (set_users (λ d, <[user_id:=user_obj]> d));;
        mret user_obj
    | Some _ =>
        us ← gets _users;
        existing_user ← subscript (us !! user_id);
        users.update_state existing_user user_payload;;
        mret existing_user
    end.

(** The registry as the [_state] of its models. *)
Definition self : IStateRegistry :=
  state_registry.Build_IStateRegistry get_guild_by_id get_channel_by_id get_role_by_id parse_user.

(** *** Reactions *)

(** The first reaction of the list whose emoji is [emoji_obj]: the
    [for ... if reaction_obj.emoji == emoji_obj] scan that the reaction
    methods share, up to the point where the body runs. *)
Fixpoint first_with_emoji (emoji_obj : Emoji) (l : list ref) : M (option ref) :=
  match l with
  | [] => mret None
  | reaction_obj :: l' =>
      ro ← deref reaction_objs reaction_obj;
      if decide (Reaction_emoji ro = emoji_obj) then mret (Some reaction_obj)
      else first_with_emoji emoji_obj l'
  end.

Definition increment_reaction_count (message_obj : ref) (emoji_obj : Emoji) : M ref :=
  mo ← deref message_objs message_obj;
  found ← first_with_emoji emoji_obj (Message_reactions mo);
  match found with
  | Some reaction_obj =>
      ro ← deref reaction_objs reaction_obj;
      assign set_reaction_objs reaction_obj
        (Reaction_with_count (Reaction_count ro + 1) ro);;
      mret reaction_obj
  | None =>
      reaction_obj ← reactions.Reaction__init__ 1 emoji_obj message_obj;
      assign set_message_objs message_obj
        (Message_with_reactions (Message_reactions mo ++ [reaction_obj]) mo);;
      mret reaction_obj
  end.

(** [message_obj.reactions.remove(reaction_obj)] *)
Definition remove_reaction (message_obj reaction_obj : ref) : M unit :=
  mo ← deref message_objs message_obj;
  match list_remove reaction_obj (Message_reactions mo) with
  | Some l => assign set_message_objs message_obj (Message_with_reactions l mo)
  | None => raise ValueError
  end.

Definition decrement_reaction_count (message_obj : ref) (emoji_obj : Emoji)
    : M (option ref) :=
  mo ← deref message_objs message_obj;
  found ← first_with_emoji emoji_obj (Message_reactions mo);
  match found with
  | Some reaction_obj =>
      ro ← deref reaction_objs reaction_obj;
      let count := Reaction_count ro - 1 in
      assign set_reaction_objs reaction_obj (Reaction_with_count count ro);;
      (if decide (count = 0) then remove_reaction message_obj reaction_obj else mret tt);;
      mret (Some reaction_obj)
  | None => mret None
  end.

(** The scan of [delete_reaction], whose test also compares the id of the
    reaction's message with itself. *)
Fixpoint first_to_delete (emoji_obj : Emoji) (l : list ref) : M (option ref) :=
  match l with
  | [] => mret None
  | reaction_obj :: l' =>
      ro ← deref reaction_objs reaction_obj;
      if decide (Reaction_emoji ro = emoji_obj) then
        m ← deref message_objs (Reaction_message ro);
        if decide (Message_id m = Message_id m) then mret (Some reaction_obj)
        else first_to_delete emoji_obj l'
      else first_to_delete emoji_obj l'
  end.

(** [user_obj] is ignored by the method and left out. *)
Definition delete_reaction (message_obj : ref) (emoji_obj : Emoji) : M unit :=
  mo ← deref message_objs message_obj;
  found ← first_to_delete emoji_obj (Message_reactions mo);
  match found with
  | Some reaction_obj =>
      remove_reaction message_obj reaction_obj;;
      ro ← deref reaction_objs reaction_obj;
      assign set_reaction_objs reaction_obj (Reaction_with_count 0 ro)
  | None => mret tt
  end.

Definition delete_all_reactions (message_obj : ref) : M unit :=
  mo ← deref message_objs message_obj;
  forM_ (λ reaction_obj,
           ro ← deref reaction_objs reaction_obj;
           assign set_reaction_objs reaction_obj (Reaction_with_count 0 ro))
        (Message_reactions mo);;
  assign set_message_objs message_obj (Message_with_reactions [] mo).

(** *** Deletions *)

Definition delete_channel (channel_obj : ref) : M unit :=
  co ← deref channel_objs channel_obj;
  let channel_id := Channel_id co in
  gcs ← gets _guild_channels;
  if decide (is_Some (gcs !! channel_id)) then
    guild_obj ← channels.guild self channel_obj;
    g ← not_None guild_obj;
    go ← deref guild_objs g;
    cs ← lift (dict_del channel_id (Guild_channels go));
    assign set_guild_objs g (Guild_with_channels (λ _, cs) go);;
    gcs ← gets _guild_channels;
    gcs' ← lift (dict_del channel_id gcs);
    modify (set_guild_channels (λ _, gcs'))
  else
    dms ← gets _dm_channels;
    if contains channel_id dms then modify (set_dm_channels (delitem channel_id))
    else mret tt.

Definition delete_emoji (emoji_obj : ref) : M unit :=
  eo ← deref emoji_objs emoji_obj;
  suppress KeyError (
    es ← gets _emojis;
    es' ← lift (dict_del (GuildEmoji_id eo) es);
    modify (set_emojis (λ _, es')));;
  guild_obj ← emojis.guild self emoji_obj;
  suppress KeyError (
    g ← not_None guild_obj;
    go ← deref guild_objs g;
    es ← lift (dict_del (GuildEmoji_id eo) (Guild_emojis go));
    assign set_guild_objs g (Guild_with_emojis (λ _, es) go)).

Definition delete_guild (guild_obj : ref) : M unit :=
  go ← deref guild_objs guild_obj;
  suppress KeyError (
    gs ← gets _guilds;
    gs' ← lift (dict_del (Guild_id go) gs);
    modify (set_guilds (λ _, gs'))).

Definition delete_message (message_obj : ref) : M unit :=
  mo ← deref message_objs message_obj;
  suppress KeyError (
    found ← on_message_cache (getitem (Message_id mo));
    message_obj ← lift found;
    mo ← deref message_objs message_obj;
    modify (set_message_cache (delitem (Message_id mo)))).

Definition delete_member (member_obj : ref) : M unit :=
  mo ← deref member_objs member_obj;
  suppress KeyError (
    guild_obj ← members.guild self member_obj;
    g ← not_None guild_obj;
    go ← deref guild_objs g;
    ms ← lift (dict_del (Member_id mo) (Guild_members go));
    assign set_guild_objs g (Guild_with_members (λ _, ms) go)).

Definition delete_role (role_obj : ref) : M unit :=
  ro ← deref role_objs role_obj;
  guild_obj ← roles.guild self role_obj;
  suppress KeyError (
    g ← not_None guild_obj;
    go ← deref guild_objs g;
    rs ← lift (dict_del (Role_id ro) (Guild_roles go));
    assign set_guild_objs g (Guild_with_roles (λ _, rs) go);;
    forM_ (λ member,
             mo ← deref member_objs member;
             if decide (Some role_obj ∈ Member_roles mo) then
               match list_remove (Some role_obj) (Member_roles mo) with
               | Some l =>
                   assign set_member_objs member
                     (Member_with_roles l (Member_nick mo) mo)
               | None => raise ValueError
               end
             else mret tt)
          (values (Guild_members go))).

(** *** Parsers *)

Definition parse_channel (channel_payload : ChannelPayload)
    (guild_obj : option ref) : M ref :=
  let channel_id := cp_id channel_payload in
  channel_obj ← get_channel_by_id channel_id;
  channel_payload ← match guild_obj with
                    | Some g =>
                        go ← deref guild_objs g;
                        mret (cp_set_guild_id (Guild_id go) channel_payload)
                    | None => mret channel_payload
                    end;
  match channel_obj with
  | Some channel_obj =>
      channels.update_state self channel_obj channel_payload;;
      mret channel_obj
  | None =>
      channel_obj ← channels.parse_channel self channel_payload;
      channel_type ← subscript (cp_type channel_payload);
      (if channels.is_channel_type_dm channel_type then
         modify (set_dm_channels (setitem channel_id channel_obj))
       else
         modify (set_guild_channels (λ d, <[channel_id:=channel_obj]> d));;
         guild_obj ← channels.guild self channel_obj;
         g ← not_None guild_obj;
         go ← deref guild_objs g;
         assign set_guild_objs g
           (Guild_with_channels (λ d, <[channel_id:=channel_obj]> d) go));;
      mret channel_obj
  end.

Definition parse_emoji (emoji_payload : EmojiPayload) (guild_obj : option ref)
    : M Emoji :=
  let emoji_id := ep_id emoji_payload in
  existing_emoji ← match emoji_id with
                   | Some i => get_emoji_by_id i
                   | None => mret None
                   end;
  match existing_emoji with
  | Some e =>
      emojis.update_state e emoji_payload;;
      mret (GuildEmojiRef e)
  | None =>
      guild_id ← match guild_obj with
                 | Some g => go ← deref guild_objs g; mret (Some (Guild_id go))
                 | None => mret None
                 end;
      new_emoji ← emojis.parse_emoji emoji_payload guild_id;
      match new_emoji with
      | GuildEmojiRef e =>
          guild_id ← not_None guild_id;
          guild_obj ← get_guild_by_id guild_id;
          g ← not_None guild_obj;
          eo ← deref emoji_objs e;
          go ← deref guild_objs g;
          assign set_guild_objs g
            (Guild_with_emojis (λ d, <[GuildEmoji_id eo:=e]> d) go);;
          modify (set_emojis (λ d, <[GuildEmoji_id eo:=e]> d));;
          mret new_emoji
      | EphemeralEmoji _ _ => mret new_emoji
      end
  end.

Definition set_guild_unavailability (guild_obj : ref) (unavailability : bool)
    : M unit :=
  go ← deref guild_objs guild_obj;
  assign set_guild_objs guild_obj (Guild_with_state unavailability (Guild_name go) go).

Definition parse_guild (guild_payload : GuildPayload) : M ref :=
  let guild_id := gp_id guild_payload in
  let unavailable := default false (gp_unavailable guild_payload) in
  gs ← gets _guilds;
  if decide (is_Some (gs !! guild_id)) then
    guild_obj ← get_guild_by_id guild_id;
    g ← not_None guild_obj;
    (if unavailable then set_guild_unavailability g true
     else guilds.update_state g guild_payload);;
    mret g
  else
    guild_obj ← guilds.Guild__init__ guild_payload;
    modify (set_guilds (λ d, <[guild_id:=guild_obj]> d));;
    mret guild_obj.

Definition parse_member (member_payload : MemberPayload) (guild_obj : ref) : M ref :=
  let member_id := up_id (mp_user member_payload) in
  go ← deref guild_objs guild_obj;
  match Guild_members go !! member_id with
  | Some member_obj =>
      let nick := mp_nick member_payload in
      role_objs ← mapM (get_role_by_id (Guild_id go)) (mp_roles member_payload);
      members.update_state member_obj role_objs nick;;
      mret member_obj
  | None =>
      member_obj ← members.Member__init__ self guild_obj member_payload;
      go ← deref guild_objs guild_obj;
      assign set_guild_objs guild_obj
        (Guild_with_members (λ d, <[member_id:=member_obj]> d) go);;
      mret member_obj
  end.

Definition parse_message (message_payload : MessagePayload) : M (option ref) :=
  let message_id := msg_id message_payload in
  let channel_id := msg_channel_id message_payload in
  channel_obj ← get_channel_by_id channel_id;
  match channel_obj with
  | Some _ =>
      message_obj ← messages.Message__init__ message_payload;
      channel ← messages.channel self message_obj;
      c ← not_None channel;
      co ← deref channel_objs c;
      match Channel_set_last_message_id (Some message_id) co with
      | Some co' => assign set_channel_objs c co'
      | None => raise AttributeError
      end;;
      modify (set_message_cache (setitem message_id message_obj));;
      mret (Some message_obj)
  | None => mret None
  end.

Definition parse_reaction (reaction_payload : ReactionPayload) : M (option ref) :=
  let message_id := rx_message_id reaction_payload in
  message_obj ← get_message_by_id message_id;
  let count := rx_count reaction_payload in
  emoji_obj ← parse_emoji (rx_emoji reaction_payload) None;
  match message_obj with
  | Some message_obj =>
      new_reaction_obj ← reactions.Reaction__init__ count emoji_obj message_obj;
      new ← deref reaction_objs new_reaction_obj;
      mo ← deref message_objs message_obj;
      found ← first_with_emoji (Reaction_emoji new) (Message_reactions mo);
      match found with
      | Some existing_reaction_obj =>
          ro ← deref reaction_objs existing_reaction_obj;
          assign set_reaction_objs existing_reaction_obj
            (Reaction_with_count (Reaction_count new) ro);;
          mret (Some existing_reaction_obj)
      | None =>
          assign set_message_objs message_obj
            (Message_with_reactions (Message_reactions mo ++ [new_reaction_obj]) mo);;
          mret (Some new_reaction_obj)
      end
  | None => mret None
  end.

Definition parse_role (role_payload : RolePayload) (guild_obj : ref) : M ref :=
  let role_id := rp_id role_payload in
  go ← deref guild_objs guild_obj;
  match Guild_roles go !! role_id with
  | Some role =>
      roles.update_state role role_payload;;
      mret role
  | None =>
      role ← roles.Role__init__ role_payload (Guild_id go);
      ro ← deref role_objs role;
      go ← deref guild_objs guild_obj;
      assign set_guild_objs guild_obj
        (Guild_with_roles (λ d, <[Role_id ro:=role]> d) go);;
      mret role
  end.

(** [set_last_pinned_timestamp]: the body is [pass]. *)
Definition set_last_pinned_timestamp (channel_obj : ref) (timestamp : option Z)
    : M unit :=
  mret tt.

Definition set_roles_for_member (role_objs : list (option ref)) (member_obj : ref)
    : M unit :=
  mo ← deref member_objs member_obj;
  assign set_member_objs member_obj (Member_with_roles role_objs (Member_nick mo) mo).

End StateRegistryImpl.

(** ** Calls

    The public methods as a datatype, so that a history of the registry is
    a list of calls.  A call's result is dropped here; the world after it is
    kept, whether the method returned or raised. *)

Inductive Call :=
  | increment_reaction_count (message_obj : ref) (emoji_obj : Emoji)
  | decrement_reaction_count (message_obj : ref) (emoji_obj : Emoji)
  | delete_channel (channel_obj : ref)
  | delete_emoji (emoji_obj : ref)
  | delete_guild (guild_obj : ref)
  | delete_message (message_obj : ref)
  | delete_member (member_obj : ref)
  | delete_reaction (message_obj : ref) (emoji_obj : Emoji)
  | delete_all_reactions (message_obj : ref)
  | delete_role (role_obj : ref)
  | get_channel_by_id (channel_id : Z)
  | get_emoji_by_id (emoji_id : Z)
  | get_guild_by_id (guild_id : Z)
  | get_member_by_id (user_id guild_id : Z)
  | get_message_by_id (message_id : Z)
  | get_role_by_id (guild_id role_id : Z)
  | get_user_by_id (user_id : Z)
  | parse_bot_user (payload : UserPayload)
  | parse_channel (payload : ChannelPayload) (guild_obj : option ref)
  | parse_emoji (payload : EmojiPayload) (guild_obj : option ref)
  | parse_guild (payload : GuildPayload)
  | parse_member (payload : MemberPayload) (guild_obj : ref)
  | parse_message (payload : MessagePayload)
  | parse_reaction (payload : ReactionPayload)
  | parse_role (payload : RolePayload) (guild_obj : ref)
  | parse_user (payload : UserPayload)
  | set_guild_unavailability (guild_obj : ref) (unavailability : bool)
  | set_roles_for_member (role_objs : list (option ref)) (member_obj : ref).

(** Whether the call returned or raised. *)
Definition outcome {A} (r : Result A * World) : Result unit * World :=
  match r with
  | (Ok _, w) => (Ok tt, w)
  | (Raise e, w) => (Raise e, w)
  end.

Definition call (c : Call) (w : World) : Result unit * World :=
  match c with
  | increment_reaction_count m e =>
      outcome (StateRegistryImpl.increment_reaction_count m e w)
  | decrement_reaction_count m e =>
      outcome (StateRegistryImpl.decrement_reaction_count m e w)
  | delete_channel c => outcome (StateRegistryImpl.delete_channel c w)
  | delete_emoji e => outcome (StateRegistryImpl.delete_emoji e w)
  | delete_guild g => outcome (StateRegistryImpl.delete_guild g w)
  | delete_message m => outcome (StateRegistryImpl.delete_message m w)
  | delete_member m => outcome (StateRegistryImpl.delete_member m w)
  | delete_reaction m e => outcome (StateRegistryImpl.delete_reaction m e w)
  | delete_all_reactions m => outcome (StateRegistryImpl.delete_all_reactions m w)
  | delete_role r => outcome (StateRegistryImpl.delete_role r w)
  | get_channel_by_id i => outcome (StateRegistryImpl.get_channel_by_id i w)
  | get_emoji_by_id i => outcome (StateRegistryImpl.get_emoji_by_id i w)
  | get_guild_by_id i => outcome (StateRegistryImpl.get_guild_by_id i w)
  | get_member_by_id u g => outcome (StateRegistryImpl.get_member_by_id u g w)
  | get_message_by_id i => outcome (StateRegistryImpl.get_message_by_id i w)
  | get_role_by_id g r => outcome (StateRegistryImpl.get_role_by_id g r w)
  | get_user_by_id i => outcome (StateRegistryImpl.get_user_by_id i w)
  | parse_bot_user p => outcome (StateRegistryImpl.parse_bot_user p w)
  | parse_channel p g => outcome (StateRegistryImpl.parse_channel p g w)
  | parse_emoji p g => outcome (StateRegistryImpl.parse_emoji p g w)
  | parse_guild p => outcome (StateRegistryImpl.parse_guild p w)
  | parse_member p g => outcome (StateRegistryImpl.parse_member p g w)
  | parse_message p => outcome (StateRegistryImpl.parse_message p w)
  | parse_reaction p => outcome (StateRegistryImpl.parse_reaction p w)
  | parse_role p g => outcome (StateRegistryImpl.parse_role p g w)
  | parse_user p => outcome (StateRegistryImpl.parse_user p w)
  | set_guild_unavailability g b =>
      outcome (StateRegistryImpl.set_guild_unavailability g b w)
  | set_roles_for_member rs m =>
      outcome (StateRegistryImpl.set_roles_for_member rs m w)
  end.

(** The world after a history of calls. *)
Definition after (cs : list Call) (w : World) : World :=
  fold_left (λ w c, (call c w).2) cs w.

(** A registry state is reachable when a history of calls leads to it from
    a freshly constructed registry. *)
Definition reachable (message_cache_size user_dm_channel_size : Z) (w : World) : Prop :=
  ∃ w0 cs,
    StateRegistryImpl.__init__ message_cache_size user_dm_channel_size = Ok w0 ∧
    w = after cs w0.

(** ** Views of the registry *)

(** The flat weak channel index has the channel id. *)
Definition in_weak_channel_index (channel_id : Z) (w : World) : bool :=
  bool_decide (is_Some (_guild_channels w !! channel_id)).

(** The bounded DM index has the channel id. *)
Definition in_dm_channel_index (channel_id : Z) (w : World) : bool :=
  data_structures.contains channel_id (_dm_channels w).

(** Some guild object has the channel id in its channel collection. *)
Definition in_a_guild_collection (channel_id : Z) (w : World) : bool :=
  existsb (λ go, bool_decide (is_Some (Guild_channels go !! channel_id))) (guild_objs w).

(** The channel that [get_channel_by_id] resolves an id to. *)
Definition resolve_channel (channel_id : Z) (w : World) : option ref :=
  match _guild_channels w !! channel_id with
  | Some c => Some c
  | None => data_structures.lru_find channel_id (data_structures.lru_data (_dm_channels w))
  end.

(** ** Sample payloads and worlds *)

Definition registry_2_2 : World :=
  StateRegistryImpl.new_registry
    {| data_structures.lru_size := 2; data_structures.lru_data := [] |}
    {| data_structures.lru_size := 2; data_structures.lru_data := [] |}.

Definition channel_payload (id type : Z) (guild_id : option Z) : ChannelPayload :=
  {| cp_id := id; cp_type := Some type; cp_guild_id := guild_id;
     cp_position := Some 0; cp_permission_overwrites := Some [];
     cp_name := Some "general"; cp_parent_id := None; cp_nsfw := None;
     cp_topic := None; cp_rate_limit_per_user := None; cp_last_message_id := None;
     cp_recipients := None; cp_bitrate := None; cp_user_limit := None;
     cp_icon := None; cp_application_id := None; cp_owner_id := None |}.

Definition guild_payload (id : Z) : GuildPayload :=
  {| gp_id := id; gp_unavailable := None; gp_name := "guild" |}.

Definition emoji_payload (id : Z) : EmojiPayload :=
  {| ep_id := Some id; ep_name := "emoji" |}.

Definition role_payload (id : Z) : RolePayload :=
  {| rp_id := id; rp_name := "role" |}.

Definition user_payload (id : Z) : UserPayload :=
  {| up_id := id; up_username := "user"; up_mfa_enabled := None; up_verified := None |}.

Definition member_payload (id : Z) (roles : list Z) : MemberPayload :=
  {| mp_user := user_payload id; mp_nick := None; mp_roles := roles |}.

Definition message_payload (id channel_id : Z) : MessagePayload :=
  {| msg_id := id; msg_channel_id := channel_id; msg_content := "hello" |}.

Definition reaction_payload (message_id count : Z) : ReactionPayload :=
  {| rx_message_id := message_id; rx_count := count;
     rx_emoji := {| ep_id := None; ep_name := "thumbsup" |} |}.

(** ** Statements about channel payloads *)

(** The [type] of the payload is missing or names no channel class. *)
Definition unknown_kind (p : ChannelPayload) : Prop :=
  cp_type p ≫= channels._channel_implementations = None.

(** [parse_channel] raises the invalid-type error and afterwards the
    channel id of the payload is in no collection of the registry. *)
Definition rejected_and_unregistered (p : ChannelPayload) (guild_obj : option ref)
    (w : World) : Prop :=
  ∃ w', StateRegistryImpl.parse_channel p guild_obj w = (Raise TypeError, w')
        ∧ in_weak_channel_index (cp_id p) w' = false
        ∧ in_dm_channel_index (cp_id p) w' = false
        ∧ in_a_guild_collection (cp_id p) w' = false.

(** ** Statements about guild-owned entities *)

(** The weak emoji index has the emoji id. *)
Definition in_weak_emoji_index (emoji_id : Z) (w : World) : bool :=
  bool_decide (is_Some (_emojis w !! emoji_id)).

(** Some guild object has the emoji id in its emoji collection. *)
Definition in_a_guild_emoji_collection (emoji_id : Z) (w : World) : bool :=
  existsb (λ go, bool_decide (is_Some (Guild_emojis go !! emoji_id))) (guild_objs w).

(** Some guild object has the role id in its role collection. *)
Definition in_a_guild_role_collection (role_id : Z) (w : World) : bool :=
  existsb (λ go, bool_decide (is_Some (Guild_roles go !! role_id))) (guild_objs w).

(** The role list of a member object. *)
Definition roles_of_member (member_obj : ref) (w : World) : option (list (option ref)) :=
  Member_roles <$> member_objs w !! member_obj.

(** ** Properties of methods *)

(** [relates R c]: whatever [c] returns or raises, the world it leaves is
    [R]-related to the world it started in. *)
Definition relates {A} (R : relation World) (c : M A) : Prop :=
  ∀ w, R w (c w).2.

(** The relation of a world to the worlds that keep a property of it. *)
Definition keeps (P : World → Prop) : relation World :=
  λ w w', P w → P w'.

(** A cache within its capacity. *)
Definition within_capacity (capacity : Z) (d : data_structures.LRUDict) : Prop :=
  data_structures.lru_size d = capacity ∧ data_structures.lru_length d ≤ capacity.

(** Both bounded caches of the registry are within their capacities. *)
Definition caches_bounded (message_cache_size user_dm_channel_size : Z) (w : World)
    : Prop :=
  within_capacity message_cache_size (_message_cache w)
  ∧ within_capacity user_dm_channel_size (_dm_channels w).

(** The ids held by the message cache, least recently used first. *)
Definition cached_message_ids (w : World) : list Z :=
  (data_structures.lru_data (_message_cache w)).*1.

(** ** Statements about the bot user *)

(** The [BotUser] instances that exist.  Objects are never taken out of
    their store, so these are the instances ever created. *)
Definition bot_users (w : World) : list User :=
  filter (λ uo, User_class uo = BotUserCls) (user_objs w).

(** The only [BotUser] instance is the one [_user] refers to. *)
Definition bot_user_singleton (w : World) : Prop :=
  (∀ r uo, user_objs w !! r = Some uo → User_class uo = BotUserCls → _user w = Some r)
  ∧ (∀ me, _user w = Some me →
       ∃ uo, user_objs w !! me = Some uo ∧ User_class uo = BotUserCls).

(** The payload goes to the singleton path of [parse_user]: it carries a
    field of the authenticated account, or its id is the stored bot user's. *)
Definition for_bot_user (p : UserPayload) (w : World) : Prop :=
  is_Some (up_mfa_enabled p) ∨ is_Some (up_verified p)
  ∨ ∃ me uo, _user w = Some me ∧ user_objs w !! me = Some uo ∧ User_id uo = up_id p.

(** The singleton stays, and the bot user once set is not replaced. *)
Definition bot_user_kept : relation World :=
  λ w w', (bot_user_singleton w → bot_user_singleton w')
          ∧ (∀ me, _user w = Some me → _user w' = Some me).

(** ** Statements about reactions *)

(** No reaction of the list has the emoji. *)
Definition no_reaction_with (e : Emoji) (l : list ref) (w : World) : Prop :=
  Forall (λ r, ∃ ro, reaction_objs w !! r = Some ro ∧ Reaction_emoji ro ≠ e) l.

(** The reaction is held in the reaction list of some message. *)
Definition listed (w : World) (r : ref) : Prop :=
  ∃ m mo, message_objs w !! m = Some mo ∧ r ∈ Message_reactions mo.

(** Every reaction held in a message's list has a count of at least
    [least]. *)
Definition counts_at_least (least : Z) (w : World) : Prop :=
  ∀ m mo r, message_objs w !! m = Some mo → r ∈ Message_reactions mo →
    ∃ ro, reaction_objs w !! r = Some ro ∧ least ≤ Reaction_count ro.

(** The reaction lists are well formed: a list holds a reaction once, and
    each reaction it holds is an object that points back to the message and
    has a count in [P]. *)
Definition reactions_counted (P : Z → Prop) (w : World) : Prop :=
  ∀ m mo, message_objs w !! m = Some mo →
    NoDup (Message_reactions mo)
    ∧ ∀ r, r ∈ Message_reactions mo →
        ∃ ro, reaction_objs w !! r = Some ro ∧ Reaction_message ro = m
              ∧ P (Reaction_count ro).

(** A reaction that was in a list in [w] and is in none in [w'] has count
    zero in [w']. *)
Definition removed_is_zero (w w' : World) : Prop :=
  ∀ r, listed w r → ¬ listed w' r →
    ∃ ro, reaction_objs w' !! r = Some ro ∧ Reaction_count ro = 0.

(** A reaction object of [w] that is in no list is the same object in [w'],
    still in no list. *)
Definition unlisted_untouched (w w' : World) : Prop :=
  ∀ r ro, ¬ listed w r → reaction_objs w !! r = Some ro →
    reaction_objs w' !! r = Some ro ∧ ¬ listed w' r.

Definition reactions_step (P : Z → Prop) : relation World :=
  λ w w', reactions_counted P w →
          reactions_counted P w' ∧ removed_is_zero w w' ∧ unlisted_untouched w w'.

(** The counts that the reaction methods keep inside [P]: a new reaction
    starts at 1, an increment adds 1, and a decrement that does not reach zero
    leaves the reaction in its list. *)
Definition count_closed (P : Z → Prop) : Prop :=
  P 1 ∧ (∀ c, P c → P (c + 1)) ∧ (∀ c, P c → c - 1 ≠ 0 → P (c - 1)).

(** The count of a reaction payload of the call is in [P]. *)
Definition count_ok (P : Z → Prop) (c : Call) : Prop :=
  match c with
  | parse_reaction p => P (rx_count p)
  | _ => True
  end.

(** The reaction payloads of the call carry a count of at least one. *)
Definition positive_count (c : Call) : Prop := count_ok (λ n, 1 ≤ n) c.

Definition thumbsup : Emoji := EphemeralEmoji None "thumbsup".
Definition heart : Emoji := EphemeralEmoji None "heart".
Definition tada : Emoji := EphemeralEmoji None "tada".

(** A DM channel 9 with message 1 (object 0), which has one thumbs-up
    (reaction 0) and one heart (reaction 1). *)
Definition world_with_reactions : World :=
  after [parse_channel (channel_payload 9 1 None) None;
         parse_message (message_payload 1 9);
         increment_reaction_count 0 thumbsup;
         increment_reaction_count 0 heart] registry_2_2.

(** The reaction store after the loop of [delete_all_reactions] over [l]. *)
Definition zeroed (l : list ref) (rs : list Reaction) : list Reaction :=
  foldl (λ rs r, match rs !! r with
                 | Some ro => <[r := Reaction_with_count 0 ro]> rs
                 | None => rs
                 end) rs l.

(** The member store after the loop of [delete_role] over the members
    [ms]: each member that holds the role loses its first occurrence. *)
Definition stripped (role_obj : ref) (ms : list ref) (st : list Member) : list Member :=
  foldl (λ st m, match st !! m with
                 | Some mo =>
                     match list_remove (Some role_obj) (Member_roles mo) with
                     | Some l => <[m := Member_with_roles l (Member_nick mo) mo]> st
                     | None => st
                     end
                 | None => st
                 end) st ms.

(** ** Statements about channels as objects *)

(** A part of the world is the same after as before. *)
Definition same {A} (part : World → A) : relation World :=
  λ w w', part w' = part w.

(** The class of a channel object. *)
Definition Channel_class (c : Channel) : channels.ChannelClass :=
  match c with
  | GuildTextChannel _ _ _ _ _ _ => channels.GuildTextChannelCls
  | DMChannel _ _ => channels.DMChannelCls
  | GuildVoiceChannel _ _ _ _ => channels.GuildVoiceChannelCls
  | GroupDMChannel _ _ _ _ _ _ => channels.GroupDMChannelCls
  | GuildCategory _ _ => channels.GuildCategoryCls
  | GuildNewsChannel _ _ _ _ _ => channels.GuildNewsChannelCls
  | GuildStoreChannel _ _ => channels.GuildStoreChannelCls
  end.

(** Two states of one channel object: same class, same id, same guild. *)
Definition same_identity (co co' : Channel) : Prop :=
  Channel_class co' = Channel_class co
  ∧ Channel_id co' = Channel_id co
  ∧ Channel_guild_id co' = Channel_guild_id co.

(** Every channel object of [w] is still there in [w'], with its class, id
    and guild. *)
Definition channels_identity_kept : relation World :=
  λ w w', ∀ c co, channel_objs w !! c = Some co →
    ∃ co', channel_objs w' !! c = Some co' ∧ same_identity co co'.

(** Everything but the channel objects and the users is the same: the five
    indexes that do not hold users, and the objects of the other classes. *)
Definition channels_and_users_only : relation World :=
  λ w w', _dm_channels w' = _dm_channels w ∧ _emojis w' = _emojis w
          ∧ _guilds w' = _guilds w ∧ _guild_channels w' = _guild_channels w
          ∧ _message_cache w' = _message_cache w
          ∧ guild_objs w' = guild_objs w ∧ role_objs w' = role_objs w
          ∧ member_objs w' = member_objs w ∧ emoji_objs w' = emoji_objs w
          ∧ message_objs w' = message_objs w ∧ reaction_objs w' = reaction_objs w.

(** ** Statements about roles *)

(** The role that [get_role_by_id] resolves a role id of a guild id to:
    the entry of the role table of the guild cached under the guild id. *)
Definition resolve_role (guild_id role_id : Z) (w : World) : option ref :=
  g ← _guilds w !! guild_id;
  go ← guild_objs w !! g;
  Guild_roles go !! role_id.

(** ** Statements about the calls that touch an index *)






(** ** Statements about the channel indexes *)

(** The keys of the two channel indexes are the ids of the channels they
    map to, the weak index holds channels of guild kinds only, and the DM
    index channels of DM kinds only. *)
Definition channel_index_ok (w : World) : Prop :=
  (∀ k c, _guild_channels w !! k = Some c →
     ∃ co, channel_objs w !! c = Some co ∧ Channel_id co = k
           ∧ channels.is_dm (Channel_class co) = false)
  ∧ (∀ k c, (k, c) ∈ data_structures.lru_data (_dm_channels w) →
       ∃ co, channel_objs w !! c = Some co ∧ Channel_id co = k
             ∧ channels.is_dm (Channel_class co) = true).

(** Every entry of the two channel indexes was there before. *)
Definition index_entries_kept : relation World :=
  λ w w', (∀ k c, _guild_channels w' !! k = Some c → _guild_channels w !! k = Some c)
          ∧ (∀ e, e ∈ data_structures.lru_data (_dm_channels w') →
                  e ∈ data_structures.lru_data (_dm_channels w)).

(** ** The release of objects *)


(** * Theorems *)

(** ** Unfolding the monad *)

Ltac unfold_M :=
  unfold mbind, mret, M_bind, M_ret, raise, gets, modify, deref, assign, alloc,
    subscript, not_None, StateRegistryImpl.lift in *.

Lemma set_dm_channels_same w :
  set_dm_channels (λ _, _dm_channels w) w = w.
Proof. by destruct w. Qed.

Lemma set_message_cache_same w :
  set_message_cache (λ _, _message_cache w) w = w.
Proof. by destruct w. Qed.

(** ** The bounded cache *)

Section lru.
Import data_structures.

Lemma lru_find_without_eq k data : lru_find k (lru_without k data) = None.
Proof.
  induction data as [|[k' v] data IH]; [done|].
  unfold lru_without in *. rewrite filter_cons. simpl.
  destruct (decide (k' ≠ k)) as [Hne|Heq]; simpl; [|done].
  by rewrite decide_False.
Qed.

Lemma lru_find_app k data1 data2 :
  lru_find k (data1 ++ data2) =
    match lru_find k data1 with Some v => Some v | None => lru_find k data2 end.
Proof.
  induction data1 as [|[k' v] data1 IH]; [done|]. simpl.
  by destruct (decide (k' = k)).
Qed.

Lemma lru_find_refreshed k v data :
  lru_find k (lru_without k data ++ [(k, v)]) = Some v.
Proof.
  rewrite lru_find_app, lru_find_without_eq. simpl. by rewrite decide_True.
Qed.

Lemma get_absent k d :
  lru_find k (lru_data d) = None → get k d = (None, d).
Proof. intros H. unfold get, getitem. by rewrite H. Qed.

Lemma get_present k v d :
  lru_find k (lru_data d) = Some v →
  get k d = (Some v, {| lru_size := lru_size d;
                        lru_data := lru_without k (lru_data d) ++ [(k, v)] |}).
Proof. intros H. unfold get, getitem. by rewrite H. Qed.
End lru.

(** [get_channel_by_id] returns what [resolve_channel] says, and a channel
    it found is found again right after. *)
Lemma get_channel_by_id_resolve channel_id w :
  ∃ w', StateRegistryImpl.get_channel_by_id channel_id w = (Ok (resolve_channel channel_id w), w')
        ∧ resolve_channel channel_id w' = resolve_channel channel_id w
        ∧ channel_objs w' = channel_objs w
        ∧ message_objs w' = message_objs w
        ∧ (resolve_channel channel_id w = None → w' = w).
Proof.
  unfold StateRegistryImpl.get_channel_by_id, StateRegistryImpl.on_dm_channels,
    resolve_channel.
  unfold_M.
  destruct (_guild_channels w !! channel_id) as [c|] eqn:Hg.
  - eexists; split; [done|]. rewrite Hg. done.
  - destruct (data_structures.lru_find channel_id (data_structures.lru_data (_dm_channels w)))
      as [c|] eqn:Hd.
    + rewrite (get_present _ _ _ Hd). eexists; split; [done|]. simpl.
      rewrite Hg, lru_find_refreshed. done.
    + rewrite (get_absent _ _ Hd). eexists; split; [done|].
      rewrite set_dm_channels_same, Hg, Hd. done.
Qed.

(** C9: a message whose channel id resolves to no cached channel is not
    parsed: [parse_message] returns [None], raises nothing and leaves the
    message cache and the whole world as they were. *)
Theorem parse_message_unresolved_channel (w : World) (p : MessagePayload) :
  (StateRegistryImpl.get_channel_by_id (msg_channel_id p) w).1 = Ok None →
  StateRegistryImpl.parse_message p w = (Ok None, w).
Proof.
  intros Hget. unfold StateRegistryImpl.parse_message. unfold_M.
  destruct (get_channel_by_id_resolve (msg_channel_id p) w) as (w' & Heq & _ & _ & _ & Hsame).
  rewrite Heq in Hget |- *. simpl in Hget.
  destruct (resolve_channel (msg_channel_id p) w); [discriminate|].
  by rewrite Hsame.
Qed.

Lemma parse_message_unresolved_channel_witness :
  let w := after [parse_guild (guild_payload 6);
                  parse_channel (channel_payload 1 0 None) (Some 0%nat);
                  parse_channel (channel_payload 2 1 None) None;
                  parse_message (message_payload 40 1)] registry_2_2 in
  StateRegistryImpl.parse_message (message_payload 41 9) w = (Ok None, w).
Proof.
  intros w. apply (parse_message_unresolved_channel w (message_payload 41 9)).
  vm_compute. reflexivity.
Defined.

Lemma Channel_set_last_message_id_spec v co :
  Channel_has_last_message_id co = true →
  ∃ co', Channel_set_last_message_id v co = Some co'
         ∧ Channel_last_message_id co' = v
         ∧ Channel_id co' = Channel_id co
         ∧ Channel_has_last_message_id co' = true.
Proof. destruct co; simpl; try discriminate; eauto. Qed.

Lemma Channel_set_last_message_id_Some v co co' :
  Channel_set_last_message_id v co = Some co' →
  Channel_last_message_id co' = v ∧ Channel_id co' = Channel_id co.
Proof. destruct co; simpl; intros [= <-]; done. Qed.

(** C10: when the channel id of a message payload resolves to a cached
    channel, every successful [parse_message] leaves that channel with
    [last_message_id] equal to the id of the parsed message, whatever the
    field held before; and the parse does succeed on every channel class that
    has the field. *)
Theorem parse_message_sets_last_message_id
    (w : World) (p : MessagePayload) (c : ref) (co : Channel) :
  (StateRegistryImpl.get_channel_by_id (msg_channel_id p) w).1 = Ok (Some c) →
  channel_objs w !! c = Some co →
  (∀ m w', StateRegistryImpl.parse_message p w = (Ok (Some m), w') →
     ∃ co', channel_objs w' !! c = Some co'
            ∧ Channel_last_message_id co' = Some (msg_id p)
            ∧ Channel_id co' = Channel_id co)
  ∧ (Channel_has_last_message_id co = true →
     ∃ m w', StateRegistryImpl.parse_message p w = (Ok (Some m), w')
             ∧ message_objs w' !! m
               = Some {| Message_id := msg_id p; Message_channel_id := msg_channel_id p;
                         Message_content := msg_content p; Message_reactions := [] |}).
Proof.
  intros Hget Hco.
  destruct (get_channel_by_id_resolve (msg_channel_id p) w)
    as (w1 & Heq1 & Hres1 & Hch1 & Hms1 & _).
  rewrite Heq1 in Hget. simpl in Hget. injection Hget as Hres.
  pose (mo := {| Message_id := msg_id p; Message_channel_id := msg_channel_id p;
                 Message_content := msg_content p; Message_reactions := [] |}).
  pose (w2 := set_message_objs (λ l, l ++ [mo]) w1).
  destruct (get_channel_by_id_resolve (msg_channel_id p) w2)
    as (w3 & Heq3 & _ & Hch3 & Hms3 & _).
  assert (Hres2 : resolve_channel (msg_channel_id p) w2 = Some c).
  { rewrite <- Hres, <- Hres1. by destruct w1. }
  rewrite Hres2 in Heq3.
  assert (Hco3 : channel_objs w3 !! c = Some co).
  { rewrite Hch3. unfold w2. destruct w1; simpl in *. by rewrite Hch1. }
  assert (Hrun : StateRegistryImpl.parse_message p w =
    match Channel_set_last_message_id (Some (msg_id p)) co with
    | Some co' =>
        (Ok (Some (length (message_objs w1))),
         set_message_cache
           (data_structures.setitem (msg_id p) (length (message_objs w1)))
           (set_channel_objs (λ l, <[c:=co']> l) w3))
    | None => (Raise AttributeError, w3)
    end).
  { unfold StateRegistryImpl.parse_message, messages.channel, messages.Message__init__.
    unfold_M. rewrite Heq1, Hres. fold mo. fold w2. simpl.
    replace (message_objs w2 !! length (message_objs w1)) with (Some mo).
    2:{ unfold w2. destruct w1; simpl. by rewrite lookup_app_r, Nat.sub_diag by lia. }
    simpl. rewrite Heq3. unfold_M. rewrite Hco3.
    by destruct (Channel_set_last_message_id (Some (msg_id p)) co). }
  split.
  - intros m w' Hp. rewrite Hrun in Hp.
    destruct (Channel_set_last_message_id (Some (msg_id p)) co) as [co'|] eqn:Hset;
      [|discriminate].
    injection Hp as _ <-. exists co'. simpl.
    destruct (Channel_set_last_message_id_Some _ _ _ Hset) as [-> ->].
    split; [|done]. apply list_lookup_insert_eq. by eapply lookup_lt_Some.
  - intros Hslot. rewrite Hrun.
    destruct (Channel_set_last_message_id_spec (Some (msg_id p)) co Hslot)
      as (co' & -> & _).
    do 2 eexists. split; [done|]. simpl. rewrite Hms3. unfold w2.
    destruct w1; simpl. by rewrite lookup_app_r, Nat.sub_diag by lia.
Qed.

Lemma parse_message_sets_last_message_id_witness :
  let w := after [parse_guild (guild_payload 6);
                  parse_channel (channel_payload 1 0 None) (Some 0%nat);
                  parse_message (message_payload 50 1)] registry_2_2 in
  ∃ m w' co',
    StateRegistryImpl.parse_message (message_payload 41 1) w = (Ok (Some m), w')
    ∧ channel_objs w' !! 0%nat = Some co'
    ∧ Channel_last_message_id co' = Some 41.
Proof.
  intros w.
  destruct (parse_message_sets_last_message_id w (message_payload 41 1) 0%nat
              (GuildTextChannel 1
                 {| gc_guild_id := 6; gc_position := 0; gc_permission_overwrites := [];
                    gc_name := "general"; gc_parent_id := None |}
                 None 0 (Some 50) false))
    as [Hany Hsucc]; [vm_compute; reflexivity | vm_compute; reflexivity |].
  destruct (Hsucc eq_refl) as (m & w' & Hp & _).
  destruct (Hany m w' Hp) as (co' & Hco' & Hlast & _).
  exists m, w', co'. done.
Defined.

(** ** Unknown channel kinds *)

(** A payload of unknown kind whose id is already cached is not rejected:
    the cached channel (here a DM channel) is updated from it and returned,
    and stays registered. *)
Lemma parse_channel_unknown_kind_cached :
  let w := after [parse_channel (channel_payload 7 1 None) None] registry_2_2 in
  unknown_kind (channel_payload 7 99 None)
  ∧ ¬ rejected_and_unregistered (channel_payload 7 99 None) None w.
Proof.
  split; [reflexivity|].
  intros (w' & Hp & _). vm_compute in Hp. discriminate Hp.
Qed.

(** C3, amended: a channel payload of unknown kind whose id is not cached
    makes [parse_channel] raise the invalid-type error ([TypeError] in the
    source), and the world is left exactly as it was, so that the id is in
    neither channel index afterwards. *)
Theorem parse_channel_unknown_kind_uncached
    (w : World) (p : ChannelPayload) (guild_obj : option ref) :
  unknown_kind p →
  (StateRegistryImpl.get_channel_by_id (cp_id p) w).1 = Ok None →
  (∀ g, guild_obj = Some g → is_Some (guild_objs w !! g)) →
  StateRegistryImpl.parse_channel p guild_obj w = (Raise TypeError, w)
  ∧ in_weak_channel_index (cp_id p) w = false
  ∧ in_dm_channel_index (cp_id p) w = false.
Proof.
  intros Hkind Hget Hguild.
  destruct (get_channel_by_id_resolve (cp_id p) w) as (w' & Heq & _ & _ & _ & Hsame).
  rewrite Heq in Hget. simpl in Hget. injection Hget as Hres.
  specialize (Hsame Hres). subst w'.
  split.
  - unfold StateRegistryImpl.parse_channel, channels.parse_channel. unfold_M.
    rewrite Heq, Hres.
    unfold unknown_kind in Hkind.
    destruct guild_obj as [g|].
    + destruct (Hguild g eq_refl) as [go ->].
      destruct (cp_type p) as [t|] eqn:Ht; simpl in *; rewrite Ht; simpl;
        [by rewrite Hkind|done].
    + destruct (cp_type p) as [t|] eqn:Ht; simpl in *; [by rewrite Hkind|done].
  - unfold resolve_channel in Hres.
    unfold in_weak_channel_index, in_dm_channel_index, data_structures.contains.
    destruct (_guild_channels w !! cp_id p); [discriminate|].
    rewrite Hres. split; apply bool_decide_eq_false; by intros [? ?].
Qed.

Lemma parse_channel_unknown_kind_uncached_witness :
  let w := after [parse_guild (guild_payload 6);
                  parse_channel (channel_payload 1 0 None) (Some 0%nat);
                  parse_channel (channel_payload 7 1 None) None] registry_2_2 in
  StateRegistryImpl.parse_channel (channel_payload 8 99 None) (Some 0%nat) w
  = (Raise TypeError, w).
Proof.
  intros w.
  refine (proj1 (parse_channel_unknown_kind_uncached w (channel_payload 8 99 None)
                   (Some 0%nat) _ _ _)).
  - reflexivity.
  - vm_compute. reflexivity.
  - intros g [= <-]. vm_compute. eauto.
Defined.

(** ** Guild channels in the two views *)

(** C1: [parse_channel] on a guild-text payload whose guild is not cached
    writes the channel into the weak channel index, then fails on the guild
    ([AttributeError] on [None]) before the guild's collection is written:
    the channel is left in exactly one of the two views.  With the guild
    cached the same payload lands in both; and [parse_emoji], which writes
    the guild's collection first, leaves an emoji of an uncached guild in
    neither view. *)
Theorem parse_channel_uncached_guild_one_view :
  let w := after [parse_guild (guild_payload 6)] registry_2_2 in
  (∃ w', StateRegistryImpl.parse_channel (channel_payload 1 0 (Some 5)) None w
         = (Raise AttributeError, w')
         ∧ in_weak_channel_index 1 w = false
         ∧ in_weak_channel_index 1 w' = true
         ∧ in_a_guild_collection 1 w' = false)
  ∧ (∃ c w', StateRegistryImpl.parse_channel (channel_payload 1 0 (Some 6)) None w
             = (Ok c, w')
             ∧ in_weak_channel_index 1 w' = true
             ∧ in_a_guild_collection 1 w' = true)
  ∧ (∃ w', StateRegistryImpl.parse_emoji (emoji_payload 5) (Some 0%nat)
             (after [delete_guild 0] w)
           = (Raise AttributeError, w')
           ∧ in_weak_emoji_index 5 w' = false
           ∧ in_a_guild_emoji_collection 5 w' = false).
Proof.
  intros w. repeat apply conj.
  - eexists. split; [vm_compute; reflexivity|].
    repeat apply conj; vm_compute; reflexivity.
  - do 2 eexists. split; [vm_compute; reflexivity|].
    repeat apply conj; vm_compute; reflexivity.
  - eexists. split; [vm_compute; reflexivity|].
    repeat apply conj; vm_compute; reflexivity.
Qed.

(** ** Deleting a role *)

(** C2: [delete_role] strips the role from the members when the guild's
    role table still has it, but when the table does not (here the role was
    deleted once and a member was handed the stale role again) the
    [KeyError] of the first step is suppressed together with the member
    loop: the call returns normally, changes nothing, and the member keeps
    the role. *)
Theorem delete_role_skips_members_without_table_entry :
  let w := after [parse_guild (guild_payload 1);
                  parse_role (role_payload 7) 0%nat;
                  parse_member (member_payload 10 [7]) 0%nat;
                  parse_member (member_payload 11 []) 0%nat] registry_2_2 in
  let w1 := after [delete_role 0] w in
  let w2 := after [set_roles_for_member [Some 0%nat] 0] w1 in
  roles_of_member 0 w = Some [Some 0%nat]
  ∧ in_a_guild_role_collection 7 w = true
  ∧ roles_of_member 0 w1 = Some []
  ∧ roles_of_member 1 w1 = roles_of_member 1 w
  ∧ in_a_guild_role_collection 7 w1 = false
  ∧ roles_of_member 0 w2 = Some [Some 0%nat]
  ∧ StateRegistryImpl.delete_role 0 w2 = (Ok tt, w2).
Proof. intros w w1 w2. repeat apply conj; vm_compute; reflexivity. Qed.

(** ** Deleting what is absent *)

(** C7: deleting what is absent is not a no-op for an emoji and for a role
    whose guild is no longer cached.  After everything of a guild and the
    guild itself have been deleted, [get_guild_by_id] finds no guild, and
    [delete_emoji] and [delete_role] on the emoji and the role, which are in
    no collection, raise [AttributeError]: [KeyError] alone is suppressed,
    and the guild that they take from the [guild] property is [None].  The
    registry is not changed by the failing call.  The other four kinds are
    no-ops on the same state: [delete_member], which uses the guild object
    that the member holds, [delete_channel], [delete_guild] and
    [delete_message].  Modelled from the spec: the [guild] property of
    [GuildEmoji] and [Role], which are constructed from a guild id
    ([emojis.parse_emoji(self, payload, guild_id)], [roles.Role(self,
    payload, guild_obj.id)]) and so find their guild through
    [get_guild_by_id], as [GuildChannel.guild] in [channels.py] does. *)
Theorem delete_absent_raises_without_guild :
  let w := after [parse_guild (guild_payload 1);
                  parse_emoji (emoji_payload 5) (Some 0%nat);
                  parse_role (role_payload 7) 0%nat;
                  parse_member (member_payload 10 []) 0%nat;
                  parse_channel (channel_payload 3 0 None) (Some 0%nat);
                  parse_message (message_payload 9 3);
                  delete_emoji 0; delete_role 0; delete_member 0; delete_message 0;
                  delete_channel 0; delete_guild 0] registry_2_2 in
  in_weak_emoji_index 5 w = false
  ∧ in_a_guild_emoji_collection 5 w = false
  ∧ in_a_guild_role_collection 7 w = false
  ∧ _guilds w = ∅
  ∧ guild_objs w = [{| Guild_id := 1; Guild_unavailable := false; Guild_name := "guild";
                       Guild_channels := ∅; Guild_roles := ∅; Guild_members := ∅;
                       Guild_emojis := ∅ |}]
  ∧ StateRegistryImpl.get_guild_by_id 1 w = (Ok None, w)
  ∧ StateRegistryImpl.delete_emoji 0 w = (Raise AttributeError, w)
  ∧ StateRegistryImpl.delete_role 0 w = (Raise AttributeError, w)
  ∧ StateRegistryImpl.delete_member 0 w = (Ok tt, w)
  ∧ StateRegistryImpl.delete_channel 0 w = (Ok tt, w)
  ∧ StateRegistryImpl.delete_guild 0 w = (Ok tt, w)
  ∧ StateRegistryImpl.delete_message 0 w = (Ok tt, w).
Proof. intros w. repeat apply conj; vm_compute; reflexivity. Qed.

(** ** Relating the world before and after a method

    For a preorder [R], [relates R c] follows the structure of [c]. *)

Section relates.
Context (R : relation World) `{!PreOrder R}.

Lemma relates_ret {A} (a : A) : relates R (mret a).
Proof. intros w. simpl. reflexivity. Qed.

Lemma relates_raise {A} e : relates R (raise (A:=A) e).
Proof. intros w. simpl. reflexivity. Qed.

Lemma relates_gets {A} (f : World → A) : relates R (gets f).
Proof. intros w. simpl. reflexivity. Qed.

Lemma relates_bind {A B} (c : M A) (f : A → M B) :
  relates R c → (∀ a, relates R (f a)) → relates R (c ≫= f).
Proof.
  intros Hc Hf w. unfold mbind, M_bind. specialize (Hc w).
  destruct (c w) as [[a|e] w']; simpl in *; [|done].
  etrans; [exact Hc|apply Hf].
Qed.

Lemma relates_modify (f : World → World) :
  (∀ w, R w (f w)) → relates R (modify f).
Proof. intros Hf w. apply Hf. Qed.

Lemma relates_deref {A} (store : World → list A) r : relates R (deref store r).
Proof. intros w. unfold deref. destruct (store w !! r); simpl; reflexivity. Qed.

Lemma relates_assign {A} (set : (list A → list A) → World → World) r o :
  (∀ w, R w (set (λ l, <[r:=o]> l) w)) → relates R (assign set r o).
Proof. intros H. by apply relates_modify. Qed.

Lemma relates_alloc {A} (store : World → list A) set o :
  (∀ w, R w (set (λ l, l ++ [o]) w)) → relates R (alloc store set o).
Proof. intros H w. apply H. Qed.

Lemma relates_subscript {A} (o : option A) : relates R (subscript o).
Proof. destruct o; [apply relates_ret|apply relates_raise]. Qed.

Lemma relates_not_None {A} (o : option A) : relates R (not_None o).
Proof. destruct o; [apply relates_ret|apply relates_raise]. Qed.

Lemma relates_lift {A} (r : Result A) : relates R (StateRegistryImpl.lift r).
Proof. destruct r; [apply relates_ret|apply relates_raise]. Qed.

Lemma relates_suppress e c : relates R c → relates R (suppress e c).
Proof.
  intros Hc w. unfold suppress. specialize (Hc w).
  destruct (c w) as [[a|e'] w']; simpl in *; [done|].
  by destruct (decide (e' = e)).
Qed.

Lemma relates_mapM {A B} (f : A → M B) l :
  (∀ a, relates R (f a)) → relates R (mapM f l).
Proof.
  intros Hf. induction l as [|x l IH]; simpl; [apply relates_ret|].
  apply relates_bind; [done|]. intros y.
  apply relates_bind; [done|]. intros ys. apply relates_ret.
Qed.

Lemma relates_forM_ {A} (f : A → M unit) l :
  (∀ a, relates R (f a)) → relates R (forM_ f l).
Proof.
  intros Hf. induction l as [|x l IH]; simpl; [apply relates_ret|].
  by apply relates_bind.
Qed.

Lemma relates_on_dm_channels {A} (op : data_structures.LRUDict → A * _) :
  (∀ w, R w (set_dm_channels (λ _, (op (_dm_channels w)).2) w)) →
  relates R (StateRegistryImpl.on_dm_channels op).
Proof.
  intros H w. unfold StateRegistryImpl.on_dm_channels. specialize (H w).
  by destruct (op (_dm_channels w)).
Qed.

Lemma relates_on_message_cache {A} (op : data_structures.LRUDict → A * _) :
  (∀ w, R w (set_message_cache (λ _, (op (_message_cache w)).2) w)) →
  relates R (StateRegistryImpl.on_message_cache op).
Proof.
  intros H w. unfold StateRegistryImpl.on_message_cache. specialize (H w).
  by destruct (op (_message_cache w)).
Qed.

Lemma relates_first_with_emoji e l :
  relates R (StateRegistryImpl.first_with_emoji e l).
Proof.
  induction l as [|r l IH]; simpl; [apply relates_ret|].
  apply relates_bind; [apply relates_deref|]. intros ro.
  destruct (decide _); [apply relates_ret|done].
Qed.

Lemma relates_first_to_delete e l :
  relates R (StateRegistryImpl.first_to_delete e l).
Proof.
  induction l as [|r l IH]; simpl; [apply relates_ret|].
  apply relates_bind; [apply relates_deref|]. intros ro.
  destruct (decide _); [|done].
  apply relates_bind; [apply relates_deref|]. intros m.
  destruct (decide _); [apply relates_ret|done].
Qed.

Lemma relates_outcome {A} (c : M A) w : R w (c w).2 → R w (outcome (c w)).2.
Proof. by destruct (c w) as [[a|e] w']. Qed.
End relates.

(** One structural step on a goal [relates R c]; the goals that remain are
    about single writes to the world. *)
Ltac relates_step :=
  lazymatch goal with
  | |- PreOrder _ => apply _
  | |- relates _ (mbind _ _) => apply relates_bind; [..|intros ?]
  | |- relates _ (StateRegistryImpl.first_with_emoji _ _) =>
      apply relates_first_with_emoji
  | |- relates _ (StateRegistryImpl.first_to_delete _ _) =>
      apply relates_first_to_delete
  | |- relates _ (mret _) => apply relates_ret
  | |- relates _ (raise _) => apply relates_raise
  | |- relates _ (gets _) => apply relates_gets
  | |- relates _ (deref _ _) => apply relates_deref
  | |- relates _ (subscript _) => apply relates_subscript
  | |- relates _ (not_None _) => apply relates_not_None
  | |- relates _ (StateRegistryImpl.lift _) => apply relates_lift
  | |- relates _ (suppress _ _) => apply relates_suppress
  | |- relates _ (mapM _ _) => apply relates_mapM; [..|intros ?]
  | |- relates _ (forM_ _ _) => apply relates_forM_; [..|intros ?]
  | |- relates _ (modify _) => apply relates_modify; intros ?
  | |- relates _ (assign _ _ _) => apply relates_assign; intros ?
  | |- relates _ (alloc _ _ _) => apply relates_alloc; intros ?
  | |- relates _ (channels.set_channel _ _) => apply relates_assign; intros ?
  | |- relates _ (StateRegistryImpl.on_dm_channels _) =>
      apply relates_on_dm_channels; intros ?
  | |- relates _ (StateRegistryImpl.on_message_cache _) =>
      apply relates_on_message_cache; intros ?
  | |- relates _ (match ?x with _ => _ end) => destruct x
  | |- relates _ (let '(_, _) := ?x in _) => destruct x
  end.

Ltac head_of t :=
  lazymatch t with
  | ?f _ => head_of f
  | _ => t
  end.

(** Walks through a method: a call already known to satisfy the goal is
    closed by [known], a write to the world is left to [write]. *)
Ltac relates_go known write :=
  repeat first
    [ progress cbn [state_registry.parse_user state_registry.get_guild_by_id
                    state_registry.get_channel_by_id state_registry.get_role_by_id
                    StateRegistryImpl.self]
    | solve [known]
    | relates_step
    | solve [write]
    | lazymatch goal with
      | |- relates _ ?c => let h := head_of c in progress unfold h
      end ].

#[global] Instance keeps_preorder P : PreOrder (keeps P).
Proof. split; unfold keeps; [intros w; tauto|intros w1 w2 w3; tauto]. Qed.

(** The method behind a call. *)
Lemma call_relates (R : relation World) c :
  match c with
  | increment_reaction_count m e =>
      relates R (StateRegistryImpl.increment_reaction_count m e)
  | decrement_reaction_count m e =>
      relates R (StateRegistryImpl.decrement_reaction_count m e)
  | delete_channel c => relates R (StateRegistryImpl.delete_channel c)
  | delete_emoji e => relates R (StateRegistryImpl.delete_emoji e)
  | delete_guild g => relates R (StateRegistryImpl.delete_guild g)
  | delete_message m => relates R (StateRegistryImpl.delete_message m)
  | delete_member m => relates R (StateRegistryImpl.delete_member m)
  | delete_reaction m e => relates R (StateRegistryImpl.delete_reaction m e)
  | delete_all_reactions m => relates R (StateRegistryImpl.delete_all_reactions m)
  | delete_role r => relates R (StateRegistryImpl.delete_role r)
  | get_channel_by_id i => relates R (StateRegistryImpl.get_channel_by_id i)
  | get_emoji_by_id i => relates R (StateRegistryImpl.get_emoji_by_id i)
  | get_guild_by_id i => relates R (StateRegistryImpl.get_guild_by_id i)
  | get_member_by_id u g => relates R (StateRegistryImpl.get_member_by_id u g)
  | get_message_by_id i => relates R (StateRegistryImpl.get_message_by_id i)
  | get_role_by_id g r => relates R (StateRegistryImpl.get_role_by_id g r)
  | get_user_by_id i => relates R (StateRegistryImpl.get_user_by_id i)
  | parse_bot_user p => relates R (StateRegistryImpl.parse_bot_user p)
  | parse_channel p g => relates R (StateRegistryImpl.parse_channel p g)
  | parse_emoji p g => relates R (StateRegistryImpl.parse_emoji p g)
  | parse_guild p => relates R (StateRegistryImpl.parse_guild p)
  | parse_member p g => relates R (StateRegistryImpl.parse_member p g)
  | parse_message p => relates R (StateRegistryImpl.parse_message p)
  | parse_reaction p => relates R (StateRegistryImpl.parse_reaction p)
  | parse_role p g => relates R (StateRegistryImpl.parse_role p g)
  | parse_user p => relates R (StateRegistryImpl.parse_user p)
  | set_guild_unavailability g b =>
      relates R (StateRegistryImpl.set_guild_unavailability g b)
  | set_roles_for_member rs m =>
      relates R (StateRegistryImpl.set_roles_for_member rs m)
  end →
  ∀ w, R w (call c w).2.
Proof.
  intros H w. destruct c; unfold call;
    match goal with |- R w (outcome (?m w)).2 => specialize (H w); by destruct (m w) as [[?|?] ?] end.
Qed.

(** ** C4: the bounded caches *)

Section lru_bounds.
Import data_structures.

Lemma lru_without_length k data : (length (lru_without k data) ≤ length data)%nat.
Proof. apply length_filter. Qed.

Lemma lru_without_length_found k v data :
  lru_find k data = Some v → (length (lru_without k data) < length data)%nat.
Proof.
  induction data as [|[k' v'] data IH]; [done|]. simpl.
  unfold lru_without in *. rewrite filter_cons. simpl.
  destruct (decide (k' = k)) as [->|Hne].
  - intros _. rewrite decide_False by (intros H; by apply H).
    pose proof (length_filter (λ e : Z * ref, e.1 ≠ k) data). lia.
  - intros H. rewrite decide_True by done. simpl. specialize (IH H). lia.
Qed.

Lemma length_tail {A} (l : list A) : length (tail l) = pred (length l).
Proof. by destruct l. Qed.

Lemma within_capacity_setitem cap k v d :
  within_capacity cap d → within_capacity cap (setitem k v d).
Proof.
  intros [Hsize Hlen]. split; [done|].
  unfold lru_length, setitem in *. simpl.
  pose proof (lru_without_length k (lru_data d)).
  destruct (decide _) as [Hover|Hfit].
  - rewrite length_tail, length_app. simpl. lia.
  - lia.
Qed.

Lemma within_capacity_getitem cap k d :
  within_capacity cap d → within_capacity cap (getitem k d).2.
Proof.
  intros [Hsize Hlen]. unfold getitem.
  destruct (lru_find k (lru_data d)) as [v|] eqn:Hfind; [|done].
  split; [done|]. unfold lru_length in *. simpl.
  pose proof (lru_without_length_found _ _ _ Hfind).
  rewrite length_app. simpl. lia.
Qed.

Lemma get_snd k d : (get k d).2 = (getitem k d).2.
Proof. unfold get. by destruct (getitem k d) as [[v|e] d']. Qed.

Lemma within_capacity_get cap k d :
  within_capacity cap d → within_capacity cap (get k d).2.
Proof. rewrite get_snd. apply within_capacity_getitem. Qed.

Lemma within_capacity_delitem cap k d :
  within_capacity cap d → within_capacity cap (delitem k d).
Proof.
  intros [Hsize Hlen]. split; [done|]. unfold lru_length, delitem in *. simpl.
  pose proof (lru_without_length k (lru_data d)). lia.
Qed.
End lru_bounds.

Ltac caches_write :=
  unfold keeps, caches_bounded; simpl; intros [? ?];
  first [ done
        | split; [first [done | apply within_capacity_setitem
                        | apply within_capacity_get | apply within_capacity_getitem
                        | apply within_capacity_delitem]; done | done]
        | split; [done | first [apply within_capacity_setitem
                        | apply within_capacity_get | apply within_capacity_getitem
                        | apply within_capacity_delitem]; done] ].

Lemma call_keeps_caches_bounded mc dc c w :
  caches_bounded mc dc w → caches_bounded mc dc (call c w).2.
Proof.
  revert w. apply (call_relates (keeps (caches_bounded mc dc))).
  destruct c; relates_go fail caches_write.
Qed.

Lemma after_keeps (P : World → Prop) cs w :
  (∀ c w, P w → P (call c w).2) → P w → P (after cs w).
Proof.
  intros Hstep. revert w. induction cs as [|c cs IH]; intros w Hw; [done|].
  simpl. apply IH, Hstep, Hw.
Qed.

Lemma init_caches_bounded mc dc w0 :
  StateRegistryImpl.__init__ mc dc = Ok w0 → caches_bounded mc dc w0.
Proof.
  unfold StateRegistryImpl.__init__, data_structures.LRUDict_init.
  destruct (decide (dc <= 0)); [done|]. destruct (decide (mc <= 0)); [done|].
  intros [= <-]. unfold caches_bounded, within_capacity, data_structures.lru_length.
  simpl. lia.
Qed.

Section lru_order.
Import data_structures.

Lemma lru_without_absent k data :
  lru_find k data = None → lru_without k data = data.
Proof.
  induction data as [|[k' v] data IH]; [done|]. simpl.
  unfold lru_without in *. rewrite filter_cons. simpl.
  destruct (decide (k' = k)) as [->|Hne]; [done|].
  intros H. rewrite decide_True by done. by rewrite IH.
Qed.

(** Inserting a new key into a full cache drops the head, the least
    recently used entry, and nothing else; the new entry is the most
    recently used. *)
Lemma setitem_full k v d :
  lru_find k (lru_data d) = None → lru_length d = lru_size d → 0 < lru_size d →
  lru_data (setitem k v d) = tail (lru_data d) ++ [(k, v)].
Proof.
  unfold lru_length, setitem. intros Hk Hlen Hpos. simpl.
  rewrite (lru_without_absent _ _ Hk), length_app. simpl.
  rewrite decide_True by lia.
  destruct (lru_data d); [simpl in *; lia|done].
Qed.

(** Below the capacity, or for a key that is already there, nothing is
    evicted: the key moves to the most recent end with its new value and
    the other entries keep their order. *)
Lemma setitem_fits k v d :
  (lru_length d < lru_size d ∨ (is_Some (lru_find k (lru_data d))
                                ∧ lru_length d ≤ lru_size d)) →
  lru_data (setitem k v d) = lru_without k (lru_data d) ++ [(k, v)].
Proof.
  unfold lru_length, setitem. intros H. simpl.
  rewrite decide_False; [done|]. rewrite length_app. simpl.
  destruct H as [H|[[v0 Hf] H]].
  - pose proof (lru_without_length k (lru_data d)). lia.
  - pose proof (lru_without_length_found _ _ _ Hf). lia.
Qed.
End lru_order.

(** C4: in every reachable state of a registry both bounded caches hold at
    most their configured capacity.  Inserting a new key into a full cache
    evicts exactly the least recently used entry; an insertion that fits, and
    every successful lookup, moves the key to the most recent end and keeps
    the order of the rest.  A message cache of capacity 2 that receives
    messages 1, 2, 3 retains 2 and 3; when 1 is looked up before 3 arrives it
    retains 1 and 3. *)
Theorem caches_bounded_lru_eviction (mc dc : Z) (w : World) :
  reachable mc dc w →
  (data_structures.lru_length (_message_cache w) ≤ mc
   ∧ data_structures.lru_length (_dm_channels w) ≤ dc)
  ∧ (∀ d k v,
       data_structures.lru_find k (data_structures.lru_data d) = None →
       data_structures.lru_length d = data_structures.lru_size d →
       0 < data_structures.lru_size d →
       data_structures.lru_data (data_structures.setitem k v d)
       = tail (data_structures.lru_data d) ++ [(k, v)]
       ∧ data_structures.least_recently_used d = head (data_structures.lru_data d))
  ∧ (∀ d k v,
       (data_structures.lru_length d < data_structures.lru_size d
        ∨ (is_Some (data_structures.lru_find k (data_structures.lru_data d))
           ∧ data_structures.lru_length d ≤ data_structures.lru_size d)) →
       data_structures.lru_data (data_structures.setitem k v d)
       = data_structures.lru_without k (data_structures.lru_data d) ++ [(k, v)])
  ∧ (∀ d k v,
       data_structures.lru_find k (data_structures.lru_data d) = Some v →
       ∃ d', data_structures.get k d = (Some v, d')
             ∧ data_structures.lru_data d'
               = data_structures.lru_without k (data_structures.lru_data d) ++ [(k, v)])
  ∧ (let w1 := after [parse_channel (channel_payload 9 1 None) None] registry_2_2 in
     cached_message_ids
       (after [parse_message (message_payload 1 9); parse_message (message_payload 2 9);
               parse_message (message_payload 3 9)] w1) = [2; 3]
     ∧ cached_message_ids
         (after [parse_message (message_payload 1 9); parse_message (message_payload 2 9);
                 get_message_by_id 1;
                 parse_message (message_payload 3 9)] w1) = [1; 3]).
Proof.
  intros (w0 & cs & Hinit & ->).
  repeat apply conj.
  - pose proof (after_keeps (caches_bounded mc dc) cs w0
                  (call_keeps_caches_bounded mc dc) (init_caches_bounded _ _ _ Hinit))
      as [[_ H] _]. exact H.
  - pose proof (after_keeps (caches_bounded mc dc) cs w0
                  (call_keeps_caches_bounded mc dc) (init_caches_bounded _ _ _ Hinit))
      as [_ [_ H]]. exact H.
  - intros d k v Hk Hfull Hpos. split; [by apply setitem_full|done].
  - intros d k v. apply setitem_fits.
  - intros d k v Hf. eexists. split; [by apply get_present|done].
  - vm_compute. reflexivity.
  - vm_compute. reflexivity.
Qed.

Lemma caches_bounded_lru_eviction_witness :
  let w := after [parse_channel (channel_payload 9 1 None) None;
                  parse_channel (channel_payload 8 1 None) None;
                  parse_channel (channel_payload 7 1 None) None;
                  parse_message (message_payload 1 9);
                  parse_message (message_payload 2 8);
                  parse_message (message_payload 3 7)] registry_2_2 in
  data_structures.lru_length (_message_cache w) ≤ 2
  ∧ data_structures.lru_length (_dm_channels w) ≤ 2.
Proof.
  intros w. refine (proj1 (caches_bounded_lru_eviction 2 2 w _)).
  eexists registry_2_2, _. split; reflexivity.
Defined.

(** ** C8: the bot user *)

#[global] Instance bot_user_kept_preorder : PreOrder bot_user_kept.
Proof.
  split.
  - intros w. split; auto.
  - intros w1 w2 w3 [H1 H1'] [H2 H2']. split; auto.
Qed.

Lemma users_update_state_run self p w :
  users.update_state self p w =
    match user_objs w !! self with
    | Some u =>
        (Ok tt,
         set_user_objs (λ l, <[self :=
           match User_class u with
           | UserCls =>
               {| User_class := UserCls; User_id := User_id u;
                  User_username := up_username p;
                  User_mfa_enabled := User_mfa_enabled u;
                  User_verified := User_verified u |}
           | BotUserCls =>
               {| User_class := BotUserCls; User_id := User_id u;
                  User_username := up_username p;
                  User_mfa_enabled := up_mfa_enabled p;
                  User_verified := up_verified p |}
           end]> l) w)
    | None => (Raise DanglingReference, w)
    end.
Proof.
  unfold users.update_state. unfold_M. by destruct (user_objs w !! self).
Qed.

Lemma users_update_state_kept self p : relates bot_user_kept (users.update_state self p).
Proof.
  intros w. rewrite users_update_state_run.
  destruct (user_objs w !! self) as [u|] eqn:Hu; simpl; [|reflexivity].
  split; [|done]. intros [Honly Hme]. split; simpl.
  - intros r uo Hr Hcls. destruct (decide (r = self)) as [->|Hne].
    + apply (Honly self u Hu).
      rewrite list_lookup_insert_eq in Hr by (by eapply lookup_lt_Some).
      injection Hr as <-. by destruct (User_class u).
    + rewrite list_lookup_insert_ne in Hr by done. by apply (Honly r uo).
  - intros me Hm. destruct (Hme me Hm) as (uo & Hlook & Hcls).
    destruct (decide (me = self)) as [->|Hne].
    + rewrite list_lookup_insert_eq by (by eapply lookup_lt_Some).
      eexists. split; [done|]. rewrite Hu in Hlook. injection Hlook as ->.
      by rewrite Hcls.
    + rewrite list_lookup_insert_ne by done. eauto.
Qed.

Lemma User__init__kept p : relates bot_user_kept (users.User__init__ p).
Proof.
  intros w. unfold users.User__init__, alloc. simpl.
  split; [|done]. intros [Honly Hme]. split; simpl.
  - intros r uo Hr Hcls. apply lookup_app_Some in Hr as [Hr|[_ Hr]].
    + by apply (Honly r uo).
    + apply list_lookup_singleton_Some in Hr as [_ <-]. discriminate.
  - intros me Hm. destruct (Hme me Hm) as (uo & Hlook & Hcls).
    exists uo. split; [|done]. by apply lookup_app_l_Some.
Qed.

Lemma parse_bot_user_kept p : relates bot_user_kept (StateRegistryImpl.parse_bot_user p).
Proof.
  intros w. unfold StateRegistryImpl.parse_bot_user.
  unfold mbind, M_bind, gets. destruct (_user w) as [me|] eqn:Hu.
  - pose proof (users_update_state_kept me p w) as H.
    by destruct (users.update_state me p w) as [[[]|e] w'].
  - unfold users.BotUser__init__, alloc, modify, mret, M_ret. simpl.
    split; [|by rewrite Hu]. intros [Honly Hme]. split; simpl.
    + intros r uo Hr Hcls. apply lookup_app_Some in Hr as [Hr|[Hlen Hr]].
      * specialize (Honly r uo Hr Hcls). congruence.
      * apply list_lookup_singleton_Some in Hr as [Hr _]. f_equal. lia.
    + intros me [= <-]. eexists.
      split; [by rewrite lookup_app_r, Nat.sub_diag by lia|done].
Qed.

Ltac bot_user_known :=
  first [ apply users_update_state_kept | apply User__init__kept
        | apply parse_bot_user_kept ].

Ltac bot_user_write :=
  split; [intros H; exact H | intros me H; exact H].

Lemma call_keeps_bot_user c w : bot_user_kept w (call c w).2.
Proof.
  revert w. apply (call_relates bot_user_kept).
  destruct c; relates_go bot_user_known bot_user_write.
Qed.

Lemma filter_none {A} (P : A → Prop) `{∀ x, Decision (P x)} (l : list A) :
  (∀ x, x ∈ l → ¬ P x) → filter P l = [].
Proof.
  induction l as [|a l IH]; intros Hno; [done|].
  rewrite filter_cons_False by (apply Hno; left).
  apply IH. intros x Hx. apply Hno. by right.
Qed.

Lemma filter_at_most_one {A} (P : A → Prop) `{∀ x, Decision (P x)} (l : list A) :
  (∀ i j x y, l !! i = Some x → l !! j = Some y → P x → P y → i = j) →
  (length (filter P l) ≤ 1)%nat.
Proof.
  induction l as [|a l IH]; intros Huniq; [simpl; lia|].
  rewrite filter_cons. destruct (decide (P a)) as [Ha|Ha].
  - assert (Hnone : filter P l = []).
    { apply filter_none. intros y Hy Py.
      apply list_elem_of_lookup in Hy as [j Hj].
      specialize (Huniq 0%nat (S j) a y eq_refl Hj Ha Py). discriminate. }
    simpl. rewrite Hnone. simpl. lia.
  - apply IH. intros i j x y Hi Hj Px Py.
    specialize (Huniq (S i) (S j) x y Hi Hj Px Py). lia.
Qed.

Lemma bot_user_singleton_count w :
  bot_user_singleton w → (length (bot_users w) ≤ 1)%nat.
Proof.
  intros [Honly _]. apply filter_at_most_one.
  intros i j x y Hi Hj Hx Hy.
  pose proof (Honly i x Hi Hx). pose proof (Honly j y Hj Hy). congruence.
Qed.

Lemma init_bot_user_singleton mc dc w0 :
  StateRegistryImpl.__init__ mc dc = Ok w0 → bot_user_singleton w0.
Proof.
  unfold StateRegistryImpl.__init__, data_structures.LRUDict_init.
  destruct (decide (dc <= 0)); [done|]. destruct (decide (mc <= 0)); [done|].
  intros [= <-]. split; simpl; [intros r uo Hr|intros me Hm]; done.
Qed.

Lemma reachable_bot_user_singleton mc dc w :
  reachable mc dc w → bot_user_singleton w.
Proof.
  intros (w0 & cs & Hinit & ->).
  apply after_keeps; [|by eapply init_bot_user_singleton].
  intros c w Hw. by apply (call_keeps_bot_user c w).
Qed.

(** The singleton path of [parse_user]. *)
Lemma parse_user_for_bot_user p w :
  for_bot_user p w →
  StateRegistryImpl.parse_user p w = StateRegistryImpl.parse_bot_user p w.
Proof.
  intros Hfor. unfold StateRegistryImpl.parse_user.
  unfold mbind, M_bind, gets, deref, mret, M_ret.
  destruct (_user w) as [me|] eqn:Hu.
  - destruct (user_objs w !! me) as [uo|] eqn:Hme.
    + destruct Hfor as [Hmfa|[Hver|(me' & uo' & Hu' & Hme' & Hid)]].
      * rewrite (bool_decide_eq_true_2 _ Hmfa).
        by destruct (bool_decide (up_id p = User_id uo)).
      * rewrite (bool_decide_eq_true_2 _ Hver).
        by destruct (bool_decide (up_id p = User_id uo)),
             (bool_decide (is_Some (up_mfa_enabled p))).
      * rewrite Hu in Hu'. injection Hu' as <-.
        rewrite Hme in Hme'. injection Hme' as <-.
        by rewrite bool_decide_eq_true_2.
    + unfold StateRegistryImpl.parse_bot_user.
      unfold mbind, M_bind, gets. rewrite Hu, users_update_state_run, Hme. done.
  - destruct Hfor as [Hmfa|[Hver|(me' & uo' & Hu' & _)]]; [| |congruence].
    + by rewrite (bool_decide_eq_true_2 _ Hmfa).
    + rewrite (bool_decide_eq_true_2 _ Hver).
      by destruct (bool_decide (is_Some (up_mfa_enabled p))).
Qed.

(** C8: in every reachable state there is at most one [BotUser] instance,
    the one [_user] refers to; no call replaces it once it is set; a payload
    with an MFA or verification flag, or with the id of the stored bot user,
    makes [parse_user] run [parse_bot_user]; and [parse_bot_user] updates the
    fields of the existing instance in place, creating an instance only when
    there is none yet. *)
Theorem bot_user_created_once (mc dc : Z) (w : World) :
  reachable mc dc w →
  (length (bot_users w) ≤ 1)%nat
  ∧ (∀ c me, _user w = Some me → _user (call c w).2 = Some me)
  ∧ (∀ p, for_bot_user p w →
       StateRegistryImpl.parse_user p w = StateRegistryImpl.parse_bot_user p w)
  ∧ (∀ p me, _user w = Some me →
       ∃ uo w',
         user_objs w !! me = Some uo
         ∧ StateRegistryImpl.parse_bot_user p w = (Ok me, w')
         ∧ _user w' = Some me
         ∧ user_objs w'
           = <[me := {| User_class := BotUserCls; User_id := User_id uo;
                        User_username := up_username p;
                        User_mfa_enabled := up_mfa_enabled p;
                        User_verified := up_verified p |}]> (user_objs w))
  ∧ (∀ p, _user w = None →
       bot_users w = []
       ∧ ∃ w', StateRegistryImpl.parse_bot_user p w = (Ok (length (user_objs w)), w')
               ∧ _user w' = Some (length (user_objs w))
               ∧ length (bot_users w') = 1%nat).
Proof.
  intros Hreach. pose proof (reachable_bot_user_singleton _ _ _ Hreach) as Hinv.
  repeat apply conj.
  - by apply bot_user_singleton_count.
  - intros c me. apply (call_keeps_bot_user c w).
  - intros p. apply parse_user_for_bot_user.
  - intros p me Hu. destruct Hinv as [_ Hme].
    destruct (Hme me Hu) as (uo & Hlook & Hcls).
    unfold StateRegistryImpl.parse_bot_user. unfold mbind, M_bind, gets.
    rewrite Hu, users_update_state_run, Hlook, Hcls. simpl.
    exists uo. eexists. repeat apply conj; done.
  - destruct Hinv as [Honly _]. intros p Hu.
    assert (Hnone : bot_users w = []).
    { apply filter_none. intros uo Huo Hcls.
      apply list_elem_of_lookup in Huo as [r Hr].
      specialize (Honly r uo Hr Hcls). congruence. }
    split; [done|].
    unfold StateRegistryImpl.parse_bot_user, users.BotUser__init__.
    unfold mbind, M_bind, gets, alloc, modify, mret, M_ret. rewrite Hu. simpl.
    eexists. repeat apply conj; [done|done|].
    unfold bot_users in *. simpl. rewrite filter_app, Hnone. done.
Qed.

Lemma bot_user_created_once_witness :
  let w := after [parse_user (user_payload 10);
                  parse_user {| up_id := 1; up_username := "bot";
                                up_mfa_enabled := Some true; up_verified := None |};
                  parse_bot_user (user_payload 2);
                  parse_user (user_payload 1)] registry_2_2 in
  (length (bot_users w) ≤ 1)%nat
  ∧ StateRegistryImpl.parse_user (user_payload 1) w
    = StateRegistryImpl.parse_bot_user (user_payload 1) w.
Proof.
  intros w.
  assert (Hreach : reachable 2 2 w) by (eexists registry_2_2, _; split; reflexivity).
  destruct (bot_user_created_once 2 2 w Hreach) as (Hcount & _ & Hroute & _).
  split; [exact Hcount|]. apply Hroute.
  right; right. vm_compute. do 2 eexists. repeat apply conj; reflexivity.
Defined.

(** ** C5: counting reactions *)

Lemma first_with_emoji_none e l w :
  no_reaction_with e l w →
  StateRegistryImpl.first_with_emoji e l w = (Ok None, w).
Proof.
  induction 1 as [|r l (ro & Hr & Hne) _ IH]; [done|]. simpl.
  unfold mbind, M_bind, deref. rewrite Hr. by rewrite decide_False.
Qed.

Lemma first_with_emoji_some e l1 r l2 ro w :
  no_reaction_with e l1 w → reaction_objs w !! r = Some ro → Reaction_emoji ro = e →
  StateRegistryImpl.first_with_emoji e (l1 ++ r :: l2) w = (Ok (Some r), w).
Proof.
  intros Hl1 Hr He. induction Hl1 as [|r' l1 (ro' & Hr' & Hne) _ IH]; simpl.
  - unfold mbind, M_bind, deref. rewrite Hr. by rewrite decide_True.
  - unfold mbind, M_bind, deref. rewrite Hr'. by rewrite decide_False.
Qed.

Lemma no_reaction_with_not_in e l r ro w :
  no_reaction_with e l w → reaction_objs w !! r = Some ro → Reaction_emoji ro = e →
  r ∉ l.
Proof.
  intros Hl Hr He Hin. unfold no_reaction_with in Hl. rewrite Forall_forall in Hl.
  destruct (Hl r Hin) as (ro' & Hr' & Hne). congruence.
Qed.

Lemma list_remove_middle {A} `{EqDecision A} (x : A) l1 l2 :
  x ∉ l1 → list_remove x (l1 ++ x :: l2) = Some (l1 ++ l2).
Proof.
  induction l1 as [|y l1 IH]; intros Hnot; simpl.
  - by rewrite decide_True.
  - rewrite decide_False by (intros ->; apply Hnot; left).
    rewrite IH; [done|]. intros Hin. apply Hnot. by right.
Qed.

(** The worlds that the reaction methods leave. *)
Lemma increment_reaction_count_new m mo e w :
  message_objs w !! m = Some mo → no_reaction_with e (Message_reactions mo) w →
  StateRegistryImpl.increment_reaction_count m e w
  = (Ok (length (reaction_objs w)),
     set_message_objs
       (λ l, <[m := Message_with_reactions
                      (Message_reactions mo ++ [length (reaction_objs w)]) mo]> l)
       (set_reaction_objs
          (λ l, l ++ [{| Reaction_count := 1; Reaction_emoji := e;
                         Reaction_message := m |}]) w)).
Proof.
  intros Hm Hnone. unfold StateRegistryImpl.increment_reaction_count.
  unfold mbind at 1, M_bind at 1, deref at 1. rewrite Hm.
  unfold mbind at 1, M_bind at 1. rewrite (first_with_emoji_none _ _ _ Hnone).
  reflexivity.
Qed.

Lemma increment_reaction_count_existing m mo e l1 r l2 ro w :
  message_objs w !! m = Some mo → Message_reactions mo = l1 ++ r :: l2 →
  no_reaction_with e l1 w → reaction_objs w !! r = Some ro → Reaction_emoji ro = e →
  StateRegistryImpl.increment_reaction_count m e w
  = (Ok r, set_reaction_objs
             (λ l, <[r := Reaction_with_count (Reaction_count ro + 1) ro]> l) w).
Proof.
  intros Hm Hl Hl1 Hr He. unfold StateRegistryImpl.increment_reaction_count.
  unfold mbind at 1, M_bind at 1, deref at 1. rewrite Hm, Hl.
  unfold mbind at 1, M_bind at 1. rewrite (first_with_emoji_some _ _ _ _ _ _ Hl1 Hr He).
  unfold_M. by rewrite Hr.
Qed.

Lemma decrement_reaction_count_none m mo e w :
  message_objs w !! m = Some mo → no_reaction_with e (Message_reactions mo) w →
  StateRegistryImpl.decrement_reaction_count m e w = (Ok None, w).
Proof.
  intros Hm Hnone. unfold StateRegistryImpl.decrement_reaction_count.
  unfold mbind at 1, M_bind at 1, deref at 1. rewrite Hm.
  unfold mbind at 1, M_bind at 1. rewrite (first_with_emoji_none _ _ _ Hnone).
  reflexivity.
Qed.

Lemma decrement_reaction_count_existing m mo e l1 r l2 ro w :
  message_objs w !! m = Some mo → Message_reactions mo = l1 ++ r :: l2 →
  no_reaction_with e l1 w → reaction_objs w !! r = Some ro → Reaction_emoji ro = e →
  StateRegistryImpl.decrement_reaction_count m e w
  = (Ok (Some r),
     let w1 := set_reaction_objs
                 (λ l, <[r := Reaction_with_count (Reaction_count ro - 1) ro]> l) w in
     if decide (Reaction_count ro - 1 = 0)
     then set_message_objs (λ l, <[m := Message_with_reactions (l1 ++ l2) mo]> l) w1
     else w1).
Proof.
  intros Hm Hl Hl1 Hr He. unfold StateRegistryImpl.decrement_reaction_count.
  unfold mbind at 1, M_bind at 1, deref at 1. rewrite Hm, Hl.
  unfold mbind at 1, M_bind at 1. rewrite (first_with_emoji_some _ _ _ _ _ _ Hl1 Hr He).
  unfold StateRegistryImpl.remove_reaction. unfold_M. rewrite Hr. simpl.
  destruct (decide (Reaction_count ro - 1 = 0)); [|done].
  simpl. rewrite Hm, Hl.
  rewrite list_remove_middle by (by eapply no_reaction_with_not_in).
  reflexivity.
Qed.

(** C5: on a message without a reaction for the emoji,
    [increment_reaction_count] appends a new reaction with count 1 to the
    message's list and [decrement_reaction_count] returns [None] and changes
    nothing.  When the first reaction of the list with that emoji is [r],
    increment adds exactly 1 to the count of [r], and decrement subtracts 1
    and takes [r] out of the list when the count has reached zero.  Nothing
    else changes. *)
Theorem reaction_count_increment_decrement
    (w : World) (m : ref) (mo : Message) (e : Emoji) :
  message_objs w !! m = Some mo →
  (no_reaction_with e (Message_reactions mo) w →
     StateRegistryImpl.increment_reaction_count m e w
     = (Ok (length (reaction_objs w)),
        set_message_objs
          (λ l, <[m := Message_with_reactions
                         (Message_reactions mo ++ [length (reaction_objs w)]) mo]> l)
          (set_reaction_objs
             (λ l, l ++ [{| Reaction_count := 1; Reaction_emoji := e;
                            Reaction_message := m |}]) w))
     ∧ StateRegistryImpl.decrement_reaction_count m e w = (Ok None, w))
  ∧ (∀ l1 r l2 ro,
       Message_reactions mo = l1 ++ r :: l2 → no_reaction_with e l1 w →
       reaction_objs w !! r = Some ro → Reaction_emoji ro = e →
       StateRegistryImpl.increment_reaction_count m e w
       = (Ok r, set_reaction_objs
                  (λ l, <[r := Reaction_with_count (Reaction_count ro + 1) ro]> l) w)
       ∧ StateRegistryImpl.decrement_reaction_count m e w
         = (Ok (Some r),
            let w1 := set_reaction_objs
                        (λ l, <[r := Reaction_with_count (Reaction_count ro - 1) ro]> l)
                        w in
            if decide (Reaction_count ro - 1 = 0)
            then set_message_objs
                   (λ l, <[m := Message_with_reactions (l1 ++ l2) mo]> l) w1
            else w1)).
Proof.
  intros Hm. split.
  - intros Hnone. split.
    + by apply increment_reaction_count_new.
    + by eapply decrement_reaction_count_none.
  - intros l1 r l2 ro Hl Hl1 Hr He. split.
    + by eapply increment_reaction_count_existing.
    + by eapply decrement_reaction_count_existing.
Qed.

Lemma reaction_count_increment_decrement_witness :
  let w := world_with_reactions in
  (StateRegistryImpl.increment_reaction_count 0 tada w).1 = Ok 2%nat
  ∧ StateRegistryImpl.decrement_reaction_count 0 tada w = (Ok None, w)
  ∧ Reaction_count <$>
      reaction_objs (StateRegistryImpl.increment_reaction_count 0 heart w).2 !! 1%nat
    = Some 2
  ∧ Message_reactions <$>
      message_objs (StateRegistryImpl.decrement_reaction_count 0 heart w).2 !! 0%nat
    = Some [0%nat].
Proof.
  intros w.
  pose (mo := {| Message_id := 1; Message_channel_id := 9; Message_content := "hello";
                 Message_reactions := [0%nat; 1%nat] |}).
  pose (ro := {| Reaction_count := 1; Reaction_emoji := heart; Reaction_message := 0%nat |}).
  assert (Hm : message_objs w !! 0%nat = Some mo) by (vm_compute; reflexivity).
  destruct (reaction_count_increment_decrement w 0%nat mo tada Hm) as [Hnew _].
  destruct (reaction_count_increment_decrement w 0%nat mo heart Hm) as [_ Hold].
  destruct Hnew as [Hinc Hdec].
  { repeat constructor; eexists; (split; [vm_compute; reflexivity|discriminate]). }
  destruct (Hold [0%nat] 1%nat [] ro) as [Hinc' Hdec'].
  { reflexivity. }
  { repeat constructor; eexists; (split; [vm_compute; reflexivity|discriminate]). }
  { vm_compute; reflexivity. }
  { reflexivity. }
  repeat apply conj.
  - rewrite Hinc. vm_compute. reflexivity.
  - exact Hdec.
  - rewrite Hinc'. vm_compute. reflexivity.
  - rewrite Hdec'. vm_compute. reflexivity.
Defined.

(** ** C6: reaction counts along a history *)

Lemma listed_Exists w r :
  listed w r ↔ Exists (λ mo, r ∈ Message_reactions mo) (message_objs w).
Proof.
  rewrite Exists_exists. split.
  - intros (m & mo & Hm & Hr). exists mo. split; [|done].
    apply list_elem_of_lookup. eauto.
  - intros (mo & Hmo & Hr). apply list_elem_of_lookup in Hmo as [m Hm].
    by exists m, mo.
Qed.

Lemma listed_dec w r : listed w r ∨ ¬ listed w r.
Proof.
  destruct (decide (Exists (λ mo, r ∈ Message_reactions mo) (message_objs w)))
    as [H|H]; [left|right]; by rewrite listed_Exists.
Qed.

#[global] Instance reactions_step_preorder P : PreOrder (reactions_step P).
Proof.
  split.
  - intros w Hinv. repeat apply conj; [done|intros r H1 H2; done|intros r ro H1 H2; done].
  - intros w1 w2 w3 H12 H23 Hinv1.
    destruct (H12 Hinv1) as (Hinv2 & Hrem12 & Hun12).
    destruct (H23 Hinv2) as (Hinv3 & Hrem23 & Hun23).
    repeat apply conj; [done| |].
    + intros r Hl1 Hn3.
      destruct (listed_dec w2 r) as [Hl2|Hn2]; [by apply Hrem23|].
      destruct (Hrem12 r Hl1 Hn2) as (ro & Hro & Hzero).
      destruct (Hun23 r ro Hn2 Hro) as [Hro3 _]. eauto.
    + intros r ro Hn1 Hro.
      destruct (Hun12 r ro Hn1 Hro) as [Hro2 Hn2]. by apply Hun23.
Qed.

Section reaction_steps.
Context (P : Z → Prop) (HP : count_closed P).

Lemma reactions_step_same w w' :
  message_objs w' = message_objs w → reaction_objs w' = reaction_objs w →
  reactions_step P w w'.
Proof.
  intros Hm Hr Hinv.
  assert (Hl : ∀ r, listed w' r ↔ listed w r).
  { intros r. unfold listed. by rewrite Hm. }
  repeat apply conj.
  - intros m mo. rewrite Hm, Hr. apply Hinv.
  - intros r H1 H2. by apply Hl in H1.
  - intros r ro H1 H2. rewrite Hr, Hl. done.
Qed.

(** A reaction of a list is in no other list. *)
Lemma reactions_counted_owner w m mo m' mo' r :
  reactions_counted P w →
  message_objs w !! m = Some mo → r ∈ Message_reactions mo →
  message_objs w !! m' = Some mo' → r ∈ Message_reactions mo' →
  m' = m.
Proof.
  intros Hinv Hm Hr Hm' Hr'.
  destruct (Hinv m mo Hm) as [_ H]. destruct (H r Hr) as (ro & Hro & Hback & _).
  destruct (Hinv m' mo' Hm') as [_ H']. destruct (H' r Hr') as (ro' & Hro' & Hback' & _).
  congruence.
Qed.

(** The count of a listed reaction is set to a positive value. *)
Lemma step_set_count w w' r ro c :
  reaction_objs w !! r = Some ro → listed w r → P c →
  message_objs w' = message_objs w →
  reaction_objs w' = <[r := Reaction_with_count c ro]> (reaction_objs w) →
  reactions_step P w w'.
Proof.
  intros Hro Hlisted Hc Hms Hrs Hinv.
  assert (Hl : ∀ r, listed w' r ↔ listed w r).
  { intros r'. unfold listed. by rewrite Hms. }
  assert (Hlen : (r < length (reaction_objs w))%nat) by (by eapply lookup_lt_Some).
  repeat apply conj.
  - intros m mo Hm. rewrite Hms in Hm. destruct (Hinv m mo Hm) as [Hnd Hall].
    split; [done|]. intros r' Hr'. rewrite Hrs.
    destruct (Hall r' Hr') as (ro' & Hro' & Hback & Hpos).
    destruct (decide (r' = r)) as [->|Hne].
    + rewrite list_lookup_insert_eq by done. eexists. split; [done|].
      rewrite Hro in Hro'. injection Hro' as <-. done.
    + rewrite list_lookup_insert_ne by done. eauto.
  - intros r' H1 H2. by apply Hl in H1.
  - intros r' ro' H1 H2. rewrite Hl. split; [|done].
    rewrite Hrs, list_lookup_insert_ne; [done|]. by intros ->.
Qed.

(** A reaction object is created and put in no list. *)
Lemma step_alloc_reaction w w' ro :
  message_objs w' = message_objs w →
  reaction_objs w' = reaction_objs w ++ [ro] →
  reactions_step P w w'.
Proof.
  intros Hms Hrs Hinv.
  assert (Hl : ∀ r, listed w' r ↔ listed w r).
  { intros r'. unfold listed. by rewrite Hms. }
  repeat apply conj.
  - intros m mo Hm. rewrite Hms in Hm. destruct (Hinv m mo Hm) as [Hnd Hall].
    split; [done|]. intros r' Hr'. rewrite Hrs.
    destruct (Hall r' Hr') as (ro' & Hro' & Hback & Hpos).
    exists ro'. split; [|done]. by apply lookup_app_l_Some.
  - intros r' H1 H2. by apply Hl in H1.
  - intros r' ro' H1 H2. rewrite Hl. split; [|done].
    rewrite Hrs. by apply lookup_app_l_Some.
Qed.

(** A new reaction with a positive count is created at the end of the list
    of its message. *)
Lemma step_append_new w w' m mo ro :
  message_objs w !! m = Some mo → Reaction_message ro = m → P (Reaction_count ro) →
  message_objs w'
  = <[m := Message_with_reactions
             (Message_reactions mo ++ [length (reaction_objs w)]) mo]> (message_objs w) →
  reaction_objs w' = reaction_objs w ++ [ro] →
  reactions_step P w w'.
Proof.
  intros Hmo Hback Hpos Hms Hrs Hinv.
  assert (Hmlen : (m < length (message_objs w))%nat) by (by eapply lookup_lt_Some).
  assert (Hvalid : ∀ m1 mo1 r, message_objs w !! m1 = Some mo1 →
            r ∈ Message_reactions mo1 → (r < length (reaction_objs w))%nat).
  { intros m1 mo1 r Hm1 Hr. destruct (Hinv m1 mo1 Hm1) as [_ Hall].
    destruct (Hall r Hr) as (ro1 & Hro1 & _). by eapply lookup_lt_Some. }
  assert (Hgrow : ∀ r, listed w r → listed w' r).
  { intros r (m1 & mo1 & Hm1 & Hr). unfold listed. rewrite Hms.
    destruct (decide (m1 = m)) as [->|Hne].
    - eexists m, _. rewrite list_lookup_insert_eq by done. split; [done|]. simpl.
      rewrite Hmo in Hm1. injection Hm1 as <-. apply elem_of_app. by left.
    - exists m1, mo1. by rewrite list_lookup_insert_ne. }
  repeat apply conj.
  - intros m1 mo1 Hm1. rewrite Hms in Hm1. rewrite Hrs.
    destruct (decide (m1 = m)) as [->|Hne].
    + rewrite list_lookup_insert_eq in Hm1 by done. injection Hm1 as <-. simpl.
      destruct (Hinv m mo Hmo) as [Hnd Hall]. split.
      * apply NoDup_app. repeat apply conj; [done| |apply NoDup_singleton].
        intros r Hr Hr'. apply list_elem_of_singleton in Hr'. subst r.
        specialize (Hvalid m mo _ Hmo Hr). lia.
      * intros r Hr. apply elem_of_app in Hr as [Hr|Hr].
        -- destruct (Hall r Hr) as (ro1 & Hro1 & ?). exists ro1.
           split; [|done]. by apply lookup_app_l_Some.
        -- apply list_elem_of_singleton in Hr. subst r. exists ro.
           split; [|done]. by rewrite lookup_app_r, Nat.sub_diag by lia.
    + rewrite list_lookup_insert_ne in Hm1 by done.
      destruct (Hinv m1 mo1 Hm1) as [Hnd Hall]. split; [done|].
      intros r Hr. destruct (Hall r Hr) as (ro1 & Hro1 & ?). exists ro1.
      split; [|done]. by apply lookup_app_l_Some.
  - intros r H1 H2. by apply Hgrow in H1.
  - intros r ro1 Hun Hro1. split; [rewrite Hrs; by apply lookup_app_l_Some|].
    intros (m1 & mo1 & Hm1 & Hr). rewrite Hms in Hm1. apply Hun.
    destruct (decide (m1 = m)) as [->|Hne].
    + rewrite list_lookup_insert_eq in Hm1 by done. injection Hm1 as <-. simpl in Hr.
      apply elem_of_app in Hr as [Hr|Hr]; [by exists m, mo|].
      apply list_elem_of_singleton in Hr. subst r.
      apply lookup_lt_Some in Hro1. lia.
    + rewrite list_lookup_insert_ne in Hm1 by done. by exists m1, mo1.
Qed.

(** A reaction is taken out of its list and left with count zero. *)
Lemma step_remove_zero w w' m mo l1 r l2 ro :
  message_objs w !! m = Some mo → Message_reactions mo = l1 ++ r :: l2 →
  reaction_objs w !! r = Some ro →
  message_objs w' = <[m := Message_with_reactions (l1 ++ l2) mo]> (message_objs w) →
  reaction_objs w' = <[r := Reaction_with_count 0 ro]> (reaction_objs w) →
  reactions_step P w w'.
Proof.
  intros Hmo Hl Hro Hms Hrs Hinv.
  assert (Hmlen : (m < length (message_objs w))%nat) by (by eapply lookup_lt_Some).
  assert (Hrlen : (r < length (reaction_objs w))%nat) by (by eapply lookup_lt_Some).
  destruct (Hinv m mo Hmo) as [Hnd Hall]. rewrite Hl in Hnd, Hall.
  assert (Hr12 : r ∉ l1 ++ l2).
  { apply NoDup_app in Hnd as (_ & Hdisj & Hnd2). apply NoDup_cons in Hnd2 as [Hr2 _].
    intros Hin. apply elem_of_app in Hin as [Hin|Hin]; [|done].
    apply (Hdisj r Hin). left. }
  assert (Hsub : ∀ r', r' ∈ l1 ++ l2 → r' ∈ l1 ++ r :: l2).
  { intros r'. rewrite !elem_of_app, elem_of_cons. tauto. }
  assert (Hin : r ∈ Message_reactions mo).
  { rewrite Hl. apply elem_of_app. right. left. }
  assert (Hshrink : ∀ r', listed w' r' → listed w r' ∧ r' ≠ r).
  { intros r' (m1 & mo1 & Hm1 & Hr'). rewrite Hms in Hm1.
    destruct (decide (m1 = m)) as [->|Hne].
    - rewrite list_lookup_insert_eq in Hm1 by done. injection Hm1 as <-. simpl in Hr'.
      split; [|by intros ->]. exists m, mo. split; [done|]. rewrite Hl. by apply Hsub.
    - rewrite list_lookup_insert_ne in Hm1 by done. split; [by exists m1, mo1|].
      intros ->. apply Hne. by eapply (reactions_counted_owner w m mo m1 mo1 r). }
  repeat apply conj.
  - intros m1 mo1 Hm1.
    assert (Hl1 : ∀ r', r' ∈ Message_reactions mo1 → listed w' r') by (intros; by exists m1, mo1).
    rewrite Hms in Hm1. rewrite Hrs.
    destruct (decide (m1 = m)) as [->|Hne].
    + rewrite list_lookup_insert_eq in Hm1 by done. injection Hm1 as <-. simpl in *.
      split.
      * apply NoDup_app in Hnd as (Hnd1 & Hdisj & Hnd2).
        apply NoDup_cons in Hnd2 as [_ Hnd2]. apply NoDup_app. repeat apply conj; [done| |done].
        intros r' H1 H2. apply (Hdisj r' H1). by right.
      * intros r' Hr'. destruct (Hall r' (Hsub r' Hr')) as (ro' & Hro' & ?).
        exists ro'. split; [|done]. rewrite list_lookup_insert_ne; [done|].
        intros ->. done.
    + rewrite list_lookup_insert_ne in Hm1 by done.
      destruct (Hinv m1 mo1 Hm1) as [Hnd1 Hall1]. split; [done|].
      intros r' Hr'. destruct (Hall1 r' Hr') as (ro' & Hro' & ?).
      exists ro'. split; [|done]. rewrite list_lookup_insert_ne; [done|].
      intros Heq. apply Hne. rewrite <- Heq in Hr'.
      by eapply (reactions_counted_owner w m mo m1 mo1 r).
  - intros r' (m1 & mo1 & Hm1 & Hr') Hun. destruct (decide (r' = r)) as [->|Hne].
    + rewrite Hrs, list_lookup_insert_eq by done. eauto.
    + exfalso. apply Hun. unfold listed. rewrite Hms.
      destruct (decide (m1 = m)) as [->|Hnem].
      * eexists m, _. rewrite list_lookup_insert_eq by done. split; [done|]. simpl.
        rewrite Hmo in Hm1. injection Hm1 as <-. rewrite Hl in Hr'.
        revert Hr'. rewrite !elem_of_app, elem_of_cons. tauto.
      * exists m1, mo1. by rewrite list_lookup_insert_ne.
  - intros r' ro' Hun Hro'. split.
    + rewrite Hrs, list_lookup_insert_ne; [done|]. intros ->. apply Hun. by exists m, mo.
    + intros Hl'. by apply Hshrink in Hl' as [? _].
Qed.

Lemma zeroed_length l rs : length (zeroed l rs) = length rs.
Proof.
  revert rs. induction l as [|r l IH]; intros rs; [done|]. simpl.
  destruct (rs !! r); rewrite IH; [by rewrite length_insert|done].
Qed.

Lemma zeroed_not_in l rs r : r ∉ l → zeroed l rs !! r = rs !! r.
Proof.
  revert rs. induction l as [|r' l IH]; intros rs Hnot; [done|]. simpl.
  rewrite IH by (intros H; apply Hnot; by right).
  destruct (rs !! r') eqn:Hr'; [|done].
  rewrite list_lookup_insert_ne; [done|]. intros ->. apply Hnot. left.
Qed.

Lemma zeroed_in l rs r ro :
  NoDup l → r ∈ l → rs !! r = Some ro →
  zeroed l rs !! r = Some (Reaction_with_count 0 ro).
Proof.
  revert rs. induction l as [|r' l IH]; intros rs Hnd Hin Hro; [by inversion Hin|].
  apply NoDup_cons in Hnd as [Hr' Hnd]. simpl.
  apply elem_of_cons in Hin as [->|Hin].
  - rewrite Hro, zeroed_not_in by done.
    apply list_lookup_insert_eq. by eapply lookup_lt_Some.
  - assert (r ≠ r') by (by intros ->).
    destruct (rs !! r') eqn:Hr''.
    + apply IH; [done|done|]. by rewrite list_lookup_insert_ne.
    + by apply IH.
Qed.

(** The list of a message is emptied and its reactions are left with count
    zero. *)
Lemma step_clear w w' m mo :
  message_objs w !! m = Some mo →
  message_objs w' = <[m := Message_with_reactions [] mo]> (message_objs w) →
  reaction_objs w' = zeroed (Message_reactions mo) (reaction_objs w) →
  reactions_step P w w'.
Proof.
  intros Hmo Hms Hrs Hinv.
  assert (Hmlen : (m < length (message_objs w))%nat) by (by eapply lookup_lt_Some).
  destruct (Hinv m mo Hmo) as [Hnd Hall].
  assert (Hshrink : ∀ r', listed w' r' → listed w r' ∧ r' ∉ Message_reactions mo).
  { intros r' (m1 & mo1 & Hm1 & Hr'). rewrite Hms in Hm1.
    destruct (decide (m1 = m)) as [->|Hne].
    - rewrite list_lookup_insert_eq in Hm1 by done. injection Hm1 as <-.
      by apply elem_of_nil in Hr'.
    - rewrite list_lookup_insert_ne in Hm1 by done. split; [by exists m1, mo1|].
      intros Hin. apply Hne. by eapply (reactions_counted_owner w m mo m1 mo1 r'). }
  repeat apply conj.
  - intros m1 mo1 Hm1.
    assert (Hl1 : ∀ r', r' ∈ Message_reactions mo1 → listed w' r') by (intros; by exists m1, mo1).
    rewrite Hms in Hm1. rewrite Hrs.
    destruct (decide (m1 = m)) as [->|Hne].
    + rewrite list_lookup_insert_eq in Hm1 by done. injection Hm1 as <-. simpl.
      split; [apply NoDup_nil_2|]. intros r' Hr'. by apply elem_of_nil in Hr'.
    + rewrite list_lookup_insert_ne in Hm1 by done.
      destruct (Hinv m1 mo1 Hm1) as [Hnd1 Hall1]. split; [done|].
      intros r' Hr'. destruct (Hall1 r' Hr') as (ro' & Hro' & ?).
      exists ro'. split; [|done]. rewrite zeroed_not_in; [done|].
      by apply Hshrink, Hl1.
  - intros r' (m1 & mo1 & Hm1 & Hr') Hun.
    destruct (decide (m1 = m)) as [->|Hnem].
    + rewrite Hmo in Hm1. injection Hm1 as <-.
      destruct (Hall r' Hr') as (ro' & Hro' & _).
      rewrite Hrs, (zeroed_in _ _ _ ro') by done. eauto.
    + exfalso. apply Hun. exists m1, mo1. by rewrite Hms, list_lookup_insert_ne.
  - intros r' ro' Hun Hro'. split.
    + rewrite Hrs, zeroed_not_in; [done|]. intros Hin. apply Hun. by exists m, mo.
    + intros Hl'. by apply Hshrink in Hl' as [? _].
Qed.

(** A message without reactions is created. *)
Lemma step_alloc_message w w' mo :
  Message_reactions mo = [] →
  message_objs w' = message_objs w ++ [mo] →
  reaction_objs w' = reaction_objs w →
  reactions_step P w w'.
Proof.
  intros Hempty Hms Hrs Hinv.
  assert (Hl : ∀ r, listed w' r ↔ listed w r).
  { intros r. unfold listed. rewrite Hms. split.
    - intros (m1 & mo1 & Hm1 & Hr). apply lookup_app_Some in Hm1 as [Hm1|[_ Hm1]].
      + by exists m1, mo1.
      + apply list_lookup_singleton_Some in Hm1 as [_ <-]. rewrite Hempty in Hr.
        by apply elem_of_nil in Hr.
    - intros (m1 & mo1 & Hm1 & Hr). exists m1, mo1. split; [|done].
      by apply lookup_app_l_Some. }
  repeat apply conj.
  - intros m1 mo1 Hm1. rewrite Hms in Hm1. rewrite Hrs.
    apply lookup_app_Some in Hm1 as [Hm1|[_ Hm1]]; [by apply Hinv|].
    apply list_lookup_singleton_Some in Hm1 as [_ <-]. rewrite Hempty.
    split; [apply NoDup_nil_2|]. intros r Hr. by apply elem_of_nil in Hr.
  - intros r H1 H2. by apply Hl in H1.
  - intros r ro H1 H2. rewrite Hrs, Hl. done.
Qed.

Lemma reaction_scan_cases e l w :
  (∀ r, r ∈ l → is_Some (reaction_objs w !! r)) →
  no_reaction_with e l w
  ∨ ∃ l1 r l2 ro, l = l1 ++ r :: l2 ∧ no_reaction_with e l1 w
                  ∧ reaction_objs w !! r = Some ro ∧ Reaction_emoji ro = e.
Proof.
  induction l as [|r l IH]; intros Hvalid; [left; constructor|].
  destruct (Hvalid r) as [ro Hro]; [left|].
  destruct (decide (Reaction_emoji ro = e)) as [He|Hne].
  - right. exists [], r, l, ro. repeat apply conj; [done|constructor|done|done].
  - destruct IH as [Hnone|(l1 & r' & l2 & ro' & -> & Hl1 & Hr' & He')].
    + intros r' Hr'. apply Hvalid. by right.
    + left. constructor; [eauto|done].
    + right. exists (r :: l1), r', l2, ro'.
      repeat apply conj; [done|constructor; eauto|done|done].
Qed.

Lemma reactions_counted_valid w m mo :
  reactions_counted P w → message_objs w !! m = Some mo →
  ∀ r, r ∈ Message_reactions mo → is_Some (reaction_objs w !! r).
Proof.
  intros Hinv Hmo r Hr. destruct (Hinv m mo Hmo) as [_ Hall].
  destruct (Hall r Hr) as (ro & Hro & _). eauto.
Qed.

Lemma increment_reaction_count_step m e :
  relates (reactions_step P) (StateRegistryImpl.increment_reaction_count m e).
Proof.
  intros w Hinv. destruct (message_objs w !! m) as [mo|] eqn:Hmo.
  - destruct (reaction_scan_cases e (Message_reactions mo) w
                (reactions_counted_valid w m mo Hinv Hmo))
      as [Hnone|(l1 & r & l2 & ro & Hl & Hl1 & Hr & He)].
    + rewrite (increment_reaction_count_new m mo e w Hmo Hnone).
      eapply (step_append_new w _ m mo
                {| Reaction_count := 1; Reaction_emoji := e; Reaction_message := m |});
        [done|done|apply HP|done|done|done].
    + rewrite (increment_reaction_count_existing m mo e l1 r l2 ro w Hmo Hl Hl1 Hr He).
      assert (Hin : r ∈ Message_reactions mo).
      { rewrite Hl. apply elem_of_app. right. left. }
      destruct (Hinv m mo Hmo) as [_ Hall].
      destruct (Hall r Hin) as (ro' & Hro' & _ & Hpos).
      rewrite Hr in Hro'. injection Hro' as <-.
      eapply (step_set_count w _ r ro (Reaction_count ro + 1));
        [done|by exists m, mo|by apply HP|done|done|done].
  - unfold StateRegistryImpl.increment_reaction_count.
    unfold mbind, M_bind, deref. rewrite Hmo. simpl. by apply reactions_step_same.
Qed.

Lemma decrement_reaction_count_step m e :
  relates (reactions_step P) (StateRegistryImpl.decrement_reaction_count m e).
Proof.
  intros w Hinv. destruct (message_objs w !! m) as [mo|] eqn:Hmo.
  - destruct (reaction_scan_cases e (Message_reactions mo) w
                (reactions_counted_valid w m mo Hinv Hmo))
      as [Hnone|(l1 & r & l2 & ro & Hl & Hl1 & Hr & He)].
    + rewrite (decrement_reaction_count_none m mo e w Hmo Hnone).
      by apply reactions_step_same.
    + rewrite (decrement_reaction_count_existing m mo e l1 r l2 ro w Hmo Hl Hl1 Hr He).
      assert (Hin : r ∈ Message_reactions mo).
      { rewrite Hl. apply elem_of_app. right. left. }
      destruct (Hinv m mo Hmo) as [_ Hall].
      destruct (Hall r Hin) as (ro' & Hro' & _ & Hpos).
      rewrite Hr in Hro'. injection Hro' as <-. simpl.
      destruct (decide (Reaction_count ro - 1 = 0)) as [Hzero|Hnz].
      * eapply (step_remove_zero w _ m mo l1 r l2 ro); [done|done|done|done| |done].
        simpl. by rewrite Hzero.
      * eapply (step_set_count w _ r ro (Reaction_count ro - 1));
          [done|by exists m, mo|by apply HP|done|done|done].
  - unfold StateRegistryImpl.decrement_reaction_count.
    unfold mbind, M_bind, deref. rewrite Hmo. simpl. by apply reactions_step_same.
Qed.

Lemma reactions_step_intro w w' :
  (reactions_counted P w → reactions_step P w w') → reactions_step P w w'.
Proof. intros H Hinv. by apply H. Qed.

Lemma first_to_delete_scan e l w :
  (∀ r, r ∈ l → ∃ ro, reaction_objs w !! r = Some ro
                      ∧ is_Some (message_objs w !! Reaction_message ro)) →
  StateRegistryImpl.first_to_delete e l w = StateRegistryImpl.first_with_emoji e l w.
Proof.
  induction l as [|r l IH]; intros Hvalid; [done|]. simpl.
  destruct (Hvalid r) as (ro & Hro & [mo Hmo]); [left|].
  unfold mbind, M_bind, deref. rewrite Hro.
  destruct (decide (Reaction_emoji ro = e)).
  - rewrite Hmo. by rewrite decide_True.
  - apply IH. intros r' Hr'. apply Hvalid. by right.
Qed.

Lemma delete_reaction_step m e :
  relates (reactions_step P) (StateRegistryImpl.delete_reaction m e).
Proof.
  intros w. apply reactions_step_intro. intros Hinv.
  unfold StateRegistryImpl.delete_reaction.
  unfold mbind at 1, M_bind at 1, deref at 1.
  destruct (message_objs w !! m) as [mo|] eqn:Hmo; [|by apply reactions_step_same].
  unfold mbind at 1, M_bind at 1. rewrite first_to_delete_scan.
  2:{ intros r Hr. destruct (Hinv m mo Hmo) as [_ Hall].
      destruct (Hall r Hr) as (ro & Hro & Hback & _). exists ro. rewrite Hback. eauto. }
  destruct (reaction_scan_cases e (Message_reactions mo) w
              (reactions_counted_valid w m mo Hinv Hmo))
    as [Hnone|(l1 & r & l2 & ro & Hl & Hl1 & Hr & He)].
  - rewrite (first_with_emoji_none _ _ _ Hnone). by apply reactions_step_same.
  - rewrite Hl, (first_with_emoji_some _ _ _ _ _ _ Hl1 Hr He).
    unfold StateRegistryImpl.remove_reaction. unfold_M. rewrite Hmo, Hl.
    rewrite list_remove_middle by (by eapply no_reaction_with_not_in).
    simpl. rewrite Hr. simpl.
    by eapply (step_remove_zero w _ m mo l1 r l2 ro).
Qed.

Lemma zero_all_run l w :
  (∀ r, r ∈ l → is_Some (reaction_objs w !! r)) →
  ∃ w', forM_ (λ reaction_obj,
                 ro ← deref reaction_objs reaction_obj;
                 assign set_reaction_objs reaction_obj (Reaction_with_count 0 ro)) l w
        = (Ok tt, w')
        ∧ message_objs w' = message_objs w
        ∧ reaction_objs w' = zeroed l (reaction_objs w).
Proof.
  revert w. induction l as [|r l IH]; intros w Hvalid; [by exists w|].
  destruct (Hvalid r) as [ro Hro]; [left|]. simpl.
  unfold mbind at 1, M_bind at 1. unfold mbind at 1, M_bind at 1, deref at 1.
  rewrite Hro. simpl.
  destruct (IH (set_reaction_objs (λ l0, <[r:=Reaction_with_count 0 ro]> l0) w))
    as (w' & Hrun & Hms & Hrs).
  { intros r' Hr'. simpl. apply lookup_lt_is_Some. rewrite length_insert.
    apply lookup_lt_is_Some, Hvalid. by right. }
  exists w'. rewrite Hrun. repeat apply conj; [done|done|].
  by rewrite Hrs.
Qed.

Lemma delete_all_reactions_step m :
  relates (reactions_step P) (StateRegistryImpl.delete_all_reactions m).
Proof.
  intros w. apply reactions_step_intro. intros Hinv.
  unfold StateRegistryImpl.delete_all_reactions.
  unfold mbind at 1, M_bind at 1, deref at 1.
  destruct (message_objs w !! m) as [mo|] eqn:Hmo; [|by apply reactions_step_same].
  destruct (zero_all_run (Message_reactions mo) w
              (reactions_counted_valid w m mo Hinv Hmo)) as (w' & Hrun & Hms & Hrs).
  unfold mbind at 1, M_bind at 1. rewrite Hrun. simpl.
  eapply (step_clear w _ m mo); [done| |done].
  simpl. by rewrite Hms.
Qed.

Lemma Message__init__step p : relates (reactions_step P) (messages.Message__init__ p).
Proof.
  intros w. unfold messages.Message__init__, alloc. simpl.
  eapply step_alloc_message; [|reflexivity|reflexivity]. reflexivity.
Qed.

Lemma parse_reaction_step p :
  P (rx_count p) → relates (reactions_step P) (StateRegistryImpl.parse_reaction p).
Proof.
  intros Hpos. unfold StateRegistryImpl.parse_reaction.
  apply relates_bind; [apply _| |intros message_obj].
  { relates_go fail ltac:(apply reactions_step_same; reflexivity). }
  apply relates_bind; [apply _| |intros emoji_obj].
  { relates_go fail ltac:(apply reactions_step_same; reflexivity). }
  destruct message_obj as [m|]; [|apply relates_ret; apply _].
  intros w. apply reactions_step_intro. intros Hinv.
  pose (new := {| Reaction_count := rx_count p; Reaction_emoji := emoji_obj;
                  Reaction_message := m |}).
  pose (w2 := set_reaction_objs (λ l, l ++ [new]) w).
  assert (H12 : reactions_step P w w2) by (by eapply (step_alloc_reaction w w2 new)).
  assert (Hinv2 : reactions_counted P w2) by (by apply H12).
  unfold reactions.Reaction__init__.
  unfold mbind at 1, M_bind at 1, alloc. fold new. fold w2.
  unfold mbind at 1, M_bind at 1, deref at 1.
  replace (reaction_objs w2 !! length (reaction_objs w)) with (Some new)
    by (simpl; by rewrite lookup_app_r, Nat.sub_diag by lia).
  unfold mbind at 1, M_bind at 1, deref at 1.
  destruct (message_objs w2 !! m) as [mo|] eqn:Hmo; [|done].
  unfold mbind at 1, M_bind at 1.
  destruct (reaction_scan_cases emoji_obj (Message_reactions mo) w2
              (reactions_counted_valid w2 m mo Hinv2 Hmo))
    as [Hnone|(l1 & r & l2 & ro & Hl & Hl1 & Hr & He)].
  - simpl. rewrite (first_with_emoji_none _ _ _ Hnone). unfold_M. simpl.
    by eapply (step_append_new w _ m mo new).
  - simpl. rewrite Hl, (first_with_emoji_some _ _ _ _ _ _ Hl1 Hr He). unfold_M.
    rewrite Hr. simpl. etrans; [exact H12|].
    eapply (step_set_count w2 _ r ro (rx_count p)); [done| |done|done|done].
    exists m, mo. split; [done|]. rewrite Hl. apply elem_of_app. right. left.
Qed.

Ltac reactions_known :=
  first [ apply increment_reaction_count_step | apply decrement_reaction_count_step
        | apply delete_reaction_step | apply delete_all_reactions_step
        | apply Message__init__step
        | apply parse_reaction_step; assumption ].

Lemma call_reactions_step c w : count_ok P c → reactions_step P w (call c w).2.
Proof.
  intros Hpos. revert w. apply (call_relates (reactions_step P)).
  destruct c; simpl in Hpos;
    relates_go reactions_known ltac:(apply reactions_step_same; reflexivity).
Qed.

Lemma after_reactions_step cs w :
  Forall (count_ok P) cs → reactions_step P w (after cs w).
Proof.
  intros Hpos. revert w. induction Hpos as [|c cs Hc _ IH]; intros w; [reflexivity|].
  simpl. etrans; [by apply call_reactions_step|apply IH].
Qed.

Lemma init_reactions_counted mc dc w0 :
  StateRegistryImpl.__init__ mc dc = Ok w0 → reactions_counted P w0.
Proof.
  unfold StateRegistryImpl.__init__, data_structures.LRUDict_init.
  destruct (decide (dc <= 0)); [done|]. destruct (decide (mc <= 0)); [done|].
  intros [= <-] m mo Hm. done.
Qed.

End reaction_steps.

Lemma count_closed_positive : count_closed (λ n, 1 ≤ n).
Proof. repeat apply conj; intros; lia. Qed.

Lemma count_closed_any : count_closed (λ _, True).
Proof. by repeat apply conj. Qed.

Lemma count_ok_any cs : Forall (count_ok (λ _, True)) cs.
Proof. apply Forall_forall. intros c _. by destruct c. Qed.

(** With a payload count of zero a reaction enters or stays in the list
    with count zero, and the next decrement takes it to -1 without removing
    it: the count of a listed reaction is negative in a reachable state. *)
Lemma reaction_count_negative :
  let w := after [parse_channel (channel_payload 9 1 None) None;
                  parse_message (message_payload 1 9);
                  parse_reaction (reaction_payload 1 0);
                  decrement_reaction_count 0 thumbsup] registry_2_2 in
  reachable 2 2 w ∧ ¬ counts_at_least 0 w.
Proof.
  intros w. split.
  - eexists registry_2_2, _. split; reflexivity.
  - intros H.
    destruct (H 0%nat {| Message_id := 1; Message_channel_id := 9;
                         Message_content := "hello"; Message_reactions := [0%nat] |}
                0%nat) as (ro & Hro & Hle).
    + vm_compute. reflexivity.
    + left.
    + vm_compute in Hro. injection Hro as <-. simpl in Hle. lia.
Qed.

(** C6, amended: along every history of calls whose reaction payloads carry
    a count of at least 1, every reaction held in a message's list has a
    count of at least 1, so never a negative one.  Along every history at
    all, a reaction that a later part of the history has taken out of every
    list has count exactly 0 from then on, and a reaction object that is in no
    list is never changed again. *)
Theorem reaction_counts_along_history
    (mc dc : Z) (w0 : World) (cs cs' : list Call) :
  StateRegistryImpl.__init__ mc dc = Ok w0 →
  (Forall positive_count cs → counts_at_least 1 (after cs w0))
  ∧ removed_is_zero (after cs w0) (after cs' (after cs w0))
  ∧ (∀ r ro, ¬ listed (after cs w0) r → reaction_objs (after cs w0) !! r = Some ro →
       reaction_objs (after cs' (after cs w0)) !! r = Some ro).
Proof.
  intros Hinit. split.
  - intros Hcs.
    destruct (after_reactions_step _ count_closed_positive cs w0 Hcs
                (init_reactions_counted _ _ _ _ Hinit)) as (Hinv & _ & _).
    intros m mo r Hm Hr. destruct (Hinv m mo Hm) as [_ Hall].
    destruct (Hall r Hr) as (ro & Hro & _ & Hpos). eauto.
  - destruct (after_reactions_step _ count_closed_any cs w0 (count_ok_any cs)
                (init_reactions_counted _ _ _ _ Hinit)) as (Hinv & _ & _).
    destruct (after_reactions_step _ count_closed_any cs' (after cs w0)
                (count_ok_any cs') Hinv) as (_ & Hrem & Hun).
    split; [exact Hrem|]. intros r ro Hn Hro. by destruct (Hun r ro Hn Hro).
Qed.

Lemma reaction_counts_along_history_witness :
  let w := after [parse_channel (channel_payload 9 1 None) None;
                  parse_message (message_payload 1 9);
                  parse_reaction (reaction_payload 1 2);
                  increment_reaction_count 0 heart] registry_2_2 in
  let w' := after [decrement_reaction_count 0 heart;
                   decrement_reaction_count 0 heart;
                   delete_reaction 0 thumbsup;
                   parse_reaction (reaction_payload 1 (-5))] w in
  counts_at_least 1 w ∧ removed_is_zero w w'.
Proof.
  intros w w'.
  destruct (reaction_counts_along_history 2 2 registry_2_2
              [parse_channel (channel_payload 9 1 None) None;
               parse_message (message_payload 1 9);
               parse_reaction (reaction_payload 1 2);
               increment_reaction_count 0 heart]
              [decrement_reaction_count 0 heart;
               decrement_reaction_count 0 heart;
               delete_reaction 0 thumbsup;
               parse_reaction (reaction_payload 1 (-5))])
    as (Hcount & Hrem & _).
  - reflexivity.
  - split; [|exact Hrem]. apply Hcount.
    repeat constructor; unfold positive_count; simpl; lia.
Defined.


(** ** Deleting what is absent, in general

    The deletions are no-ops on an absent entity; for an emoji and a role
    that is so as long as the guild that the entity names is still cached:
    without the guild, the two methods that find it through the registry
    raise. *)

Lemma delete_channel_absent c co w :
  channel_objs w !! c = Some co →
  _guild_channels w !! Channel_id co = None →
  data_structures.contains (Channel_id co) (_dm_channels w) = false →
  StateRegistryImpl.delete_channel c w = (Ok tt, w).
Proof.
  intros Hc Hg Hd. unfold StateRegistryImpl.delete_channel. unfold_M.
  rewrite Hc, Hg. rewrite decide_False by (by intros [? ?]). by rewrite Hd.
Qed.

Lemma delete_guild_absent g go w :
  guild_objs w !! g = Some go → _guilds w !! Guild_id go = None →
  StateRegistryImpl.delete_guild g w = (Ok tt, w).
Proof.
  intros Hg Hnone. unfold StateRegistryImpl.delete_guild, suppress, dict_del.
  unfold_M. by rewrite Hg, Hnone.
Qed.

Lemma delete_message_absent m mo w :
  message_objs w !! m = Some mo →
  data_structures.lru_find (Message_id mo) (data_structures.lru_data (_message_cache w))
  = None →
  StateRegistryImpl.delete_message m w = (Ok tt, w).
Proof.
  intros Hm Hnone.
  unfold StateRegistryImpl.delete_message, suppress, StateRegistryImpl.on_message_cache,
    data_structures.getitem.
  unfold_M. rewrite Hm, Hnone. simpl. by rewrite set_message_cache_same.
Qed.

Lemma delete_emoji_absent e eo g go w :
  emoji_objs w !! e = Some eo → _emojis w !! GuildEmoji_id eo = None →
  _guilds w !! GuildEmoji_guild_id eo = Some g → guild_objs w !! g = Some go →
  Guild_emojis go !! GuildEmoji_id eo = None →
  StateRegistryImpl.delete_emoji e w = (Ok tt, w).
Proof.
  intros He Hnone Hg Hgo Hnone'.
  unfold StateRegistryImpl.delete_emoji, emojis.guild, suppress, dict_del,
    StateRegistryImpl.self, StateRegistryImpl.get_guild_by_id.
  unfold_M. simpl. rewrite He, Hnone. simpl. rewrite He, Hg. simpl.
  by rewrite Hgo, Hnone'.
Qed.

Lemma delete_member_absent m mo go w :
  member_objs w !! m = Some mo → guild_objs w !! Member_guild mo = Some go →
  Guild_members go !! Member_id mo = None →
  StateRegistryImpl.delete_member m w = (Ok tt, w).
Proof.
  intros Hm Hgo Hnone.
  unfold StateRegistryImpl.delete_member, members.guild, suppress, dict_del.
  unfold_M. unfold_M. simpl. rewrite Hm. simpl. rewrite Hm. simpl.
  by rewrite Hgo, Hnone.
Qed.

Lemma delete_role_absent r ro g go w :
  role_objs w !! r = Some ro →
  _guilds w !! Role_guild_id ro = Some g → guild_objs w !! g = Some go →
  Guild_roles go !! Role_id ro = None →
  StateRegistryImpl.delete_role r w = (Ok tt, w).
Proof.
  intros Hr Hg Hgo Hnone.
  unfold StateRegistryImpl.delete_role, roles.guild, suppress, dict_del,
    StateRegistryImpl.self, StateRegistryImpl.get_guild_by_id.
  unfold_M. simpl. rewrite Hr. simpl. rewrite Hr, Hg. simpl.
  by rewrite Hgo, Hnone.
Qed.

Lemma delete_emoji_without_guild e eo w :
  emoji_objs w !! e = Some eo → _guilds w !! GuildEmoji_guild_id eo = None →
  (StateRegistryImpl.delete_emoji e w).1 = Raise AttributeError.
Proof.
  intros He Hg.
  unfold StateRegistryImpl.delete_emoji, emojis.guild, suppress, dict_del,
    StateRegistryImpl.self, StateRegistryImpl.get_guild_by_id.
  unfold_M. simpl. rewrite He.
  destruct (_emojis w !! GuildEmoji_id eo); simpl; rewrite He; simpl; by rewrite Hg.
Qed.

Lemma delete_role_without_guild r ro w :
  role_objs w !! r = Some ro → _guilds w !! Role_guild_id ro = None →
  (StateRegistryImpl.delete_role r w).1 = Raise AttributeError.
Proof.
  intros Hr Hg.
  unfold StateRegistryImpl.delete_role, roles.guild, suppress, dict_del,
    StateRegistryImpl.self, StateRegistryImpl.get_guild_by_id.
  unfold_M. simpl. rewrite Hr. simpl. by rewrite Hr, Hg.
Qed.

(** ** Deleting a role that the guild has *)

Lemma list_remove_None {A} `{EqDecision A} (x : A) l :
  x ∉ l → list_remove x l = None.
Proof.
  induction l as [|y l IH]; intros Hnot; [done|]. simpl.
  rewrite decide_False by (intros ->; apply Hnot; left).
  rewrite IH; [done|]. intros Hin. apply Hnot. by right.
Qed.

Lemma list_remove_Some {A} `{EqDecision A} (x : A) l :
  x ∈ l →
  ∃ l1 l2, l = l1 ++ x :: l2 ∧ (x ∉ l1) ∧ list_remove x l = Some (l1 ++ l2).
Proof.
  induction l as [|y l IH]; intros Hin; [by apply elem_of_nil in Hin|].
  destruct (decide (y = x)) as [->|Hne].
  - exists [], l. simpl. rewrite decide_True by done.
    repeat apply conj; [done|apply not_elem_of_nil|done].
  - apply elem_of_cons in Hin as [->|Hin]; [done|].
    destruct (IH Hin) as (l1 & l2 & -> & Hnot & Hrem).
    exists (y :: l1), l2. simpl. rewrite decide_False by done. rewrite Hrem.
    repeat apply conj; [done| |done].
    intros H'. apply elem_of_cons in H' as [->|H']; done.
Qed.

Lemma set_member_objs_same w : set_member_objs (λ _, member_objs w) w = w.
Proof. by destruct w. Qed.

Lemma strip_run role_obj ms w :
  (∀ m, m ∈ ms → is_Some (member_objs w !! m)) →
  forM_ (λ member,
           mo ← deref member_objs member;
           if decide (Some role_obj ∈ Member_roles mo) then
             match list_remove (Some role_obj) (Member_roles mo) with
             | Some l =>
                 assign set_member_objs member
                   (Member_with_roles l (Member_nick mo) mo)
             | None => raise ValueError
             end
           else mret tt) ms w
  = (Ok tt, set_member_objs (λ _, stripped role_obj ms (member_objs w)) w).
Proof.
  revert w. induction ms as [|m ms IH]; intros w Hvalid.
  - simpl. by rewrite set_member_objs_same.
  - destruct (Hvalid m) as [mo Hmo]; [left|]. simpl.
    unfold mbind at 1, M_bind at 1. unfold mbind at 1, M_bind at 1, deref at 1.
    rewrite Hmo.
    destruct (decide (Some role_obj ∈ Member_roles mo)) as [Hin|Hnot].
    + destruct (list_remove_Some _ _ Hin) as (l1 & l2 & _ & _ & ->).
      unfold assign, modify. rewrite IH.
      * simpl. done.
      * intros m' Hm'. simpl. apply lookup_lt_is_Some. rewrite length_insert.
        apply lookup_lt_is_Some, Hvalid. by right.
    + rewrite (list_remove_None _ _ Hnot). unfold mret, M_ret.
      apply IH. intros m' Hm'. apply Hvalid. by right.
Qed.

Lemma stripped_not_in role_obj ms st m : m ∉ ms → stripped role_obj ms st !! m = st !! m.
Proof.
  revert st. induction ms as [|m' ms IH]; intros st Hnot; [done|]. simpl.
  rewrite IH by (intros H; apply Hnot; by right).
  destruct (st !! m') as [mo'|] eqn:Hm'; [|done].
  destruct (list_remove _ _); [|done].
  rewrite list_lookup_insert_ne; [done|]. intros ->. apply Hnot. left.
Qed.

Lemma stripped_in role_obj ms st m mo :
  NoDup ms → m ∈ ms → st !! m = Some mo →
  stripped role_obj ms st !! m
  = Some match list_remove (Some role_obj) (Member_roles mo) with
         | Some l => Member_with_roles l (Member_nick mo) mo
         | None => mo
         end.
Proof.
  revert st. induction ms as [|m' ms IH]; intros st Hnd Hin Hmo;
    [by apply elem_of_nil in Hin|].
  apply NoDup_cons in Hnd as [Hm' Hnd]. simpl.
  apply elem_of_cons in Hin as [->|Hin].
  - rewrite Hmo, stripped_not_in by done.
    destruct (list_remove _ _); [|done].
    apply list_lookup_insert_eq. by eapply lookup_lt_Some.
  - assert (m ≠ m') by (by intros ->).
    destruct (st !! m') as [mo'|] eqn:Hmo'; [|by apply IH].
    destruct (list_remove _ (Member_roles mo')); [|by apply IH].
    apply IH; [done|done|]. by rewrite list_lookup_insert_ne.
Qed.

(** When the guild of the role is cached and its role table has the role,
    [delete_role] takes the role out of the table and strips it from the
    members of the guild; members that do not hold it, and members of other
    guilds, are left as they are. *)
Lemma delete_role_cascade r ro g go w :
  role_objs w !! r = Some ro →
  _guilds w !! Role_guild_id ro = Some g → guild_objs w !! g = Some go →
  is_Some (Guild_roles go !! Role_id ro) →
  (∀ m, m ∈ values (Guild_members go) → is_Some (member_objs w !! m)) →
  StateRegistryImpl.delete_role r w
  = (Ok tt,
     set_member_objs (λ _, stripped r (values (Guild_members go)) (member_objs w))
       (set_guild_objs
          (λ l, <[g := Guild_with_roles (λ _, delete (Role_id ro) (Guild_roles go)) go]> l)
          w)).
Proof.
  intros Hr Hg Hgo [x Hx] Hvalid.
  unfold StateRegistryImpl.delete_role, roles.guild, suppress, dict_del,
    StateRegistryImpl.self, StateRegistryImpl.get_guild_by_id.
  unfold mbind at 1, M_bind at 1, deref at 1. rewrite Hr.
  unfold mbind at 1, M_bind at 1. unfold mbind at 1, M_bind at 1, deref at 1.
  rewrite Hr. cbn [state_registry.get_guild_by_id]. unfold gets. rewrite Hg.
  unfold mbind at 1, M_bind at 1, not_None, mret, M_ret.
  unfold mbind at 1, M_bind at 1, deref at 1. rewrite Hgo.
  unfold mbind at 1, M_bind at 1, StateRegistryImpl.lift. rewrite Hx.
  unfold mret, M_ret.
  unfold mbind at 1, M_bind at 1, assign, modify.
  rewrite strip_run; [done|]. intros m Hm. simpl. by apply Hvalid.
Qed.

(** * Further properties of the embedded code *)

(** ** Parts of the world that a method leaves alone *)

#[global] Instance same_preorder {A} (part : World → A) : PreOrder (same part).
Proof.
  split; unfold same.
  - by intros w.
  - intros w1 w2 w3 H12 H23. by rewrite H23.
Qed.

Section relates_more.
Context (R : relation World) `{!PreOrder R}.

(** The continuation of a [deref] runs in a world that has the object. *)
Lemma relates_bind_deref {A B} (store : World → list A) r (f : A → M B) :
  (∀ o w, store w !! r = Some o → R w (f o w).2) →
  relates R (deref store r ≫= f).
Proof.
  intros H w. unfold mbind, M_bind, deref.
  destruct (store w !! r) as [o|] eqn:Ho; [by apply H|]. simpl. reflexivity.
Qed.

End relates_more.

(** ** Channels keep their identity *)

#[global] Instance channels_identity_kept_preorder : PreOrder channels_identity_kept.
Proof.
  split.
  - intros w c co Hc. by exists co.
  - intros w1 w2 w3 H12 H23 c co Hc.
    destruct (H12 c co Hc) as (co2 & Hc2 & Hcls2 & Hid2 & Hg2).
    destruct (H23 c co2 Hc2) as (co3 & Hc3 & Hcls3 & Hid3 & Hg3).
    exists co3. split; [done|]. unfold same_identity. by rewrite Hcls3, Hid3, Hg3.
Qed.

Lemma GuildChannel_update_state_guild_id p gc :
  gc_guild_id (channels.GuildChannel_update_state p gc).1 = gc_guild_id gc.
Proof.
  unfold channels.GuildChannel_update_state.
  by destruct (cp_position p), (cp_permission_overwrites p), (cp_name p).
Qed.

Ltac same_write := unfold same; reflexivity.

Lemma parse_user_same_channel_objs p :
  relates (same channel_objs) (StateRegistryImpl.parse_user p).
Proof. relates_go fail same_write. Qed.

(** One channel object is rewritten with its identity kept. *)
Lemma identity_kept_insert w w' self co co' :
  channel_objs w !! self = Some co → same_identity co co' →
  channel_objs w' = <[self := co']> (channel_objs w) →
  channels_identity_kept w w'.
Proof.
  intros Hself Hsame Hobjs c co0 Hc. rewrite Hobjs.
  destruct (decide (c = self)) as [->|Hne].
  - rewrite list_lookup_insert_eq by (by eapply lookup_lt_Some).
    exists co'. split; [done|]. rewrite Hself in Hc. by injection Hc as <-.
  - rewrite list_lookup_insert_ne by done. by exists co0.
Qed.

Lemma identity_kept_same w w' :
  channel_objs w' = channel_objs w → channels_identity_kept w w'.
Proof. intros H c co Hc. rewrite H. by exists co. Qed.

Lemma update_state_identity_kept self p :
  relates channels_identity_kept (channels.update_state StateRegistryImpl.self self p).
Proof.
  unfold channels.update_state. apply relates_bind_deref; [apply _|].
  intros co w Hco.
  assert (Hguild : ∀ (mk : GuildChannelSlots → Channel) gc,
            co = mk gc →
            (∀ gc', gc_guild_id gc' = gc_guild_id gc → same_identity co (mk gc')) →
            channels_identity_kept w
              (set_channel_objs (λ l, <[self := mk (channels.GuildChannel_update_state p gc).1]> l) w)).
  { intros mk gc -> Hmk.
    eapply identity_kept_insert; [done| |done].
    apply Hmk, GuildChannel_update_state_guild_id. }
  assert (Hdm : ∀ (mk : DMChannelSlots → Channel) dm,
            co = mk dm → (∀ dm' dm'', same_identity (mk dm') (mk dm'')) →
            ∀ r w', channels.DMChannel_update_state StateRegistryImpl.self p mk self dm w
                    = (r, w') →
            channels_identity_kept w w'
            ∧ match r with
              | Ok dm' => channel_objs w' !! self = Some (mk dm')
              | Raise _ => True
              end).
  { intros mk dm -> Hmk r w'. unfold channels.DMChannel_update_state.
    unfold channels.set_channel, assign, modify.
    unfold mbind at 1, M_bind at 1.
    set (w1 := set_channel_objs _ w).
    assert (H1 : channels_identity_kept w w1).
    { eapply identity_kept_insert; [done|apply Hmk|done]. }
    assert (Hlen : (self < length (channel_objs w))%nat) by (by eapply lookup_lt_Some).
    unfold mbind at 1, M_bind at 1.
    cbn [state_registry.parse_user StateRegistryImpl.self].
    pose proof (relates_mapM (same channel_objs) StateRegistryImpl.parse_user
                  (default [] (cp_recipients p)) parse_user_same_channel_objs w1) as Hframe.
    destruct (mapM StateRegistryImpl.parse_user (default [] (cp_recipients p)) w1)
      as [[rs|e] w2]; unfold same in Hframe; simpl in Hframe.
    - unfold mbind, M_bind, mret, M_ret. intros [= <- <-]. split.
      + etrans; [exact H1|].
        etrans; [apply (identity_kept_same w1 w2); exact Hframe|].
        eapply (identity_kept_insert w2 _ self _ _); [|apply Hmk|done].
        rewrite Hframe. by apply list_lookup_insert_eq.
      + simpl. rewrite Hframe. apply list_lookup_insert_eq.
        by rewrite length_insert.
    - intros [= <- <-]. split; [|done].
      etrans; [exact H1|]. by apply identity_kept_same. }
  destruct co as [i gc t r l n|i dm|i gc b u|i dm ic n oa o|i gc|i gc t l n|i gc].
  - pose proof (Hguild (λ g, GuildTextChannel i g t r l n) gc eq_refl) as H.
    destruct (channels.GuildChannel_update_state p gc) as [gc' [[]|e]] eqn:Hup;
      simpl in *.
    + eapply (identity_kept_insert _ _ _ _ _ Hco); [|simpl; reflexivity].
      pose proof (GuildChannel_update_state_guild_id p gc) as Hg. rewrite Hup in Hg.
      simpl in Hg. unfold same_identity. simpl. by rewrite Hg.
    + apply H. intros gc'' Hg. unfold same_identity. simpl. by rewrite Hg.
  - destruct (channels.DMChannel_update_state StateRegistryImpl.self p (DMChannel i) self dm w)
      as [r w'] eqn:Hrun.
    destruct (Hdm (DMChannel i) dm eq_refl (λ _ _, ltac:(done)) r w' Hrun) as [H _].
    unfold mbind, M_bind. rewrite Hrun. by destruct r.
  - pose proof (Hguild (λ g, GuildVoiceChannel i g b u) gc eq_refl) as H.
    destruct (channels.GuildChannel_update_state p gc) as [gc' [[]|e]] eqn:Hup;
      simpl in *.
    + eapply (identity_kept_insert _ _ _ _ _ Hco); [|simpl; reflexivity].
      pose proof (GuildChannel_update_state_guild_id p gc) as Hg. rewrite Hup in Hg.
      simpl in Hg. unfold same_identity. simpl. by rewrite Hg.
    + apply H. intros gc'' Hg. unfold same_identity. simpl. by rewrite Hg.
  - destruct (channels.DMChannel_update_state StateRegistryImpl.self p
                (λ d, GroupDMChannel i d ic n oa o) self dm w) as [r w'] eqn:Hrun.
    destruct (Hdm (λ d, GroupDMChannel i d ic n oa o) dm eq_refl (λ _ _, ltac:(done)) r w' Hrun)
      as [H Hobj].
    unfold mbind, M_bind. rewrite Hrun. destruct r as [dm'|e]; [|done].
    simpl. etrans; [exact H|].
    eapply (identity_kept_insert _ _ _ _ _ Hobj); [|simpl; reflexivity]. done.
  - pose proof (Hguild (λ g, GuildCategory i g) gc eq_refl) as H.
    destruct (channels.GuildChannel_update_state p gc) as [gc' res] eqn:Hup.
    simpl in H. unfold mbind, M_bind, channels.set_channel, assign, modify.
    assert (Hk : channels_identity_kept w
                   (set_channel_objs (λ l, <[self:=GuildCategory i gc']> l) w)).
    { apply H. intros gc'' Hg. unfold same_identity. simpl. by rewrite Hg. }
    by destruct res.
  - pose proof (Hguild (λ g, GuildNewsChannel i g t l n) gc eq_refl) as H.
    destruct (channels.GuildChannel_update_state p gc) as [gc' [[]|e]] eqn:Hup;
      simpl in *.
    + eapply (identity_kept_insert _ _ _ _ _ Hco); [|simpl; reflexivity].
      pose proof (GuildChannel_update_state_guild_id p gc) as Hg. rewrite Hup in Hg.
      simpl in Hg. unfold same_identity. simpl. by rewrite Hg.
    + apply H. intros gc'' Hg. unfold same_identity. simpl. by rewrite Hg.
  - pose proof (Hguild (λ g, GuildStoreChannel i g) gc eq_refl) as H.
    destruct (channels.GuildChannel_update_state p gc) as [gc' res] eqn:Hup.
    simpl in H. unfold mbind, M_bind, channels.set_channel, assign, modify.
    assert (Hk : channels_identity_kept w
                   (set_channel_objs (λ l, <[self:=GuildStoreChannel i gc']> l) w)).
    { apply H. intros gc'' Hg. unfold same_identity. simpl. by rewrite Hg. }
    by destruct res.
Qed.

Lemma Channel_set_last_message_id_identity v co co' :
  Channel_set_last_message_id v co = Some co' → same_identity co co'.
Proof. destruct co; simpl; intros [= <-]; done. Qed.

Ltac identity_write :=
  first [ apply identity_kept_same; reflexivity
        | intros ? ? ?; eexists; split; [simpl; by apply lookup_app_l_Some|done] ].

Lemma parse_message_identity_kept p :
  relates channels_identity_kept (StateRegistryImpl.parse_message p).
Proof.
  unfold StateRegistryImpl.parse_message.
  apply relates_bind; [apply _|relates_go fail identity_write|intros ch].
  destruct ch as [ch|]; [|apply relates_ret; apply _].
  apply relates_bind; [apply _|relates_go fail identity_write|intros m].
  apply relates_bind; [apply _|relates_go fail identity_write|intros ch'].
  apply relates_bind; [apply _|relates_go fail identity_write|intros c].
  apply relates_bind_deref; [apply _|]. intros co w Hco.
  destruct (Channel_set_last_message_id (Some (msg_id p)) co) as [co'|] eqn:Hset.
  - unfold_M. simpl.
    eapply (identity_kept_insert _ _ _ _ _ Hco); [|simpl; reflexivity].
    by eapply Channel_set_last_message_id_identity.
  - simpl. reflexivity.
Qed.

Ltac identity_known :=
  first [ apply update_state_identity_kept | apply parse_message_identity_kept ].

Lemma call_keeps_channel_identity c w : channels_identity_kept w (call c w).2.
Proof.
  revert w. apply (call_relates channels_identity_kept).
  destruct c; relates_go identity_known identity_write.
Qed.

Lemma after_relates (R : relation World) `{!PreOrder R} cs w :
  (∀ c w, R w (call c w).2) → R w (after cs w).
Proof.
  intros Hstep. revert w. induction cs as [|c cs IH]; intros w; [reflexivity|].
  simpl. etrans; [apply Hstep|apply IH].
Qed.

(** X1: no history of calls changes what a channel object is: after any
    calls the object is still in its store with the class, the id and the
    guild id it had, whatever payloads were applied to it and whether or not
    the calls raised. *)
Theorem channel_identity_is_stable (cs : list Call) (w : World) (c : ref) (co : Channel) :
  channel_objs w !! c = Some co →
  ∃ co', channel_objs (after cs w) !! c = Some co'
         ∧ Channel_class co' = Channel_class co
         ∧ Channel_id co' = Channel_id co
         ∧ Channel_guild_id co' = Channel_guild_id co.
Proof.
  intros Hc.
  exact (after_relates channels_identity_kept cs w call_keeps_channel_identity c co Hc).
Qed.

Lemma channel_identity_is_stable_witness :
  let w := after [parse_guild (guild_payload 6);
                  parse_channel (channel_payload 1 0 None) (Some 0%nat)] registry_2_2 in
  ∃ co', channel_objs
           (after [parse_channel (channel_payload 1 5 (Some 8)) None;
                   parse_message (message_payload 3 1);
                   delete_channel 0] w) !! 0%nat = Some co'
         ∧ Channel_class co' = channels.GuildTextChannelCls
         ∧ Channel_id co' = 1
         ∧ Channel_guild_id co' = Some 6.
Proof.
  intros w.
  apply (channel_identity_is_stable _ w 0%nat
           (GuildTextChannel 1
              {| gc_guild_id := 6; gc_position := 0; gc_permission_overwrites := [];
                 gc_name := "general"; gc_parent_id := None |} None 0 None false)).
  vm_compute. reflexivity.
Defined.

(** ** Parsing a channel *)

Lemma bind_run {A B} (c : M A) (f : A → M B) w :
  (c ≫= f) w = match c w with
               | (Ok a, w') => f a w'
               | (Raise e, w') => (Raise e, w')
               end.
Proof. reflexivity. Qed.

#[global] Instance channels_and_users_only_preorder : PreOrder channels_and_users_only.
Proof.
  split.
  - intros w. by repeat apply conj.
  - intros w1 w2 w3 H12 H23. unfold channels_and_users_only in *.
    destruct H12 as (?&?&?&?&?&?&?&?&?&?&?), H23 as (?&?&?&?&?&?&?&?&?&?&?).
    repeat apply conj; congruence.
Qed.

Ltac only_write := unfold channels_and_users_only; repeat apply conj; reflexivity.

Lemma update_state_channels_and_users_only self p :
  relates channels_and_users_only (channels.update_state StateRegistryImpl.self self p).
Proof. relates_go fail only_write. Qed.

Lemma channels_parse_channel_only p :
  relates channels_and_users_only (channels.parse_channel StateRegistryImpl.self p).
Proof. relates_go fail only_write. Qed.

(** What [channels.parse_channel] returns when it returns: a new object of
    the class named by the payload's type, with the payload's id, and with
    the payload's guild id unless the class is a DM class. *)
Lemma channels_parse_channel_post p w c w1 :
  channels.parse_channel StateRegistryImpl.self p w = (Ok c, w1) →
  c = length (channel_objs w)
  ∧ ∃ t cls co, cp_type p = Some t ∧ channels._channel_implementations t = Some cls
                ∧ channel_objs w1 !! c = Some co ∧ Channel_class co = cls
                ∧ Channel_id co = cp_id p
                ∧ Channel_guild_id co = if channels.is_dm cls then None else cp_guild_id p.
Proof.
  unfold channels.parse_channel.
  destruct (cp_type p) as [t|] eqn:Ht; [|done]. simpl.
  destruct (channels._channel_implementations t) as [cls|] eqn:Hcls; [|done].
  unfold channels.Channel__init__.
  assert (Hnew : ∀ new,
    Channel_class new = cls → Channel_id new = cp_id p →
    Channel_guild_id new = (if channels.is_dm cls then None else cp_guild_id p) →
    (self ← alloc channel_objs set_channel_objs new;
     channels.update_state StateRegistryImpl.self self p;; mret self) w = (Ok c, w1) →
    c = length (channel_objs w)
    ∧ ∃ co, channel_objs w1 !! c = Some co ∧ Channel_class co = cls
            ∧ Channel_id co = cp_id p
            ∧ Channel_guild_id co = if channels.is_dm cls then None else cp_guild_id p).
  { intros new Hc Hi Hg. rewrite bind_run. unfold alloc.
    set (w0 := set_channel_objs _ w). rewrite bind_run.
    pose proof (update_state_identity_kept (length (channel_objs w)) p w0
                  (length (channel_objs w)) new) as Hkept.
    destruct (channels.update_state _ _ p w0) as [[[]|e] w2]; [|done].
    intros [= <- <-]. split; [done|].
    destruct Hkept as (co & Hco & Hc' & Hi' & Hg').
    { unfold w0. simpl. by rewrite lookup_app_r, Nat.sub_diag by lia. }
    exists co. simpl in Hco. by rewrite Hc', Hi', Hg'. }
  intros Hrun.
  assert (Hgoal : c = length (channel_objs w)
    ∧ ∃ co, channel_objs w1 !! c = Some co ∧ Channel_class co = cls
            ∧ Channel_id co = cp_id p
            ∧ Channel_guild_id co = if channels.is_dm cls then None else cp_guild_id p).
  { rewrite bind_run in Hrun.
    destruct cls; simpl in Hrun;
      try (destruct (cp_guild_id p) as [g|] eqn:Hg; simpl in Hrun; [|done]);
      (eapply Hnew; [| | |exact Hrun]; simpl; done). }
  destruct Hgoal as [Hc (co & Hco)]. split; [done|]. by exists t, cls, co.
Qed.

Section channel_parsing.
Import data_structures.


Lemma get_channel_by_id_run channel_id w :
  ∃ d, StateRegistryImpl.get_channel_by_id channel_id w
       = (Ok (resolve_channel channel_id w), set_dm_channels (λ _, d) w)
       ∧ lru_size d = lru_size (_dm_channels w)
       ∧ lru_find channel_id (lru_data d) = lru_find channel_id (lru_data (_dm_channels w))
       ∧ (resolve_channel channel_id w = None → d = _dm_channels w).
Proof.
  unfold StateRegistryImpl.get_channel_by_id, StateRegistryImpl.on_dm_channels,
    resolve_channel.
  unfold_M.
  destruct (_guild_channels w !! channel_id) as [c|] eqn:Hg.
  - exists (_dm_channels w). by rewrite set_dm_channels_same.
  - destruct (lru_find channel_id (lru_data (_dm_channels w))) as [c|] eqn:Hd.
    + rewrite (get_present _ _ _ Hd). eexists; split; [done|]. simpl.
      by rewrite lru_find_refreshed.
    + rewrite (get_absent _ _ Hd). exists (_dm_channels w). done.
Qed.

Lemma lru_find_tail_without k x rest data :
  lru_without k data = x :: rest → lru_find k rest = None.
Proof.
  intros Heq. pose proof (lru_find_without_eq k data) as Hnone.
  rewrite Heq in Hnone. simpl in Hnone. by destruct (decide (x.1 = k)).
Qed.

(** With room for at least one entry, what was just stored is found. *)
Lemma lru_find_setitem k v d :
  0 < lru_size d → lru_find k (lru_data (setitem k v d)) = Some v.
Proof.
  intros Hsize. unfold setitem. simpl.
  destruct (decide _) as [Hfull|_]; [|apply lru_find_refreshed].
  destruct (lru_without k (lru_data d)) as [|x rest] eqn:Hw.
  - simpl in Hfull. lia.
  - simpl. rewrite lru_find_app, (lru_find_tail_without _ _ _ _ Hw). simpl.
    by rewrite decide_True.
Qed.

Lemma ret_run {A} (a : A) w : (mret a : M A) w = (Ok a, w).
Proof. reflexivity. Qed.

(** With a guild object given, [parse_channel] is [parse_channel] on the
    payload with [guild_id] overwritten, and no guild object given. *)
Lemma parse_channel_with_guild p g go w :
  guild_objs w !! g = Some go →
  StateRegistryImpl.parse_channel p (Some g) w
  = StateRegistryImpl.parse_channel (cp_set_guild_id (Guild_id go) p) None w.
Proof.
  intros Hgo. unfold StateRegistryImpl.parse_channel.
  assert (Hid : cp_id (cp_set_guild_id (Guild_id go) p) = cp_id p) by done.
  rewrite Hid, !bind_run.
  destruct (get_channel_by_id_run (cp_id p) w) as (d & -> & _).
  rewrite !bind_run. unfold deref. simpl. rewrite Hgo. reflexivity.
Qed.


(** The creation path of [parse_channel], when it returns. *)
Lemma parse_channel_fresh_Ok p w c w' :
  resolve_channel (cp_id p) w = None →
  StateRegistryImpl.parse_channel p None w = (Ok c, w') →
  ∃ t cls co w1,
    cp_type p = Some t ∧ channels._channel_implementations t = Some cls
    ∧ channels_and_users_only w w1
    ∧ c = length (channel_objs w)
    ∧ channel_objs w1 !! c = Some co ∧ Channel_class co = cls
    ∧ Channel_id co = cp_id p
    ∧ if channels.is_dm cls then
        w' = set_dm_channels (data_structures.setitem (cp_id p) c) w1
      else
        ∃ guild_id g go,
          cp_guild_id p = Some guild_id ∧ Channel_guild_id co = Some guild_id
          ∧ _guilds w !! guild_id = Some g ∧ guild_objs w !! g = Some go
          ∧ w' = set_guild_objs
                   (λ l, <[g := Guild_with_channels (λ d, <[cp_id p := c]> d) go]> l)
                   (set_guild_channels (λ d, <[cp_id p := c]> d) w1).
Proof.
  intros Hres. unfold StateRegistryImpl.parse_channel. rewrite bind_run.
  destruct (get_channel_by_id_run (cp_id p) w) as (d & -> & _ & _ & Hd).
  rewrite (Hd Hres), set_dm_channels_same, Hres. rewrite bind_run, ret_run, bind_run.
  pose proof (channels_parse_channel_only p w) as Honly.
  destruct (channels.parse_channel StateRegistryImpl.self p w) as [[c1|e] w1] eqn:Hrun;
    [|done].
  simpl in Honly.
  destruct (channels_parse_channel_post _ _ _ _ Hrun)
    as (Hc1 & t & cls & co & Ht & Hcls & Hco & Hclass & Hid & Hguild).
  rewrite Ht. unfold subscript. rewrite bind_run, ret_run.
  unfold channels.is_channel_type_dm. rewrite Hcls.
  rewrite bind_run.
  destruct (channels.is_dm cls) eqn:Hdm.
  - unfold modify. rewrite ret_run. intros [= <- <-].
    exists t, cls, co, w1. rewrite Hdm.
    repeat (split; [first [exact Honly|done]|]). done.
  - rewrite bind_run. unfold modify at 1.
    set (w2 := set_guild_channels _ w1).
    rewrite bind_run. unfold channels.guild. rewrite bind_run. unfold deref at 1.
    replace (channel_objs w2) with (channel_objs w1) by done. rewrite Hco.
    destruct (cp_guild_id p) as [guild_id|] eqn:Hgid;
      rewrite Hguild; [|done].
    cbn [state_registry.get_guild_by_id StateRegistryImpl.self].
    unfold StateRegistryImpl.get_guild_by_id, gets.
    pose proof Honly as (_ & _ & Hguilds & _ & _ & Hgobjs & _).
    replace (_guilds w2) with (_guilds w) by (by rewrite <- Hguilds).
    destruct (_guilds w !! guild_id) as [g|] eqn:Hg; [|done].
    unfold not_None. rewrite bind_run, ret_run, bind_run. unfold deref.
    replace (guild_objs w2) with (guild_objs w) by (by rewrite <- Hgobjs).
    destruct (guild_objs w !! g) as [go|] eqn:Hgo; [|done].
    unfold assign, modify. rewrite ret_run. intros [= <- <-].
    exists t, cls, co, w1. rewrite Hdm.
    repeat (split; [first [exact Honly|done]|]).
    by exists guild_id, g, go.
Qed.

(** The creation path of [parse_channel], when it raises: either nothing
    but channel objects and users changed, or the channel went into the
    weak index and its guild could not be reached. *)
Lemma parse_channel_fresh_Raise p w e w' :
  resolve_channel (cp_id p) w = None →
  StateRegistryImpl.parse_channel p None w = (Raise e, w') →
  channels_and_users_only w w'
  ∨ (e = AttributeError ∨ e = DanglingReference).
Proof.
  intros Hres. unfold StateRegistryImpl.parse_channel. rewrite bind_run.
  destruct (get_channel_by_id_run (cp_id p) w) as (d & -> & _ & _ & Hd).
  rewrite (Hd Hres), set_dm_channels_same, Hres. rewrite bind_run, ret_run, bind_run.
  pose proof (channels_parse_channel_only p w) as Honly.
  destruct (channels.parse_channel StateRegistryImpl.self p w) as [[c1|e1] w1] eqn:Hrun.
  2:{ intros [= <- <-]. by left. }
  destruct (channels_parse_channel_post _ _ _ _ Hrun)
    as (Hc1 & t & cls & co & Ht & Hcls & Hco & Hclass & Hid & Hguild).
  rewrite Ht. unfold subscript. rewrite bind_run, ret_run.
  unfold channels.is_channel_type_dm. rewrite Hcls.
  rewrite bind_run.
  destruct (channels.is_dm cls) eqn:Hdm; [done|].
  rewrite bind_run. unfold modify at 1.
  set (w2 := set_guild_channels _ w1).
  rewrite bind_run. unfold channels.guild. rewrite bind_run. unfold deref at 1.
  replace (channel_objs w2) with (channel_objs w1) by done. rewrite Hco.
  destruct (cp_guild_id p) as [guild_id|] eqn:Hgid; rewrite Hguild.
  2:{ unfold raise. intros [= <- <-]. right. by left. }
  cbn [state_registry.get_guild_by_id StateRegistryImpl.self].
  unfold StateRegistryImpl.get_guild_by_id, gets.
  destruct (_guilds w2 !! guild_id) as [g|] eqn:Hg.
  2:{ unfold not_None, raise. rewrite bind_run. intros [= <- <-]. right. by left. }
  unfold not_None. rewrite bind_run, ret_run, bind_run. unfold deref.
  destruct (guild_objs w2 !! g) as [go|] eqn:Hgo; [done|].
  intros [= <- <-]. right. by right.
Qed.

Lemma parse_channel_dangling_guild p g w :
  guild_objs w !! g = None →
  (StateRegistryImpl.parse_channel p (Some g) w).1 = Raise DanglingReference.
Proof.
  intros Hg. unfold StateRegistryImpl.parse_channel. rewrite bind_run.
  destruct (get_channel_by_id_run (cp_id p) w) as (d & -> & _).
  rewrite !bind_run. unfold deref. simpl. by rewrite Hg.
Qed.

(** The update path of [parse_channel]. *)
Lemma parse_channel_cached p w c :
  resolve_channel (cp_id p) w = Some c →
  ∃ d, lru_size d = lru_size (_dm_channels w)
       ∧ lru_find (cp_id p) (lru_data d) = lru_find (cp_id p) (lru_data (_dm_channels w))
       ∧ StateRegistryImpl.parse_channel p None w
         = match channels.update_state StateRegistryImpl.self c p
                   (set_dm_channels (λ _, d) w) with
           | (Ok _, w') => (Ok c, w')
           | (Raise e, w') => (Raise e, w')
           end.
Proof.
  intros Hres. unfold StateRegistryImpl.parse_channel. rewrite bind_run.
  destruct (get_channel_by_id_run (cp_id p) w) as (d & -> & Hsize & Hfind & _).
  exists d. repeat (split; [done|]).
  rewrite Hres, bind_run, ret_run, bind_run.
  by destruct (channels.update_state _ _ _ _) as [[[]|e] w'].
Qed.

(** Either the guild object given does not exist, or the call is the call
    without a guild object on a payload with the same id and type. *)
Lemma parse_channel_guild_cases p g w :
  (∃ g0, g = Some g0 ∧ (StateRegistryImpl.parse_channel p g w).1 = Raise DanglingReference)
  ∨ ∃ p', cp_id p' = cp_id p ∧ cp_type p' = cp_type p
          ∧ cp_guild_id p' = match g ≫= (guild_objs w !!.) with
                             | Some go => Some (Guild_id go)
                             | None => cp_guild_id p
                             end
          ∧ StateRegistryImpl.parse_channel p g w
            = StateRegistryImpl.parse_channel p' None w.
Proof.
  destruct g as [g|]; [|right; by exists p].
  destruct (guild_objs w !! g) as [go|] eqn:Hgo.
  - right. exists (cp_set_guild_id (Guild_id go) p). simpl. rewrite Hgo.
    repeat (split; [done|]). by apply parse_channel_with_guild.
  - left. exists g. split; [done|]. by apply parse_channel_dangling_guild.
Qed.

(** X2: a channel that [parse_channel] returns is the channel that
    [get_channel_by_id] finds under the id of the payload right after,
    whether the channel was created or updated, and whatever its kind, in
    a registry whose DM index has room for at least one channel. *)
Theorem parse_channel_then_get_channel_by_id
    (p : ChannelPayload) (guild_obj : option ref) (w w' : World) (c : ref) :
  0 < lru_size (_dm_channels w) →
  StateRegistryImpl.parse_channel p guild_obj w = (Ok c, w') →
  (StateRegistryImpl.get_channel_by_id (cp_id p) w').1 = Ok (Some c).
Proof.
  intros Hsize Hrun.
  destruct (get_channel_by_id_run (cp_id p) w') as (d' & -> & _). simpl. f_equal.
  destruct (parse_channel_guild_cases p guild_obj w)
    as [(g0 & _ & Hraise)|(p' & Hid & _ & _ & Heq)].
  { by rewrite Hrun in Hraise. }
  rewrite Heq in Hrun. rewrite <- Hid. clear Heq Hid p. rename p' into p.
  destruct (resolve_channel (cp_id p) w) as [c0|] eqn:Hres.
  - destruct (parse_channel_cached _ _ _ Hres) as (d & _ & Hfind & Heq).
    rewrite Heq in Hrun.
    pose proof (update_state_channels_and_users_only c0 p (set_dm_channels (λ _, d) w))
      as (Hdm & _ & _ & Hgc & _).
    destruct (channels.update_state _ _ _ _) as [[[]|e] w2]; [|done].
    injection Hrun as <- <-. simpl in Hdm, Hgc.
    unfold resolve_channel in *. by rewrite Hgc, Hdm, Hfind.
  - destruct (parse_channel_fresh_Ok _ _ _ _ Hres Hrun)
      as (t & cls & co & w1 & _ & _ & Honly & _ & _ & _ & _ & Hw').
    destruct Honly as (Hdm & _ & _ & Hgc & _).
    unfold resolve_channel in *.
    destruct (channels.is_dm cls).
    + subst w'. simpl. rewrite Hgc, Hdm.
      destruct (_guild_channels w !! cp_id p); [done|].
      by apply lru_find_setitem.
    + destruct Hw' as (guild_id & g & go & _ & _ & _ & _ & ->). simpl.
      by rewrite lookup_insert_eq.
Qed.

Lemma parse_channel_then_get_channel_by_id_witness :
  let w := after [parse_guild (guild_payload 6)] registry_2_2 in
  let p := channel_payload 1 0 (Some 6) in
  0 < lru_size (_dm_channels w)
  ∧ (StateRegistryImpl.get_channel_by_id 1
       (StateRegistryImpl.parse_channel p None w).2).1 = Ok (Some 0%nat).
Proof.
  intros w p. split; [reflexivity|].
  apply (parse_channel_then_get_channel_by_id p None w); [reflexivity|].
  vm_compute. reflexivity.
Defined.

(** X3: when [parse_channel] creates a channel of a guild kind and returns,
    the new object is in both views under the id of the payload: in the
    weak channel index and in the channel collection of the guild that is
    cached under the guild id of the channel; the DM index is untouched.
    The guild id is that of the guild object given, when one is given, else
    the one of the payload. *)
Theorem parse_channel_guild_kind_in_both_views
    (p : ChannelPayload) (guild_obj : option ref) (w w' : World) (c : ref) (t : Z) :
  resolve_channel (cp_id p) w = None →
  cp_type p = Some t → channels.is_channel_type_dm t = false →
  StateRegistryImpl.parse_channel p guild_obj w = (Ok c, w') →
  ∃ co guild_id g go,
    channel_objs w' !! c = Some co ∧ Channel_id co = cp_id p
    ∧ Channel_guild_id co = Some guild_id
    ∧ Some guild_id = match guild_obj ≫= (guild_objs w !!.) with
                      | Some go0 => Some (Guild_id go0)
                      | None => cp_guild_id p
                      end
    ∧ _guild_channels w' !! cp_id p = Some c
    ∧ _guilds w' !! guild_id = Some g ∧ guild_objs w' !! g = Some go
    ∧ Guild_channels go !! cp_id p = Some c
    ∧ _dm_channels w' = _dm_channels w.
Proof.
  intros Hres Ht Hkind Hrun.
  destruct (parse_channel_guild_cases p guild_obj w)
    as [(g0 & _ & Hraise)|(p' & Hid & Ht' & Hgid' & Heq)].
  { by rewrite Hrun in Hraise. }
  rewrite Heq in Hrun. rewrite <- Hid in Hres |- *. rewrite <- Ht' in Ht.
  rewrite <- Hgid'. clear Heq Hid Ht' Hgid'.
  destruct (parse_channel_fresh_Ok _ _ _ _ Hres Hrun)
    as (t' & cls & co & w1 & Ht'' & Hcls & Honly & _ & Hco & _ & Hcid & Hw').
  rewrite Ht in Ht''. injection Ht'' as <-.
  unfold channels.is_channel_type_dm in Hkind. rewrite Hcls in Hkind. rewrite Hkind in Hw'.
  destruct Hw' as (guild_id & g & go & Hgid & Hcgid & Hg & Hgo & ->).
  destruct Honly as (Hdm & _ & Hguilds & _ & _ & Hgobjs & _).
  exists co, guild_id, g, (Guild_with_channels (λ d, <[cp_id p' := c]> d) go). simpl.
  rewrite Hguilds, Hgobjs, Hdm.
  repeat (split; [done|]).
  split; [by rewrite lookup_insert_eq|].
  split; [done|].
  split; [apply list_lookup_insert_eq; by eapply lookup_lt_Some|].
  split; [by rewrite lookup_insert_eq|done].
Qed.

Lemma parse_channel_guild_kind_in_both_views_witness :
  let w := after [parse_guild (guild_payload 6)] registry_2_2 in
  let p := channel_payload 1 2 (Some 6) in
  ∃ co guild_id g go,
    channel_objs (StateRegistryImpl.parse_channel p None w).2 !! 0%nat = Some co
    ∧ Channel_id co = 1 ∧ Channel_guild_id co = Some guild_id ∧ Some guild_id = Some 6
    ∧ _guild_channels (StateRegistryImpl.parse_channel p None w).2 !! 1 = Some 0%nat
    ∧ _guilds (StateRegistryImpl.parse_channel p None w).2 !! guild_id = Some g
    ∧ guild_objs (StateRegistryImpl.parse_channel p None w).2 !! g = Some go
    ∧ Guild_channels go !! 1 = Some 0%nat
    ∧ _dm_channels (StateRegistryImpl.parse_channel p None w).2 = _dm_channels w.
Proof.
  intros w p.
  apply (parse_channel_guild_kind_in_both_views p None w _ 0%nat 2);
    [reflexivity|reflexivity|reflexivity|].
  vm_compute. reflexivity.
Defined.

Lemma last_tail_snoc {A} (l : list A) x :
  (1 ≤ length l)%nat → last (tail (l ++ [x])) = Some x.
Proof. destruct l as [|y l]; simpl; [lia|]. intros _. apply last_snoc. Qed.

(** With room for at least one entry, what was just stored is the most
    recently used entry. *)
Lemma most_recently_used_setitem k v d :
  0 < lru_size d → most_recently_used (setitem k v d) = Some (k, v).
Proof.
  intros Hsize. unfold most_recently_used, setitem. simpl.
  destruct (decide _) as [Hfull|_]; [|apply last_snoc].
  apply last_tail_snoc. rewrite length_app in Hfull. simpl in Hfull. lia.
Qed.

(** X4: when [parse_channel] creates a channel of a DM kind and returns, the
    channel went into the bounded DM index under the id of the payload, as
    its most recently used entry when the index has room for one, and
    nowhere else: the weak channel index, the guild table and every guild
    object are as before, also when a guild object was given. *)
Theorem parse_channel_dm_kind_only_in_dm_index
    (p : ChannelPayload) (guild_obj : option ref) (w w' : World) (c : ref) (t : Z) :
  resolve_channel (cp_id p) w = None →
  cp_type p = Some t → channels.is_channel_type_dm t = true →
  StateRegistryImpl.parse_channel p guild_obj w = (Ok c, w') →
  _dm_channels w' = setitem (cp_id p) c (_dm_channels w)
  ∧ (0 < lru_size (_dm_channels w) →
     most_recently_used (_dm_channels w') = Some (cp_id p, c))
  ∧ _guild_channels w' = _guild_channels w
  ∧ _guilds w' = _guilds w ∧ guild_objs w' = guild_objs w.
Proof.
  intros Hres Ht Hkind Hrun.
  destruct (parse_channel_guild_cases p guild_obj w)
    as [(g0 & _ & Hraise)|(p' & Hid & Ht' & _ & Heq)].
  { by rewrite Hrun in Hraise. }
  rewrite Heq in Hrun. rewrite <- Hid in Hres |- *. rewrite <- Ht' in Ht.
  clear Heq Hid Ht'.
  destruct (parse_channel_fresh_Ok _ _ _ _ Hres Hrun)
    as (t' & cls & co & w1 & Ht'' & Hcls & Honly & _ & Hco & _ & Hcid & Hw').
  rewrite Ht in Ht''. injection Ht'' as <-.
  unfold channels.is_channel_type_dm in Hkind. rewrite Hcls in Hkind. rewrite Hkind in Hw'.
  destruct Honly as (Hdm & _ & Hguilds & Hgc & _ & Hgobjs & _).
  subst w'. simpl. rewrite Hdm, Hguilds, Hgc, Hgobjs.
  split; [done|]. split; [|done]. apply most_recently_used_setitem.
Qed.

Lemma parse_channel_dm_kind_only_in_dm_index_witness :
  let w := after [parse_guild (guild_payload 6);
                  parse_channel (channel_payload 1 1 None) None;
                  parse_channel (channel_payload 2 3 None) None] registry_2_2 in
  let p := channel_payload 3 1 (Some 6) in
  let w' := (StateRegistryImpl.parse_channel p (Some 0%nat) w).2 in
  lru_data (_dm_channels w') = [(2, 1%nat); (3, 2%nat)]
  ∧ _guild_channels w' = _guild_channels w
  ∧ _guilds w' = _guilds w ∧ guild_objs w' = guild_objs w.
Proof.
  intros w p w'.
  destruct (parse_channel_dm_kind_only_in_dm_index p (Some 0%nat) w w' 2%nat 1)
    as (Hdm & _ & Hrest); [reflexivity|reflexivity|reflexivity|vm_compute; reflexivity|].
  split; [|exact Hrest]. rewrite Hdm. vm_compute. reflexivity.
Defined.

(** X5: when [parse_channel], on an id that is not cached, raises [KeyError]
    or [TypeError] (a key of the payload is missing, or its type names no
    channel class), nothing was registered: the five indexes other than the
    user index and all objects other than channels and users are as before.
    (The failures that leave a trace are the [AttributeError] of an
    uncached guild and the dangling reference.) *)
Theorem parse_channel_failure_registers_nothing
    (p : ChannelPayload) (guild_obj : option ref) (w w' : World) (e : Exn) :
  resolve_channel (cp_id p) w = None →
  StateRegistryImpl.parse_channel p guild_obj w = (Raise e, w') →
  e = KeyError ∨ e = TypeError →
  channels_and_users_only w w'
  ∧ resolve_channel (cp_id p) w' = None.
Proof.
  intros Hres Hrun He.
  assert (Honly : channels_and_users_only w w').
  { destruct (parse_channel_guild_cases p guild_obj w)
      as [(g0 & _ & Hraise)|(p' & Hid & _ & _ & Heq)].
    { rewrite Hrun in Hraise. simpl in Hraise. destruct He; congruence. }
    rewrite Heq in Hrun. rewrite <- Hid in Hres.
    destruct (parse_channel_fresh_Raise _ _ _ _ Hres Hrun) as [Honly|Hother]; [done|].
    destruct He, Hother; congruence. }
  split; [done|].
  destruct Honly as (Hdm & _ & _ & Hgc & _). unfold resolve_channel in *.
  by rewrite Hgc, Hdm.
Qed.

Lemma parse_channel_failure_registers_nothing_witness :
  let w := after [parse_guild (guild_payload 6)] registry_2_2 in
  let p := channel_payload 1 0 None in
  let w' := (StateRegistryImpl.parse_channel p None w).2 in
  channels_and_users_only w w' ∧ resolve_channel 1 w' = None.
Proof.
  intros w p w'.
  apply (parse_channel_failure_registers_nothing p None w w' KeyError);
    [reflexivity|vm_compute; reflexivity|by left].
Defined.

(** X6: an update through [parse_channel] is not atomic.  For a cached
    guild channel and a payload that has [position] and
    [permission_overwrites] but no [name], the call raises [KeyError] after
    the position and the overwrites of the channel have been replaced by
    those of the payload; name and parent are the old ones. *)
Theorem parse_channel_partial_update
    (p : ChannelPayload) (guild_obj : option ref) (w : World) (c : ref)
    (co : Channel) (gc : GuildChannelSlots) (position : Z) (overwrites : list Overwrite) :
  (∀ g, guild_obj = Some g → is_Some (guild_objs w !! g)) →
  _guild_channels w !! cp_id p = Some c →
  channel_objs w !! c = Some co → Channel_guild_slots co = Some gc →
  cp_position p = Some position → cp_permission_overwrites p = Some overwrites →
  cp_name p = None →
  ∃ w' co',
    StateRegistryImpl.parse_channel p guild_obj w = (Raise KeyError, w')
    ∧ channel_objs w' !! c = Some co'
    ∧ Channel_guild_slots co'
      = Some {| gc_guild_id := gc_guild_id gc; gc_position := position;
                gc_permission_overwrites := overwrites;
                gc_name := gc_name gc; gc_parent_id := gc_parent_id gc |}.
Proof.
  intros Hguild Hgc Hco Hslots Hpos How Hname.
  assert (∃ p', StateRegistryImpl.parse_channel p guild_obj w
                = StateRegistryImpl.parse_channel p' None w
                ∧ cp_id p' = cp_id p ∧ cp_position p' = Some position
                ∧ cp_permission_overwrites p' = Some overwrites ∧ cp_name p' = None)
    as (p' & -> & Hid & Hpos' & How' & Hname').
  { destruct guild_obj as [g|]; [|by exists p].
    destruct (Hguild g eq_refl) as [go Hgo].
    exists (cp_set_guild_id (Guild_id go) p). split; [|done].
    by apply parse_channel_with_guild. }
  rewrite <- Hid in Hgc. clear Hguild Hid Hpos How Hname.
  assert (Hres : resolve_channel (cp_id p') w = Some c)
    by (unfold resolve_channel; by rewrite Hgc).
  destruct (parse_channel_cached _ _ _ Hres) as (d & _ & _ & ->).
  unfold channels.update_state. rewrite bind_run. unfold deref. simpl. rewrite Hco.
  assert (Hlt : (c < length (channel_objs w))%nat) by (by eapply lookup_lt_Some).
  destruct co; simpl in Hslots; try discriminate; injection Hslots as ->;
    unfold channels.GuildChannel_update_state; rewrite Hpos', How', Hname';
    (eexists _, _; split; [reflexivity|]; simpl;
     split; [by apply list_lookup_insert_eq|done]).
Qed.

Lemma parse_channel_partial_update_witness :
  let w := after [parse_guild (guild_payload 6);
                  parse_channel (channel_payload 1 0 (Some 6)) None] registry_2_2 in
  let p := {| cp_id := 1; cp_type := Some 0; cp_guild_id := Some 6;
              cp_position := Some 4; cp_permission_overwrites := Some [9];
              cp_name := None; cp_parent_id := Some 2; cp_nsfw := None;
              cp_topic := None; cp_rate_limit_per_user := None;
              cp_last_message_id := None; cp_recipients := None; cp_bitrate := None;
              cp_user_limit := None; cp_icon := None; cp_application_id := None;
              cp_owner_id := None |} in
  ∃ w' co',
    StateRegistryImpl.parse_channel p None w = (Raise KeyError, w')
    ∧ channel_objs w' !! 0%nat = Some co'
    ∧ Channel_guild_slots co'
      = Some {| gc_guild_id := 6; gc_position := 4; gc_permission_overwrites := [9];
                gc_name := "general"; gc_parent_id := None |}.
Proof.
  intros w p.
  eapply (parse_channel_partial_update p None w 0%nat _
            {| gc_guild_id := 6; gc_position := 0; gc_permission_overwrites := [];
               gc_name := "general"; gc_parent_id := None |} 4 [9]);
    [by intros ? [=]|reflexivity|vm_compute; reflexivity|reflexivity
    |reflexivity|reflexivity|reflexivity].
Defined.

(** ** Deleting a channel *)

Lemma Guild_with_channels_same go :
  Guild_with_channels (λ _, Guild_channels go) go = go.
Proof. by destruct go. Qed.

(** [delete_channel] on a channel of the weak index whose guild is cached
    and has it. *)
Lemma delete_channel_in_guild c co guild_id g go w :
  channel_objs w !! c = Some co →
  is_Some (_guild_channels w !! Channel_id co) →
  Channel_guild_id co = Some guild_id →
  _guilds w !! guild_id = Some g → guild_objs w !! g = Some go →
  is_Some (Guild_channels go !! Channel_id co) →
  StateRegistryImpl.delete_channel c w
  = (Ok tt,
     set_guild_channels (λ _, delete (Channel_id co) (_guild_channels w))
       (set_guild_objs
          (λ l, <[g := Guild_with_channels
                         (λ _, delete (Channel_id co) (Guild_channels go)) go]> l) w)).
Proof.
  intros Hco Hin Hgid Hg Hgo [x Hx].
  unfold StateRegistryImpl.delete_channel. rewrite bind_run. unfold deref at 1.
  rewrite Hco. rewrite bind_run. unfold gets at 1. rewrite decide_True by done.
  rewrite bind_run. unfold channels.guild. rewrite bind_run. unfold deref at 1.
  rewrite Hco, Hgid. cbn [state_registry.get_guild_by_id StateRegistryImpl.self].
  unfold StateRegistryImpl.get_guild_by_id, gets at 1. rewrite Hg.
  unfold not_None. rewrite bind_run, ret_run, bind_run. unfold deref. rewrite Hgo.
  rewrite bind_run. unfold dict_del at 1. rewrite Hx. unfold StateRegistryImpl.lift at 1.
  rewrite ret_run, bind_run. unfold assign, modify at 1. rewrite bind_run.
  unfold gets. destruct Hin as [y Hy]. unfold dict_del. simpl. rewrite Hy.
  unfold StateRegistryImpl.lift. rewrite bind_run, ret_run. reflexivity.
Qed.

(** [delete_channel] on a channel that the weak index does not have. *)
Lemma delete_channel_not_in_weak_index c co w :
  channel_objs w !! c = Some co →
  _guild_channels w !! Channel_id co = None →
  StateRegistryImpl.delete_channel c w
  = (Ok tt, if contains (Channel_id co) (_dm_channels w)
            then set_dm_channels (delitem (Channel_id co)) w else w).
Proof.
  intros Hco Hnone.
  unfold StateRegistryImpl.delete_channel. rewrite bind_run. unfold deref at 1.
  rewrite Hco. rewrite bind_run. unfold gets at 1.
  rewrite decide_False by (rewrite Hnone; by intros [? ?]).
  rewrite bind_run. unfold gets. by destruct (contains _ _).
Qed.

(** X7: [delete_channel] undoes [parse_channel].  After a channel has been
    created by [parse_channel], deleting it succeeds, and then the id
    resolves to no channel, the weak channel index and the guild table are
    as before the creation, and so is every guild object whose channel
    collection did not have the id. *)
Theorem parse_channel_then_delete_channel
    (p : ChannelPayload) (guild_obj : option ref) (w w' : World) (c : ref) :
  resolve_channel (cp_id p) w = None →
  StateRegistryImpl.parse_channel p guild_obj w = (Ok c, w') →
  ∃ w'',
    StateRegistryImpl.delete_channel c w' = (Ok tt, w'')
    ∧ resolve_channel (cp_id p) w'' = None
    ∧ _guild_channels w'' = _guild_channels w ∧ _guilds w'' = _guilds w
    ∧ length (guild_objs w'') = length (guild_objs w)
    ∧ ∀ g go, guild_objs w !! g = Some go → Guild_channels go !! cp_id p = None →
              guild_objs w'' !! g = Some go.
Proof.
  intros Hres Hrun.
  destruct (parse_channel_guild_cases p guild_obj w)
    as [(g0 & _ & Hraise)|(p' & Hid & _ & _ & Heq)].
  { by rewrite Hrun in Hraise. }
  rewrite Heq in Hrun. rewrite <- Hid in Hres |- *. clear Heq Hid p. rename p' into p.
  destruct (parse_channel_fresh_Ok _ _ _ _ Hres Hrun)
    as (t & cls & co & w1 & _ & _ & Honly & _ & Hco & _ & Hcid & Hw').
  destruct Honly as (Hdm & _ & Hguilds & Hgc & _ & Hgobjs & _).
  assert (Hnone : _guild_channels w !! cp_id p = None).
  { unfold resolve_channel in Hres. by destruct (_guild_channels w !! cp_id p). }
  destruct (channels.is_dm cls).
  - subst w'. rewrite (delete_channel_not_in_weak_index _ co);
      [|done|simpl; by rewrite Hcid, Hgc].
    eexists; split; [reflexivity|]. rewrite Hcid. cbn [_dm_channels set_dm_channels].
    destruct (contains _ _) eqn:Hin; unfold resolve_channel; simpl;
      rewrite Hgc, Hnone, Hguilds, Hgobjs.
    + rewrite lru_find_without_eq. repeat (split; [done|]). by intros.
    + unfold contains in Hin. apply bool_decide_eq_false in Hin.
      destruct (lru_find _ _) eqn:Hfind; [by destruct Hin|].
      repeat (split; [done|]). by intros.
  - destruct Hw' as (guild_id & g & go & _ & Hcgid & Hg & Hgo & ->).
    assert (Hlt : (g < length (guild_objs w))%nat) by (by eapply lookup_lt_Some).
    rewrite (delete_channel_in_guild c co guild_id g
               (Guild_with_channels (λ d, <[cp_id p := c]> d) go)); [|done|..].
    + eexists; split; [reflexivity|]. rewrite Hcid. simpl.
      rewrite Hgc, Hguilds, Hgobjs, delete_insert_id by done.
      unfold resolve_channel. simpl. rewrite Hnone, Hdm.
      unfold resolve_channel in Hres. rewrite Hnone in Hres.
      repeat (split; [done|]).
      split; [by rewrite !length_insert|].
      intros g' go' Hgo' Hnone'. rewrite list_insert_insert_eq.
      destruct (decide (g' = g)) as [->|Hne].
      * rewrite Hgo in Hgo'. injection Hgo' as <-.
        rewrite list_lookup_insert_eq by done. f_equal.
        unfold Guild_with_channels at 1. simpl.
        rewrite delete_insert_id by done. by destruct go.
      * by rewrite list_lookup_insert_ne.
    + simpl. rewrite Hcid. by rewrite lookup_insert_eq.
    + done.
    + simpl. by rewrite Hguilds.
    + simpl. rewrite Hgobjs. by apply list_lookup_insert_eq.
    + simpl. rewrite Hcid. by rewrite lookup_insert_eq.
Qed.

Lemma parse_channel_then_delete_channel_witness :
  let w := after [parse_guild (guild_payload 6)] registry_2_2 in
  let p := channel_payload 1 0 (Some 6) in
  let w' := (StateRegistryImpl.parse_channel p None w).2 in
  ∃ w'',
    StateRegistryImpl.delete_channel 0%nat w' = (Ok tt, w'')
    ∧ resolve_channel 1 w'' = None
    ∧ _guild_channels w'' = _guild_channels w ∧ _guilds w'' = _guilds w
    ∧ length (guild_objs w'') = length (guild_objs w)
    ∧ ∀ g go, guild_objs w !! g = Some go → Guild_channels go !! 1 = None →
              guild_objs w'' !! g = Some go.
Proof.
  intros w p w'.
  apply (parse_channel_then_delete_channel p None w w' 0%nat); [reflexivity|].
  vm_compute. reflexivity.
Defined.

(** The constructor of a guild-kind channel fails with [KeyError] or with
    [TypeError] only. *)
Lemma channels_parse_channel_guild_kind_Raise p w e w1 t :
  cp_type p = Some t → channels.is_channel_type_dm t = false →
  channels.parse_channel StateRegistryImpl.self p w = (Raise e, w1) →
  e = KeyError ∨ e = TypeError.
Proof.
  intros Ht Hkind. unfold channels.parse_channel, channels.is_channel_type_dm in *.
  rewrite Ht. simpl.
  destruct (channels._channel_implementations t) as [cls|];
    [|intros [= <- <-]; by right].
  unfold channels.Channel__init__.
  destruct cls; try discriminate Hkind;
    unfold channels.update_state, channels.set_channel; unfold_M;
    (destruct (cp_guild_id p) as [g|]; [|intros [= <- <-]; by left]);
    unfold mret, M_ret; cbn [channel_objs set_channel_objs];
    rewrite lookup_app_r, Nat.sub_diag by lia; simpl;
    unfold channels.GuildChannel_update_state;
    destruct (cp_position p), (cp_permission_overwrites p), (cp_name p); simpl;
    intros [= <- <-]; by left.
Qed.

(** [delete_channel] on a channel of the weak index whose guild is not
    cached. *)
Lemma delete_channel_without_guild c co w :
  channel_objs w !! c = Some co →
  is_Some (_guild_channels w !! Channel_id co) →
  (∀ guild_id, Channel_guild_id co = Some guild_id → _guilds w !! guild_id = None) →
  StateRegistryImpl.delete_channel c w = (Raise AttributeError, w).
Proof.
  intros Hco Hin Hnone.
  unfold StateRegistryImpl.delete_channel, channels.guild, StateRegistryImpl.self,
    StateRegistryImpl.get_guild_by_id.
  unfold_M. simpl. rewrite Hco. rewrite decide_True by done. rewrite Hco.
  destruct (Channel_guild_id co) as [guild_id|]; [|done].
  by rewrite (Hnone guild_id eq_refl).
Qed.

(** X8: a guild channel that [parse_channel] could not attach to its guild
    is owned by nothing.  When [parse_channel], creating a channel of a
    guild kind, raises [AttributeError], the channel, a new object, has
    been written to the weak channel index and nowhere else: the guild
    table, every guild object and the DM index are as before.  So nothing
    but the caller's hold on the exception keeps the channel alive, and
    with it the entry of the weak index, which is lost when the channel is
    released.  For a caller that took the channel from the index in the
    meantime, [delete_channel] on it raises [AttributeError] as well and
    removes nothing. *)
Theorem parse_channel_orphan_has_no_owner
    (p : ChannelPayload) (guild_obj : option ref) (w w' : World) (t : Z) :
  resolve_channel (cp_id p) w = None →
  cp_type p = Some t → channels.is_channel_type_dm t = false →
  StateRegistryImpl.parse_channel p guild_obj w = (Raise AttributeError, w') →
  ∃ c, channel_objs w !! c = None ∧ is_Some (channel_objs w' !! c)
       ∧ _guild_channels w' = <[cp_id p := c]> (_guild_channels w)
       ∧ guild_objs w' = guild_objs w ∧ _guilds w' = _guilds w
       ∧ _dm_channels w' = _dm_channels w
       ∧ StateRegistryImpl.delete_channel c w' = (Raise AttributeError, w').
Proof.
  intros Hres Ht Hkind Hrun.
  destruct (parse_channel_guild_cases p guild_obj w)
    as [(g0 & _ & Hraise)|(p' & Hid & Ht' & _ & Heq)].
  { by rewrite Hrun in Hraise. }
  rewrite Heq in Hrun. rewrite <- Hid in Hres |- *. rewrite <- Ht' in Ht.
  clear Heq Hid Ht' p. rename p' into p.
  revert Hrun. unfold StateRegistryImpl.parse_channel. rewrite bind_run.
  destruct (get_channel_by_id_run (cp_id p) w) as (d & -> & _ & _ & Hd).
  rewrite (Hd Hres), set_dm_channels_same, Hres. rewrite bind_run, ret_run, bind_run.
  pose proof (channels_parse_channel_only p w) as Honly.
  destruct (channels.parse_channel StateRegistryImpl.self p w) as [[c|e1] w1] eqn:Hrun.
  2:{ intros [= -> <-].
      by destruct (channels_parse_channel_guild_kind_Raise _ _ _ _ _ Ht Hkind Hrun). }
  destruct (channels_parse_channel_post _ _ _ _ Hrun)
    as (Hc & t' & cls & co & Ht' & Hcls & Hco & Hclass & Hid & Hguild).
  destruct Honly as (Hdm & _ & Hguilds & Hgc & _ & Hgobjs & _). simpl in *.
  rewrite Ht in Ht'. injection Ht' as <-.
  rewrite Ht. unfold subscript. rewrite bind_run, ret_run. rewrite Hkind.
  rewrite bind_run, bind_run. unfold modify at 1.
  set (w2 := set_guild_channels _ w1).
  assert (Hco2 : channel_objs w2 !! c = Some co) by done.
  assert (Hin : _guild_channels w2 !! cp_id p = Some c)
    by (simpl; by rewrite lookup_insert_eq).
  assert (Hgoal : ∀ w3,
    (∀ guild_id, Channel_guild_id co = Some guild_id → _guilds w3 !! guild_id = None) →
    w3 = w2 →
    ∃ c0, channel_objs w !! c0 = None ∧ is_Some (channel_objs w3 !! c0)
          ∧ _guild_channels w3 = <[cp_id p := c0]> (_guild_channels w)
          ∧ guild_objs w3 = guild_objs w ∧ _guilds w3 = _guilds w
          ∧ _dm_channels w3 = _dm_channels w
          ∧ StateRegistryImpl.delete_channel c0 w3 = (Raise AttributeError, w3)).
  { intros w3 Hnone ->. exists c.
    split; [apply lookup_ge_None_2; lia|]. split; [by exists co|].
    split; [simpl; by rewrite Hgc|]. repeat (split; [done|]).
    apply (delete_channel_without_guild c co); [done|by rewrite Hid, Hin|done]. }
  rewrite bind_run. unfold channels.guild. rewrite bind_run. unfold deref at 1.
  rewrite Hco2.
  destruct (Channel_guild_id co) as [guild_id|] eqn:Hgid.
  2:{ intros [= <-]. by apply Hgoal. }
  cbn [state_registry.get_guild_by_id StateRegistryImpl.self].
  unfold StateRegistryImpl.get_guild_by_id, gets at 1.
  destruct (_guilds w2 !! guild_id) as [g|] eqn:Hg.
  2:{ unfold not_None at 1. rewrite bind_run. intros [= <-]. apply Hgoal; [|done].
      by intros ? [= <-]. }
  unfold not_None. rewrite bind_run, ret_run, bind_run. unfold deref.
  by destruct (guild_objs w2 !! g).
Qed.

Lemma parse_channel_orphan_has_no_owner_witness :
  let w := after [parse_guild (guild_payload 6)] registry_2_2 in
  let p := channel_payload 1 0 (Some 5) in
  let w' := (StateRegistryImpl.parse_channel p None w).2 in
  ∃ c, channel_objs w !! c = None ∧ is_Some (channel_objs w' !! c)
       ∧ _guild_channels w' = <[1 := c]> (_guild_channels w)
       ∧ guild_objs w' = guild_objs w ∧ _guilds w' = _guilds w
       ∧ _dm_channels w' = _dm_channels w
       ∧ StateRegistryImpl.delete_channel c w' = (Raise AttributeError, w').
Proof.
  intros w p w'.
  apply (parse_channel_orphan_has_no_owner p None w w' 0);
    [reflexivity|reflexivity|reflexivity|].
  vm_compute. reflexivity.
Defined.

(** X9: [delete_channel] fails as a whole on a channel that is the one the
    registry has under its id.  When the weak channel index has no other
    object under the id of the channel given, and the call raises, for a
    missing guild ([AttributeError]), a guild that does not have the
    channel ([KeyError]), or a reference to no object, then the registry is
    exactly as before, the entry of the weak channel index included.
    (For an object that is no longer the one indexed under its id the
    weak index may lose its entry while the method runs; that case is not
    covered.) *)
Theorem delete_channel_failure_changes_nothing
    (c : ref) (co : Channel) (w w' : World) (e : Exn) :
  channel_objs w !! c = Some co →
  (∀ c', _guild_channels w !! Channel_id co = Some c' → c' = c) →
  StateRegistryImpl.delete_channel c w = (Raise e, w') →
  w' = w ∧ (e = AttributeError ∨ e = KeyError ∨ e = DanglingReference).
Proof.
  intros Hco _.
  unfold StateRegistryImpl.delete_channel, channels.guild, StateRegistryImpl.self,
    StateRegistryImpl.get_guild_by_id, dict_del.
  unfold_M. unfold_M. simpl. rewrite Hco.
  destruct (decide _) as [[x Hx]|_].
  - rewrite Hco.
    destruct (Channel_guild_id co) as [guild_id|]; [|intros [= <- <-]; auto].
    destruct (_guilds w !! guild_id) as [g|]; [|intros [= <- <-]; auto].
    destruct (guild_objs w !! g) as [go|]; [|intros [= <- <-]; auto].
    destruct (Guild_channels go !! Channel_id co); [|intros [= <- <-]; auto].
    simpl. by rewrite Hx.
  - by destruct (contains _ _).
Qed.

Lemma delete_channel_failure_changes_nothing_witness :
  let w := after [parse_guild (guild_payload 6);
                  parse_channel (channel_payload 1 0 (Some 6)) None;
                  delete_guild 0] registry_2_2 in
  (StateRegistryImpl.delete_channel 0%nat w).2 = w
  ∧ (AttributeError = AttributeError ∨ AttributeError = KeyError
     ∨ AttributeError = DanglingReference).
Proof.
  intros w.
  apply (delete_channel_failure_changes_nothing 0%nat
           (GuildTextChannel 1
              {| gc_guild_id := 6; gc_position := 0; gc_permission_overwrites := [];
                 gc_name := "general"; gc_parent_id := None |} None 0 None false)
           w _ AttributeError).
  - vm_compute. reflexivity.
  - intros c' Hc'. vm_compute in Hc'. congruence.
  - vm_compute. reflexivity.
Defined.

End channel_parsing.

(** ** Guilds *)

(** X10: a guild that [parse_guild] returns is the guild that
    [get_guild_by_id] finds under the id of the payload right after; a
    guild already cached under that id is the one returned, not a new one;
    no other entry of the guild table changes. *)
Theorem parse_guild_then_get_guild_by_id (p : GuildPayload) (w w' : World) (g : ref) :
  StateRegistryImpl.parse_guild p w = (Ok g, w') →
  (StateRegistryImpl.get_guild_by_id (gp_id p) w').1 = Ok (Some g)
  ∧ (∀ g0, _guilds w !! gp_id p = Some g0 → g = g0)
  ∧ (_guilds w !! gp_id p = None → g = length (guild_objs w))
  ∧ ∀ k, k ≠ gp_id p → _guilds w' !! k = _guilds w !! k.
Proof.
  unfold StateRegistryImpl.parse_guild, StateRegistryImpl.get_guild_by_id.
  rewrite bind_run. unfold gets at 1.
  destruct (decide _) as [[g0 Hg0]|Hnone].
  - rewrite bind_run. unfold gets at 1. rewrite Hg0. unfold not_None.
    rewrite bind_run, ret_run, bind_run.
    assert (Hframe : ∀ c : M unit, relates (same _guilds) c →
              (c;; mret g0) w = (Ok g, w') →
              (gets (λ w0, _guilds w0 !! gp_id p) w').1 = Ok (Some g)
              ∧ (∀ g1, Some g0 = Some g1 → g = g1)
              ∧ (Some g0 = None → g = length (guild_objs w))
              ∧ ∀ k, k ≠ gp_id p → _guilds w' !! k = _guilds w !! k).
    { intros c Hc. specialize (Hc w). unfold same in Hc. rewrite bind_run.
      destruct (c w) as [[[]|e] w1]; [|done].
      rewrite ret_run. intros [= <- <-]. simpl in Hc. unfold gets. simpl.
      rewrite Hc, Hg0. repeat (split; [congruence|]). by intros. }
    destruct (default false (gp_unavailable p)); apply Hframe;
      relates_go fail same_write.
  - rewrite bind_run. unfold guilds.Guild__init__, alloc. rewrite bind_run.
    unfold modify. rewrite ret_run. intros [= <- <-]. unfold gets. simpl.
    rewrite lookup_insert_eq. split; [done|]. split.
    { intros g0 Hg0. destruct Hnone. by rewrite Hg0. }
    split; [done|]. intros k Hk. by rewrite lookup_insert_ne.
Qed.

Lemma parse_guild_then_get_guild_by_id_witness :
  let w := after [parse_guild (guild_payload 6)] registry_2_2 in
  let p := guild_payload 7 in
  let w' := (StateRegistryImpl.parse_guild p w).2 in
  (StateRegistryImpl.get_guild_by_id 7 w').1 = Ok (Some 1%nat)
  ∧ (∀ g0, _guilds w !! 7 = Some g0 → 1%nat = g0)
  ∧ (_guilds w !! 7 = None → 1%nat = length (guild_objs w))
  ∧ ∀ k, k ≠ 7 → _guilds w' !! k = _guilds w !! k.
Proof.
  intros w p w'. apply (parse_guild_then_get_guild_by_id p w w' 1%nat).
  vm_compute. reflexivity.
Defined.

(** X11: for a cached guild, a payload that says [unavailable] only marks
    the guild: [parse_guild] returns the cached object, with its name and
    its channels, roles, members and emojis as they were, and nothing else
    in the registry changes. *)
Theorem parse_guild_unavailable_keeps_guild
    (p : GuildPayload) (w : World) (g : ref) (go : Guild) :
  _guilds w !! gp_id p = Some g → guild_objs w !! g = Some go →
  gp_unavailable p = Some true →
  StateRegistryImpl.parse_guild p w
  = (Ok g,
     set_guild_objs
       (λ l, <[g := {| Guild_id := Guild_id go; Guild_unavailable := true;
                       Guild_name := Guild_name go;
                       Guild_channels := Guild_channels go;
                       Guild_roles := Guild_roles go;
                       Guild_members := Guild_members go;
                       Guild_emojis := Guild_emojis go |}]> l) w).
Proof.
  intros Hg Hgo Hun.
  unfold StateRegistryImpl.parse_guild, StateRegistryImpl.get_guild_by_id,
    StateRegistryImpl.set_guild_unavailability.
  unfold_M. unfold_M. rewrite Hg, Hun. rewrite decide_True by done. simpl.
  rewrite Hg. simpl. by rewrite Hgo.
Qed.

Lemma parse_guild_unavailable_keeps_guild_witness :
  let w := after [parse_guild (guild_payload 6);
                  parse_channel (channel_payload 1 0 (Some 6)) None] registry_2_2 in
  let p := {| gp_id := 6; gp_unavailable := Some true; gp_name := "renamed" |} in
  ∃ go', guild_objs (StateRegistryImpl.parse_guild p w).2 !! 0%nat = Some go'
         ∧ Guild_unavailable go' = true ∧ Guild_name go' = "guild"
         ∧ Guild_channels go' !! 1 = Some 0%nat.
Proof.
  intros w p.
  rewrite (parse_guild_unavailable_keeps_guild p w 0%nat
             {| Guild_id := 6; Guild_unavailable := false; Guild_name := "guild";
                Guild_channels := {[1 := 0%nat]}; Guild_roles := ∅;
                Guild_members := ∅; Guild_emojis := ∅ |});
    [|vm_compute; reflexivity|vm_compute; reflexivity|reflexivity].
  eexists. split; [vm_compute; reflexivity|]. by repeat apply conj.
Defined.

(** X12: [delete_guild] on a guild object never raises, and right after no
    lookup through the guild's id finds anything: [get_guild_by_id],
    [get_role_by_id] and [get_member_by_id] return [None] for it, whatever
    roles and members the guild object still holds.  Only the guild table
    changes. *)
Theorem delete_guild_then_lookups
    (g : ref) (go : Guild) (w : World) (role_id user_id : Z) :
  guild_objs w !! g = Some go →
  ∃ w',
    StateRegistryImpl.delete_guild g w = (Ok tt, w')
    ∧ w' = set_guilds (λ _, delete (Guild_id go) (_guilds w)) w
    ∧ StateRegistryImpl.get_guild_by_id (Guild_id go) w' = (Ok None, w')
    ∧ StateRegistryImpl.get_role_by_id (Guild_id go) role_id w' = (Ok None, w')
    ∧ StateRegistryImpl.get_member_by_id user_id (Guild_id go) w' = (Ok None, w').
Proof.
  intros Hgo. eexists. split; [|split; [reflexivity|]].
  - unfold StateRegistryImpl.delete_guild, suppress, dict_del. unfold_M.
    rewrite Hgo.
    destruct (_guilds w !! Guild_id go) eqn:Hg; simpl; [done|].
    f_equal. destruct w; simpl in *. f_equal. by rewrite delete_id.
  - unfold StateRegistryImpl.get_guild_by_id, StateRegistryImpl.get_role_by_id,
      StateRegistryImpl.get_member_by_id.
    unfold_M. simpl. by rewrite lookup_delete_eq.
Qed.

Lemma delete_guild_then_lookups_witness :
  let w := after [parse_guild (guild_payload 6); parse_role (role_payload 7) 0%nat;
                  parse_member (member_payload 10 [7]) 0%nat] registry_2_2 in
  (StateRegistryImpl.get_role_by_id 6 7 w).1 = Ok (Some 0%nat)
  ∧ ∃ w',
      StateRegistryImpl.delete_guild 0%nat w = (Ok tt, w')
      ∧ w' = set_guilds (λ _, delete 6 (_guilds w)) w
      ∧ StateRegistryImpl.get_guild_by_id 6 w' = (Ok None, w')
      ∧ StateRegistryImpl.get_role_by_id 6 7 w' = (Ok None, w')
      ∧ StateRegistryImpl.get_member_by_id 10 6 w' = (Ok None, w').
Proof.
  intros w. split; [vm_compute; reflexivity|].
  apply (delete_guild_then_lookups 0%nat
           {| Guild_id := 6; Guild_unavailable := false; Guild_name := "guild";
              Guild_channels := ∅; Guild_roles := {[7 := 0%nat]};
              Guild_members := {[10 := 0%nat]}; Guild_emojis := ∅ |} w 7 10).
  vm_compute. reflexivity.
Defined.

(** ** Emojis, roles and members of a cached guild *)

Lemma Guild_with_emojis_same go : Guild_with_emojis (λ _, Guild_emojis go) go = go.
Proof. by destruct go. Qed.

Lemma set_guild_objs_same w : set_guild_objs (λ l, l) w = w.
Proof. by destruct w. Qed.

(** X13: with the guild of the emoji cached, [delete_emoji] returns and the
    emoji is gone from both views, whichever of them had it: the weak emoji
    index and the emoji collection of the guild lose the emoji's id, so
    that [get_emoji_by_id] finds nothing; nothing else changes.  (Modelled
    from the spec: the [guild] property of the emoji.) *)
Theorem delete_emoji_removes_from_both_views
    (e : ref) (eo : GuildEmoji) (g : ref) (go : Guild) (w : World) :
  emoji_objs w !! e = Some eo →
  _guilds w !! GuildEmoji_guild_id eo = Some g → guild_objs w !! g = Some go →
  ∃ w',
    StateRegistryImpl.delete_emoji e w = (Ok tt, w')
    ∧ w' = set_guild_objs
             (λ l, <[g := Guild_with_emojis
                            (λ _, delete (GuildEmoji_id eo) (Guild_emojis go)) go]> l)
             (set_emojis (λ _, delete (GuildEmoji_id eo) (_emojis w)) w)
    ∧ (StateRegistryImpl.get_emoji_by_id (GuildEmoji_id eo) w').1 = Ok None.
Proof.
  intros He Hg Hgo. eexists. split; [|split; [reflexivity|]].
  - unfold StateRegistryImpl.delete_emoji, emojis.guild, suppress, dict_del,
      StateRegistryImpl.self, StateRegistryImpl.get_guild_by_id.
    unfold_M. unfold_M. simpl. rewrite He.
    assert (Hsame : ∀ w0 : World, Guild_emojis go !! GuildEmoji_id eo = None →
              guild_objs w0 !! g = Some go →
              w0 = set_guild_objs
                     (λ l, <[g := Guild_with_emojis
                                    (λ _, delete (GuildEmoji_id eo) (Guild_emojis go)) go]> l)
                     w0).
    { intros w0 Hnone Hgo0. rewrite delete_id by done.
      rewrite Guild_with_emojis_same. destruct w0; unfold set_guild_objs; simpl in *.
      f_equal. by rewrite list_insert_id. }
    destruct (_emojis w !! GuildEmoji_id eo) eqn:Hin; simpl; rewrite He; simpl;
      rewrite Hg; simpl; rewrite Hgo;
      destruct (Guild_emojis go !! GuildEmoji_id eo) eqn:Hin'; simpl;
      try reflexivity.
    + f_equal. by apply Hsame.
    + f_equal. rewrite (delete_id (_emojis w)) by done. by destruct w.
    + f_equal. rewrite (delete_id (_emojis w)) by done.
      etrans; [by apply (Hsame w)|]. by destruct w.
  - unfold StateRegistryImpl.get_emoji_by_id, gets. simpl. by rewrite lookup_delete_eq.
Qed.

Lemma delete_emoji_removes_from_both_views_witness :
  let w := after [parse_guild (guild_payload 6);
                  parse_emoji (emoji_payload 5) (Some 0%nat)] registry_2_2 in
  (StateRegistryImpl.get_emoji_by_id 5 w).1 = Ok (Some 0%nat)
  ∧ ∃ w',
      StateRegistryImpl.delete_emoji 0%nat w = (Ok tt, w')
      ∧ _emojis w' = ∅
      ∧ (StateRegistryImpl.get_emoji_by_id 5 w').1 = Ok None.
Proof.
  intros w. split; [vm_compute; reflexivity|].
  destruct (delete_emoji_removes_from_both_views 0%nat
              {| GuildEmoji_id := 5; GuildEmoji_guild_id := 6;
                 GuildEmoji_name := "emoji" |}
              0%nat
              {| Guild_id := 6; Guild_unavailable := false; Guild_name := "guild";
                 Guild_channels := ∅; Guild_roles := ∅; Guild_members := ∅;
                 Guild_emojis := {[5 := 0%nat]} |} w)
    as (w' & Hrun & Hw' & Hget); [vm_compute; reflexivity..|].
  exists w'. split; [exact Hrun|]. split; [|exact Hget].
  rewrite Hw'. vm_compute. reflexivity.
Defined.

(** X14: with the guild of the role cached under the role's guild id and
    holding the role, [delete_role] returns, [get_role_by_id] no longer
    finds the role, and the role lists are cleaned as [list.remove] does:
    each member of the guild loses the first occurrence of the role in its
    list, so that a member listing the role once no longer lists it, while
    every member that does not list it, or is not in the guild, is as
    before.  (Modelled from the spec: the [guild] property of a role.) *)
Theorem delete_role_then_get_role_by_id
    (r : ref) (ro : Role) (g : ref) (go : Guild) (w : World) :
  role_objs w !! r = Some ro →
  _guilds w !! Role_guild_id ro = Some g → guild_objs w !! g = Some go →
  is_Some (Guild_roles go !! Role_id ro) →
  (∀ m, m ∈ values (Guild_members go) → is_Some (member_objs w !! m)) →
  NoDup (values (Guild_members go)) →
  ∃ w',
    StateRegistryImpl.delete_role r w = (Ok tt, w')
    ∧ (StateRegistryImpl.get_role_by_id (Role_guild_id ro) (Role_id ro) w').1 = Ok None
    ∧ ∀ m mo, member_objs w !! m = Some mo →
        ∃ mo', member_objs w' !! m = Some mo'
               ∧ Member_id mo' = Member_id mo ∧ Member_nick mo' = Member_nick mo
               ∧ Member_roles mo'
                 = if decide (m ∈ values (Guild_members go)) then
                     default (Member_roles mo)
                       (list_remove (Some r) (Member_roles mo))
                   else Member_roles mo.
Proof.
  intros Hr Hg Hgo Hin Hvalid Hnd. eexists. split; [by apply delete_role_cascade|].
  assert (Hlt : (g < length (guild_objs w))%nat) by (by eapply lookup_lt_Some).
  split.
  - unfold StateRegistryImpl.get_role_by_id. unfold_M. unfold_M. simpl.
    rewrite Hg. simpl. rewrite list_lookup_insert_eq by done. simpl.
    by rewrite lookup_delete_eq.
  - intros m mo Hmo. simpl.
    destruct (decide (m ∈ values (Guild_members go))) as [Hm|Hm].
    + rewrite (stripped_in _ _ _ _ _ Hnd Hm Hmo). eexists. split; [done|].
      by destruct (list_remove _ _).
    + rewrite stripped_not_in by done. by exists mo.
Qed.

Lemma delete_role_then_get_role_by_id_witness :
  let w := after [parse_guild (guild_payload 6); parse_role (role_payload 7) 0%nat;
                  parse_member (member_payload 10 [7; 7]) 0%nat;
                  parse_member (member_payload 11 []) 0%nat] registry_2_2 in
  (StateRegistryImpl.get_role_by_id 6 7 w).1 = Ok (Some 0%nat)
  ∧ ∃ w',
      StateRegistryImpl.delete_role 0%nat w = (Ok tt, w')
      ∧ (StateRegistryImpl.get_role_by_id 6 7 w').1 = Ok None
      ∧ ∃ mo', member_objs w' !! 0%nat = Some mo'
               ∧ Member_roles mo' = [Some 0%nat].
Proof.
  intros w. split; [vm_compute; reflexivity|].
  destruct (delete_role_then_get_role_by_id 0%nat
              {| Role_id := 7; Role_guild_id := 6; Role_name := "role" |} 0%nat
              {| Guild_id := 6; Guild_unavailable := false; Guild_name := "guild";
                 Guild_channels := ∅; Guild_roles := {[7 := 0%nat]};
                 Guild_members := {[10 := 0%nat; 11 := 1%nat]}; Guild_emojis := ∅ |} w)
    as (w' & Hrun & Hget & Hmembers).
  - vm_compute; reflexivity.
  - vm_compute; reflexivity.
  - vm_compute; reflexivity.
  - by eexists.
  - intros m Hm. apply lookup_lt_is_Some. vm_compute in Hm. vm_compute.
    apply elem_of_cons in Hm as [->|Hm]; [lia|].
    apply elem_of_cons in Hm as [->|Hm]; [lia|]. by apply elem_of_nil in Hm.
  - apply (bool_decide_unpack _). vm_compute. exact I.
  - exists w'. split; [exact Hrun|]. split; [exact Hget|].
    destruct (Hmembers 0%nat
                {| Member_id := 10; Member_guild := 0%nat; Member_user := 0%nat;
                   Member_roles := [Some 0%nat; Some 0%nat]; Member_nick := None |})
      as (mo' & Hmo' & _ & _ & Hroles); [vm_compute; reflexivity|].
    exists mo'. split; [exact Hmo'|]. rewrite Hroles. vm_compute. reflexivity.
Defined.
Lemma relates_conj_guilds {A} (c : M A) :
  ∀ w, relates (same _guilds) c → relates (same guild_objs) c →
       same _guilds w (c w).2 ∧ same guild_objs w (c w).2.
Proof. intros w H1 H2. split; [apply H1|apply H2]. Qed.

Lemma get_role_by_id_resolve guild_id role_id w :
  (∀ g, _guilds w !! guild_id = Some g → is_Some (guild_objs w !! g)) →
  StateRegistryImpl.get_role_by_id guild_id role_id w
  = (Ok (resolve_role guild_id role_id w), w).
Proof.
  intros Hvalid. unfold StateRegistryImpl.get_role_by_id, resolve_role.
  unfold_M. unfold_M.
  destruct (_guilds w !! guild_id) as [g|] eqn:Hg; [|done]. simpl.
  by destruct (Hvalid g eq_refl) as [go ->].
Qed.

Lemma mapM_get_role_by_id guild_id role_ids w :
  (∀ g, _guilds w !! guild_id = Some g → is_Some (guild_objs w !! g)) →
  mapM (StateRegistryImpl.get_role_by_id guild_id) role_ids w
  = (Ok ((λ role_id, resolve_role guild_id role_id w) <$> role_ids), w).
Proof.
  intros Hvalid. induction role_ids as [|role_id role_ids IH]; [done|]. simpl.
  rewrite bind_run, get_role_by_id_resolve by done.
  rewrite bind_run, IH. reflexivity.
Qed.

(** X15: a role that [parse_role] returns for a guild object that is the
    one cached under its id is the role that [get_role_by_id] finds under
    the guild's id and the payload's role id right after; a role that the
    guild had under that id is the one returned.  (Modelled from the spec:
    the constructor of a role.) *)
Theorem parse_role_then_get_role_by_id
    (p : RolePayload) (g : ref) (go : Guild) (w w' : World) (r : ref) :
  guild_objs w !! g = Some go → _guilds w !! Guild_id go = Some g →
  StateRegistryImpl.parse_role p g w = (Ok r, w') →
  StateRegistryImpl.get_role_by_id (Guild_id go) (rp_id p) w' = (Ok (Some r), w')
  ∧ ∀ r0, Guild_roles go !! rp_id p = Some r0 → r = r0.
Proof.
  intros Hgo Hg. unfold StateRegistryImpl.parse_role.
  rewrite bind_run. unfold deref at 1. rewrite Hgo.
  assert (Hlt : (g < length (guild_objs w))%nat) by (by eapply lookup_lt_Some).
  destruct (Guild_roles go !! rp_id p) as [r0|] eqn:Hr0.
  - rewrite bind_run.
    pose proof (relates_conj_guilds (roles.update_state r0 p)) as Hframe.
    specialize (Hframe w).
    destruct (roles.update_state r0 p w) as [[[]|e] w1]; [|done].
    rewrite ret_run. intros [= <- <-]. split; [|congruence].
    destruct Hframe as [Hguilds Hgobjs]; [relates_go fail same_write..|].
    unfold same in *. simpl in *.
    assert (Hvalid : ∀ g0, _guilds w1 !! Guild_id go = Some g0 →
                           is_Some (guild_objs w1 !! g0)).
    { intros g0. rewrite Hguilds, Hg. intros [= <-]. rewrite Hgobjs, Hgo. by eexists. }
    rewrite (get_role_by_id_resolve _ _ _ Hvalid). unfold resolve_role.
    rewrite Hguilds, Hg. simpl. rewrite Hgobjs, Hgo. simpl. by rewrite Hr0.
  - unfold roles.Role__init__, StateRegistryImpl.get_role_by_id. unfold_M. unfold_M.
    simpl. rewrite lookup_app_r, Nat.sub_diag by lia. simpl. rewrite Hgo.
    intros [= <- <-]. simpl. rewrite Hg. simpl.
    rewrite list_lookup_insert_eq by done. simpl. rewrite lookup_insert_eq.
    split; [done|]. by intros.
Qed.

Lemma parse_role_then_get_role_by_id_witness :
  let w := after [parse_guild (guild_payload 6)] registry_2_2 in
  let w' := (StateRegistryImpl.parse_role (role_payload 7) 0%nat w).2 in
  StateRegistryImpl.get_role_by_id 6 7 w' = (Ok (Some 0%nat), w')
  ∧ ∀ r0, (∅ : gmap Z ref) !! 7 = Some r0 → 0%nat = r0.
Proof.
  intros w w'.
  apply (parse_role_then_get_role_by_id (role_payload 7) 0%nat
           {| Guild_id := 6; Guild_unavailable := false; Guild_name := "guild";
              Guild_channels := ∅; Guild_roles := ∅; Guild_members := ∅;
              Guild_emojis := ∅ |} w w' 0%nat); vm_compute; reflexivity.
Defined.

Lemma get_member_by_id_run user_id guild_id g go w :
  _guilds w !! guild_id = Some g → guild_objs w !! g = Some go →
  StateRegistryImpl.get_member_by_id user_id guild_id w
  = (Ok (Guild_members go !! user_id), w).
Proof.
  intros Hg Hgo. unfold StateRegistryImpl.get_member_by_id. unfold_M. unfold_M.
  rewrite Hg. simpl. by rewrite Hgo.
Qed.

(** X16: a member that [parse_member] returns for a guild object that is
    the one cached under its id is the member that [get_member_by_id] finds
    under the user id of the payload and the guild's id right after; a
    member that the guild had under that user id is the one returned.
    (Modelled from the spec: the constructor of a member.) *)
Theorem parse_member_then_get_member_by_id
    (p : MemberPayload) (g : ref) (go : Guild) (w w' : World) (m : ref) :
  guild_objs w !! g = Some go → _guilds w !! Guild_id go = Some g →
  StateRegistryImpl.parse_member p g w = (Ok m, w') →
  StateRegistryImpl.get_member_by_id (up_id (mp_user p)) (Guild_id go) w'
  = (Ok (Some m), w')
  ∧ ∀ m0, Guild_members go !! up_id (mp_user p) = Some m0 → m = m0.
Proof.
  intros Hgo Hg. unfold StateRegistryImpl.parse_member.
  rewrite bind_run. unfold deref at 1. rewrite Hgo.
  assert (Hlt : (g < length (guild_objs w))%nat) by (by eapply lookup_lt_Some).
  destruct (Guild_members go !! up_id (mp_user p)) as [m0|] eqn:Hm0.
  - match goal with
    | |- ?c w = _ → _ => pose proof (relates_conj_guilds c w) as Hframe
    end.
    destruct Hframe as [Hguilds Hgobjs]; [relates_go fail same_write..|].
    intros Hrun. rewrite Hrun in Hguilds, Hgobjs. unfold same in *. simpl in *.
    assert (m = m0) as ->.
    { revert Hrun. rewrite bind_run.
      destruct (mapM _ _ w) as [[rs|e] w1]; [|done]. rewrite bind_run.
      destruct (members.update_state _ _ _ _) as [[[]|e] w2]; [|done].
      rewrite ret_run. by intros [= <- <-]. }
    split; [|congruence].
    rewrite (get_member_by_id_run _ _ g go); [by rewrite Hm0|congruence|congruence].
  - rewrite bind_run.
    pose proof (relates_conj_guilds
                  (members.Member__init__ StateRegistryImpl.self g p) w) as Hframe.
    destruct Hframe as [Hguilds Hgobjs]; [relates_go fail same_write..|].
    destruct (members.Member__init__ StateRegistryImpl.self g p w) as [[m1|e] w1];
      [|done].
    unfold same in *. simpl in *.
    rewrite bind_run. unfold deref. rewrite Hgobjs, Hgo. rewrite bind_run.
    unfold assign, modify. rewrite ret_run. intros [= <- <-].
    split; [|by intros].
    rewrite (get_member_by_id_run _ _ g
               (Guild_with_members (λ d, <[up_id (mp_user p) := m1]> d) go)).
    + simpl. by rewrite lookup_insert_eq.
    + simpl. congruence.
    + simpl. rewrite Hgobjs. by apply list_lookup_insert_eq.
Qed.

Lemma parse_member_then_get_member_by_id_witness :
  let w := after [parse_guild (guild_payload 6)] registry_2_2 in
  let w' := (StateRegistryImpl.parse_member (member_payload 10 [7]) 0%nat w).2 in
  StateRegistryImpl.get_member_by_id 10 6 w' = (Ok (Some 0%nat), w')
  ∧ ∀ m0, (∅ : gmap Z ref) !! 10 = Some m0 → 0%nat = m0.
Proof.
  intros w w'.
  apply (parse_member_then_get_member_by_id (member_payload 10 [7]) 0%nat
           {| Guild_id := 6; Guild_unavailable := false; Guild_name := "guild";
              Guild_channels := ∅; Guild_roles := ∅; Guild_members := ∅;
              Guild_emojis := ∅ |} w w' 0%nat); vm_compute; reflexivity.
Defined.

(** X17: for a member that the guild object already has, [parse_member]
    replaces the nickname by the payload's and the role list by the
    payload's role ids resolved in the guild cached under the guild
    object's id, in the same order: a role id that does not resolve (an
    unknown role, or a guild that is no longer cached) gives a [None]
    entry, neither an error nor a shorter list.  Nothing else changes. *)
Theorem parse_member_update_resolves_roles
    (p : MemberPayload) (g : ref) (go : Guild) (m : ref) (mo : Member) (w : World) :
  guild_objs w !! g = Some go →
  Guild_members go !! up_id (mp_user p) = Some m → member_objs w !! m = Some mo →
  (∀ g0, _guilds w !! Guild_id go = Some g0 → is_Some (guild_objs w !! g0)) →
  StateRegistryImpl.parse_member p g w
  = (Ok m,
     set_member_objs
       (λ l, <[m := {| Member_id := Member_id mo; Member_guild := Member_guild mo;
                       Member_user := Member_user mo;
                       Member_roles := (λ role_id, resolve_role (Guild_id go) role_id w)
                                       <$> mp_roles p;
                       Member_nick := mp_nick p |}]> l) w).
Proof.
  intros Hgo Hm Hmo Hvalid. unfold StateRegistryImpl.parse_member.
  rewrite bind_run. unfold deref at 1. rewrite Hgo, Hm.
  rewrite bind_run, mapM_get_role_by_id by done.
  unfold members.update_state. unfold_M. unfold_M. by rewrite Hmo.
Qed.

Lemma parse_member_update_resolves_roles_witness :
  let w := after [parse_guild (guild_payload 6); parse_role (role_payload 7) 0%nat;
                  parse_member (member_payload 10 []) 0%nat] registry_2_2 in
  ∃ w' mo',
    StateRegistryImpl.parse_member (member_payload 10 [8; 7]) 0%nat w = (Ok 0%nat, w')
    ∧ member_objs w' !! 0%nat = Some mo'
    ∧ Member_roles mo' = [None; Some 0%nat].
Proof.
  intros w. eexists _, _. split; [|split].
  - apply (parse_member_update_resolves_roles (member_payload 10 [8; 7]) 0%nat
             {| Guild_id := 6; Guild_unavailable := false; Guild_name := "guild";
                Guild_channels := ∅; Guild_roles := {[7 := 0%nat]};
                Guild_members := {[10 := 0%nat]}; Guild_emojis := ∅ |} 0%nat
             {| Member_id := 10; Member_guild := 0%nat; Member_user := 0%nat;
                Member_roles := []; Member_nick := None |} w);
      [vm_compute; reflexivity..|].
    intros g0 Hg0. assert (g0 = 0%nat) as -> by (vm_compute in Hg0; congruence).
    apply lookup_lt_is_Some. vm_compute. lia.
  - vm_compute. reflexivity.
  - vm_compute. reflexivity.
Defined.

Lemma Guild_with_members_same go : Guild_with_members (λ _, Guild_members go) go = go.
Proof. by destruct go. Qed.

(** X18: with the guild that the member holds cached under its id,
    [delete_member] returns and [get_member_by_id] no longer finds the
    member under its user id and the guild's id, whether the guild had it
    or not; only the member collection of that guild changes.  (Modelled
    from the spec: the [guild] attribute of a member.) *)
Theorem delete_member_then_get_member_by_id
    (m : ref) (mo : Member) (g : ref) (go : Guild) (w : World) :
  member_objs w !! m = Some mo →
  Member_guild mo = g → guild_objs w !! g = Some go →
  _guilds w !! Guild_id go = Some g →
  ∃ w',
    StateRegistryImpl.delete_member m w = (Ok tt, w')
    ∧ w' = set_guild_objs
             (λ l, <[g := Guild_with_members
                            (λ _, delete (Member_id mo) (Guild_members go)) go]> l) w
    ∧ StateRegistryImpl.get_member_by_id (Member_id mo) (Guild_id go) w'
      = (Ok None, w').
Proof.
  intros Hm <- Hgo Hg. eexists. split; [|split; [reflexivity|]].
  - unfold StateRegistryImpl.delete_member, members.guild, suppress, dict_del.
    unfold_M. unfold_M. simpl. rewrite Hm. simpl. rewrite Hm. simpl.
    rewrite Hgo.
    destruct (Guild_members go !! Member_id mo) eqn:Hin; simpl; [done|].
    f_equal. rewrite delete_id by done. rewrite Guild_with_members_same.
    destruct w; unfold set_guild_objs; simpl in *. f_equal. by rewrite list_insert_id.
  - assert (Hlt : (Member_guild mo < length (guild_objs w))%nat)
      by (by eapply lookup_lt_Some).
    rewrite (get_member_by_id_run _ _ (Member_guild mo)
               (Guild_with_members (λ _, delete (Member_id mo) (Guild_members go)) go)).
    + simpl. by rewrite lookup_delete_eq.
    + done.
    + simpl. by apply list_lookup_insert_eq.
Qed.

Lemma delete_member_then_get_member_by_id_witness :
  let w := after [parse_guild (guild_payload 6);
                  parse_member (member_payload 10 []) 0%nat] registry_2_2 in
  (StateRegistryImpl.get_member_by_id 10 6 w).1 = Ok (Some 0%nat)
  ∧ ∃ w',
      StateRegistryImpl.delete_member 0%nat w = (Ok tt, w')
      ∧ StateRegistryImpl.get_member_by_id 10 6 w' = (Ok None, w').
Proof.
  intros w. split; [vm_compute; reflexivity|].
  destruct (delete_member_then_get_member_by_id 0%nat
              {| Member_id := 10; Member_guild := 0%nat; Member_user := 0%nat;
                 Member_roles := []; Member_nick := None |} 0%nat
              {| Guild_id := 6; Guild_unavailable := false; Guild_name := "guild";
                 Guild_channels := ∅; Guild_roles := ∅;
                 Guild_members := {[10 := 0%nat]}; Guild_emojis := ∅ |} w)
    as (w' & Hrun & _ & Hget); [vm_compute; reflexivity..|].
  exists w'. split; [exact Hrun|exact Hget].
Defined.

(** ** Messages *)

Section messages_cache.
Import data_structures.

(** What [parse_message] does to the message cache and to the message
    objects when it returns a message. *)
Lemma parse_message_Ok p w m w' :
  StateRegistryImpl.parse_message p w = (Ok (Some m), w') →
  m = length (message_objs w)
  ∧ _message_cache w' = setitem (msg_id p) m (_message_cache w)
  ∧ message_objs w'
    = message_objs w ++ [{| Message_id := msg_id p;
                            Message_channel_id := msg_channel_id p;
                            Message_content := msg_content p;
                            Message_reactions := [] |}].
Proof.
  unfold StateRegistryImpl.parse_message. rewrite bind_run.
  destruct (get_channel_by_id_run (msg_channel_id p) w) as (d & -> & _).
  destruct (resolve_channel (msg_channel_id p) w) as [c0|]; [|done].
  rewrite bind_run. unfold messages.Message__init__, alloc.
  set (mo := {| Message_id := msg_id p |}).
  set (w2 := set_message_objs _ _).
  replace (length (message_objs (set_dm_channels (λ _, d) w)))
    with (length (message_objs w)) by done.
  rewrite bind_run.
  assert (Hch : relates (same _message_cache)
                  (messages.channel StateRegistryImpl.self (length (message_objs w))))
    by relates_go fail same_write.
  assert (Hch' : relates (same message_objs)
                   (messages.channel StateRegistryImpl.self (length (message_objs w))))
    by relates_go fail same_write.
  specialize (Hch w2). specialize (Hch' w2). unfold same in Hch, Hch'.
  destruct (messages.channel _ _ w2) as [[ch|e] w3]; [|done]. simpl in Hch, Hch'.
  destruct ch as [c|]; [|done]. unfold not_None. rewrite bind_run, ret_run, bind_run.
  unfold deref. destruct (channel_objs w3 !! c) as [co|]; [|done].
  rewrite bind_run.
  destruct (Channel_set_last_message_id (Some (msg_id p)) co) as [co'|]; [|done].
  unfold assign, modify. rewrite bind_run, ret_run. intros [= <- <-]. simpl.
  rewrite Hch, Hch'. done.
Qed.

(** X19: [parse_message] always caches a new message object.  When it
    returns a message, the object is a new one, also when a message with
    that id was cached, with the fields of the payload and no reactions; it
    is stored in the message cache under the id of the payload, replacing
    what was there, and with a cache capacity of at least one
    [get_message_by_id] finds it right after.  (Modelled from the spec: the
    constructor of a message.) *)
Theorem parse_message_then_get_message_by_id
    (p : MessagePayload) (w w' : World) (m : ref) :
  0 < lru_size (_message_cache w) →
  StateRegistryImpl.parse_message p w = (Ok (Some m), w') →
  (StateRegistryImpl.get_message_by_id (msg_id p) w').1 = Ok (Some m)
  ∧ message_objs w !! m = None
  ∧ message_objs w' !! m
    = Some {| Message_id := msg_id p; Message_channel_id := msg_channel_id p;
              Message_content := msg_content p; Message_reactions := [] |}
  ∧ most_recently_used (_message_cache w') = Some (msg_id p, m).
Proof.
  intros Hsize Hrun. destruct (parse_message_Ok _ _ _ _ Hrun) as (-> & Hcache & Hobjs).
  split.
  - unfold StateRegistryImpl.get_message_by_id, StateRegistryImpl.on_message_cache.
    rewrite Hcache, (get_present _ (length (message_objs w)));
      [done|by apply lru_find_setitem].
  - split; [by apply lookup_ge_None_2|]. split.
    + by rewrite Hobjs, lookup_app_r, Nat.sub_diag by lia.
    + rewrite Hcache. by apply most_recently_used_setitem.
Qed.

Lemma parse_message_then_get_message_by_id_witness :
  let w := after [parse_channel (channel_payload 1 1 None) None;
                  parse_message (message_payload 3 1)] registry_2_2 in
  let w' := (StateRegistryImpl.parse_message (message_payload 3 1) w).2 in
  (StateRegistryImpl.get_message_by_id 3 w).1 = Ok (Some 0%nat)
  ∧ (StateRegistryImpl.get_message_by_id 3 w').1 = Ok (Some 1%nat)
  ∧ message_objs w !! 1%nat = None
  ∧ message_objs w' !! 1%nat
    = Some {| Message_id := 3; Message_channel_id := 1;
              Message_content := "hello"; Message_reactions := [] |}
  ∧ most_recently_used (_message_cache w') = Some (3, 1%nat).
Proof.
  intros w w'. split; [vm_compute; reflexivity|].
  apply (parse_message_then_get_message_by_id (message_payload 3 1) w w' 1%nat);
    vm_compute; reflexivity.
Defined.

Lemma lru_without_idem k data : lru_without k (lru_without k data) = lru_without k data.
Proof.
  unfold lru_without. induction data as [|e data IH]; [done|].
  rewrite filter_cons. destruct (decide (e.1 ≠ k)) as [Hne|Heq]; [|done].
  rewrite filter_cons, decide_True by done. by rewrite IH.
Qed.

Lemma lru_without_refreshed k v data :
  lru_without k (lru_without k data ++ [(k, v)]) = lru_without k data.
Proof.
  unfold lru_without at 1. rewrite filter_app, filter_cons.
  rewrite decide_False by (simpl; by intros []).
  rewrite filter_nil, app_nil_r. apply lru_without_idem.
Qed.

(** X20: [delete_message] removes what the cache holds under the id of the
    message given, whichever object that is: when the cached object has
    that id (another object than the one given, as after a second
    [parse_message] of the id, or the same), the call returns, the message
    cache loses the id and nothing else, and [get_message_by_id] finds
    nothing under it. *)
Theorem delete_message_then_get_message_by_id
    (m : ref) (mo : Message) (m' : ref) (mo' : Message) (w : World) :
  message_objs w !! m = Some mo →
  lru_find (Message_id mo) (lru_data (_message_cache w)) = Some m' →
  message_objs w !! m' = Some mo' → Message_id mo' = Message_id mo →
  ∃ w',
    StateRegistryImpl.delete_message m w = (Ok tt, w')
    ∧ w' = set_message_cache (delitem (Message_id mo)) w
    ∧ StateRegistryImpl.get_message_by_id (Message_id mo) w' = (Ok None, w').
Proof.
  intros Hm Hfind Hm' Hid. eexists. split; [|split; [reflexivity|]].
  - unfold StateRegistryImpl.delete_message, suppress,
      StateRegistryImpl.on_message_cache, getitem.
    unfold_M. unfold_M. rewrite Hm, Hfind. simpl. rewrite Hm', Hid. simpl.
    f_equal. destruct w; unfold set_message_cache, delitem; simpl. f_equal. f_equal.
    apply lru_without_refreshed.
  - unfold StateRegistryImpl.get_message_by_id, StateRegistryImpl.on_message_cache.
    simpl. rewrite get_absent by apply lru_find_without_eq.
    by destruct w.
Qed.

Lemma delete_message_then_get_message_by_id_witness :
  let w := after [parse_channel (channel_payload 1 1 None) None;
                  parse_message (message_payload 3 1);
                  parse_message (message_payload 3 1)] registry_2_2 in
  (StateRegistryImpl.get_message_by_id 3 w).1 = Ok (Some 1%nat)
  ∧ ∃ w',
      StateRegistryImpl.delete_message 0%nat w = (Ok tt, w')
      ∧ StateRegistryImpl.get_message_by_id 3 w' = (Ok None, w').
Proof.
  intros w. split; [vm_compute; reflexivity|].
  destruct (delete_message_then_get_message_by_id 0%nat
              {| Message_id := 3; Message_channel_id := 1;
                 Message_content := "hello"; Message_reactions := [] |} 1%nat
              {| Message_id := 3; Message_channel_id := 1;
                 Message_content := "hello"; Message_reactions := [] |} w)
    as (w' & Hrun & _ & Hget); [vm_compute; reflexivity..|].
  exists w'. split; [exact Hrun|exact Hget].
Defined.

End messages_cache.

(** ** Reactions *)

Lemma zeroed_listed l rs r ro :
  r ∈ l → rs !! r = Some ro → zeroed l rs !! r = Some (Reaction_with_count 0 ro).
Proof.
  revert rs ro. induction l as [|r' l IH]; intros rs ro Hin Hro;
    [by apply elem_of_nil in Hin|].
  simpl. destruct (decide (r = r')) as [<-|Hne].
  - rewrite Hro.
    assert (Hnew : <[r := Reaction_with_count 0 ro]> rs !! r
                   = Some (Reaction_with_count 0 ro))
      by (apply list_lookup_insert_eq; by eapply lookup_lt_Some).
    destruct (decide (r ∈ l)) as [Hl|Hl].
    + by rewrite (IH _ _ Hl Hnew).
    + by rewrite zeroed_not_in.
  - apply elem_of_cons in Hin as [->|Hin]; [done|].
    destruct (rs !! r') eqn:Hr'; [|by apply IH].
    apply IH; [done|]. by rewrite list_lookup_insert_ne.
Qed.

(** X21: [delete_all_reactions] on a message returns, leaves the message
    with an empty reaction list, and sets the count of every reaction that
    was in the list to zero, its emoji and message kept, so that a holder
    of such a reaction sees it dead; reactions that were not in the list
    and the other messages are untouched. *)
Theorem delete_all_reactions_clears (m : ref) (mo : Message) (w : World) :
  message_objs w !! m = Some mo →
  (∀ r, r ∈ Message_reactions mo → is_Some (reaction_objs w !! r)) →
  ∃ w',
    StateRegistryImpl.delete_all_reactions m w = (Ok tt, w')
    ∧ message_objs w' = <[m := Message_with_reactions [] mo]> (message_objs w)
    ∧ (∀ r ro, r ∈ Message_reactions mo → reaction_objs w !! r = Some ro →
         reaction_objs w' !! r
         = Some {| Reaction_count := 0; Reaction_emoji := Reaction_emoji ro;
                   Reaction_message := Reaction_message ro |})
    ∧ (∀ r, r ∉ Message_reactions mo → reaction_objs w' !! r = reaction_objs w !! r).
Proof.
  intros Hm Hvalid. unfold StateRegistryImpl.delete_all_reactions.
  rewrite bind_run. unfold deref at 1. rewrite Hm. rewrite bind_run.
  destruct (zero_all_run _ _ Hvalid) as (w1 & -> & Hms & Hrs).
  unfold assign, modify. eexists. split; [reflexivity|]. simpl. rewrite Hms, Hrs.
  split; [done|]. split.
  - intros r ro Hin Hro. by apply zeroed_listed.
  - intros r Hnot. by apply zeroed_not_in.
Qed.

Lemma delete_all_reactions_clears_witness :
  let w := after [parse_channel (channel_payload 1 1 None) None;
                  parse_message (message_payload 3 1);
                  increment_reaction_count 0 thumbsup;
                  increment_reaction_count 0 thumbsup;
                  increment_reaction_count 0 heart] registry_2_2 in
  Reaction_count <$> reaction_objs w !! 0%nat = Some 2
  ∧ ∃ w',
      StateRegistryImpl.delete_all_reactions 0%nat w = (Ok tt, w')
      ∧ Reaction_count <$> reaction_objs w' !! 0%nat = Some 0
      ∧ Message_reactions <$> message_objs w' !! 0%nat = Some [].
Proof.
  intros w. split; [vm_compute; reflexivity|].
  destruct (delete_all_reactions_clears 0%nat
              {| Message_id := 3; Message_channel_id := 1; Message_content := "hello";
                 Message_reactions := [0%nat; 1%nat] |} w)
    as (w' & Hrun & Hms & Hin & _).
  - vm_compute. reflexivity.
  - intros r Hr. apply lookup_lt_is_Some. simpl in Hr. vm_compute.
    apply elem_of_cons in Hr as [->|Hr]; [lia|].
    apply elem_of_cons in Hr as [->|Hr]; [lia|]. by apply elem_of_nil in Hr.
  - exists w'. split; [exact Hrun|]. split.
    + rewrite (Hin 0%nat {| Reaction_count := 2; Reaction_emoji := thumbsup;
                            Reaction_message := 0%nat |});
        [reflexivity|simpl; left|vm_compute; reflexivity].
    + rewrite Hms. vm_compute. reflexivity.
Defined.

Lemma first_with_emoji_run e l w :
  ∃ r, StateRegistryImpl.first_with_emoji e l w = (r, w)
       ∧ ∀ x, r = Ok (Some x) →
              x ∈ l ∧ ∃ ro, reaction_objs w !! x = Some ro ∧ Reaction_emoji ro = e.
Proof.
  induction l as [|r0 l IH]; simpl.
  - eexists. split; [reflexivity|]. by intros x [=].
  - rewrite bind_run. unfold deref.
    destruct (reaction_objs w !! r0) as [ro|] eqn:Hro.
    + destruct (decide (Reaction_emoji ro = e)) as [He|Hne].
      * eexists. split; [reflexivity|]. intros x [= <-]. split; [left|by exists ro].
      * destruct IH as (r & -> & Hr). exists r. split; [done|].
        intros x Hx. destruct (Hr x Hx) as [Hin Hro']. split; [by right|done].
    + eexists. split; [reflexivity|]. by intros x [=].
Qed.

(** X22: [parse_reaction] sets the count, it does not add to it.  When it
    returns a reaction, the message cached under the message id of the
    payload holds that reaction in its list, and the count of the reaction
    is the count of the payload, whether the reaction was already there or
    is new. *)
Theorem parse_reaction_sets_count
    (p : ReactionPayload) (w w' : World) (r : ref) :
  StateRegistryImpl.parse_reaction p w = (Ok (Some r), w') →
  ∃ m mo ro,
    data_structures.lru_find (rx_message_id p)
      (data_structures.lru_data (_message_cache w)) = Some m
    ∧ message_objs w' !! m = Some mo ∧ r ∈ Message_reactions mo
    ∧ reaction_objs w' !! r = Some ro ∧ Reaction_count ro = rx_count p.
Proof.
  unfold StateRegistryImpl.parse_reaction. rewrite bind_run.
  unfold StateRegistryImpl.get_message_by_id, StateRegistryImpl.on_message_cache at 1.
  unfold data_structures.get, data_structures.getitem.
  destruct (data_structures.lru_find _ _) as [m|] eqn:Hfind.
  2:{ rewrite bind_run.
      by destruct (StateRegistryImpl.parse_emoji _ _ _) as [[?|?] ?]. }
  set (w1 := set_message_cache _ w). rewrite bind_run.
  destruct (StateRegistryImpl.parse_emoji (rx_emoji p) None w1) as [[e|?] w2]; [|done].
  unfold reactions.Reaction__init__, alloc. rewrite bind_run.
  set (new := {| Reaction_count := rx_count p |}).
  set (w3 := set_reaction_objs _ w2).
  assert (Hnew : reaction_objs w3 !! length (reaction_objs w2) = Some new).
  { unfold w3. simpl. by rewrite lookup_app_r, Nat.sub_diag by lia. }
  rewrite bind_run. unfold deref at 1. rewrite Hnew.
  rewrite bind_run. unfold deref at 1.
  destruct (message_objs w3 !! m) as [mo|] eqn:Hmo; [|done].
  rewrite bind_run.
  destruct (first_with_emoji_run (Reaction_emoji new) (Message_reactions mo) w3)
    as (found & -> & Hfound).
  destruct found as [[x|]|]; [| |done].
  - destruct (Hfound x eq_refl) as (Hin & ro & Hro & _).
    rewrite bind_run. unfold deref. rewrite Hro.
    unfold assign, modify. rewrite bind_run, ret_run. intros [= <- <-].
    exists m, mo, (Reaction_with_count (rx_count p) ro). simpl.
    repeat (split; [done|]). split; [|done].
    apply list_lookup_insert_eq. by eapply lookup_lt_Some.
  - unfold assign, modify. rewrite bind_run, ret_run. intros [= <- <-].
    exists m, (Message_with_reactions (Message_reactions mo ++ [length (reaction_objs w2)]) mo),
      new.
    simpl. split; [done|]. split.
    { apply list_lookup_insert_eq. by eapply lookup_lt_Some. }
    split; [|done]. apply elem_of_app. right. left.
Qed.

Lemma parse_reaction_sets_count_witness :
  let w := after [parse_channel (channel_payload 1 1 None) None;
                  parse_message (message_payload 3 1);
                  increment_reaction_count 0 thumbsup;
                  increment_reaction_count 0 thumbsup] registry_2_2 in
  let w' := (StateRegistryImpl.parse_reaction (reaction_payload 3 7) w).2 in
  Reaction_count <$> reaction_objs w !! 0%nat = Some 2
  ∧ ∃ m mo ro,
      data_structures.lru_find 3 (data_structures.lru_data (_message_cache w)) = Some m
      ∧ message_objs w' !! m = Some mo ∧ 0%nat ∈ Message_reactions mo
      ∧ reaction_objs w' !! 0%nat = Some ro ∧ Reaction_count ro = 7.
Proof.
  intros w w'. split; [vm_compute; reflexivity|].
  apply (parse_reaction_sets_count (reaction_payload 3 7) w w' 0%nat).
  vm_compute. reflexivity.
Defined.

(** ** The calls that touch an index *)






(** ** The keys of the channel indexes *)

Section channel_index.
Import data_structures.

#[local] Instance index_entries_kept_preorder : PreOrder index_entries_kept.
Proof.
  split.
  - intros w. by split.
  - intros w1 w2 w3 [Hg12 Hd12] [Hg23 Hd23]. split; eauto.
Qed.

Lemma channel_index_ok_step w w' :
  channels_identity_kept w w' → index_entries_kept w w' →
  channel_index_ok w → channel_index_ok w'.
Proof.
  intros Hid [Hg Hd] [Hokg Hokd]. split.
  - intros k c Hin. destruct (Hokg k c (Hg k c Hin)) as (co & Hco & Hk & Hkind).
    destruct (Hid c co Hco) as (co' & Hco' & Hclass & Hcid & _).
    exists co'. by rewrite Hclass, Hcid.
  - intros k c Hin. destruct (Hokd k c (Hd _ Hin)) as (co & Hco & Hk & Hkind).
    destruct (Hid c co Hco) as (co' & Hco' & Hclass & Hcid & _).
    exists co'. by rewrite Hclass, Hcid.
Qed.

Lemma lru_find_elem k v data : lru_find k data = Some v → (k, v) ∈ data.
Proof.
  induction data as [|[k' v'] data IH]; [done|]. simpl.
  destruct (decide (k' = k)) as [->|Hne].
  - intros [= ->]. left.
  - intros Hfind. right. by apply IH.
Qed.

Lemma lru_without_elem k e data : e ∈ lru_without k data → e ∈ data.
Proof. unfold lru_without. intros Hin. by apply list_elem_of_filter in Hin as [_ ?]. Qed.

Lemma get_entries k d e :
  e ∈ lru_data (get k d).2 → e ∈ lru_data d.
Proof.
  unfold get, getitem. destruct (lru_find k (lru_data d)) as [v|] eqn:Hfind; [|done].
  simpl. intros Hin. apply elem_of_app in Hin as [Hin|Hin].
  - by eapply lru_without_elem.
  - apply list_elem_of_singleton in Hin as ->. by apply lru_find_elem.
Qed.

Lemma elem_of_tail {A} (x : A) l : x ∈ tail l → x ∈ l.
Proof. destruct l; [done|]. simpl. by right. Qed.

Lemma setitem_entries k v d e :
  e ∈ lru_data (setitem k v d) → e = (k, v) ∨ e ∈ lru_data d.
Proof.
  unfold setitem. simpl. intros Hin.
  assert (Hin' : e ∈ lru_without k (lru_data d) ++ [(k, v)]).
  { destruct (decide _); [by apply elem_of_tail|done]. }
  apply elem_of_app in Hin' as [Hin'|Hin'].
  - right. by eapply lru_without_elem.
  - left. by apply list_elem_of_singleton in Hin'.
Qed.

Lemma delitem_entries k d e : e ∈ lru_data (delitem k d) → e ∈ lru_data d.
Proof. apply lru_without_elem. Qed.

Lemma get_channel_by_id_entries_kept channel_id :
  relates index_entries_kept (StateRegistryImpl.get_channel_by_id channel_id).
Proof.
  intros w. unfold StateRegistryImpl.get_channel_by_id. rewrite bind_run. unfold gets.
  destruct (_guild_channels w !! channel_id); [reflexivity|].
  unfold StateRegistryImpl.on_dm_channels.
  pose proof (get_entries channel_id (_dm_channels w)) as Hget.
  destruct (get channel_id (_dm_channels w)) as [o d]. split; [done|]. apply Hget.
Qed.

Ltac entries_known := apply get_channel_by_id_entries_kept.
Ltac entries_write := split; [by intros|by intros].

Lemma delete_channel_entries_kept c :
  relates index_entries_kept (StateRegistryImpl.delete_channel c).
Proof.
  intros w.
  unfold StateRegistryImpl.delete_channel, channels.guild, StateRegistryImpl.self,
    StateRegistryImpl.get_guild_by_id, dict_del.
  unfold_M. unfold_M. simpl.
  destruct (channel_objs w !! c) as [co|] eqn:Hco; [|reflexivity].
  destruct (decide _) as [[x Hx]|_].
  - rewrite Hco.
    destruct (Channel_guild_id co) as [guild_id|]; [|reflexivity].
    destruct (_guilds w !! guild_id) as [g|]; [|reflexivity].
    destruct (guild_objs w !! g) as [go|]; [|reflexivity].
    destruct (Guild_channels go !! Channel_id co); [|reflexivity].
    simpl. rewrite Hx. simpl. split; [|done].
    intros k c0 Hin. simpl in Hin. by apply lookup_delete_Some in Hin as [_ ?].
  - destruct (contains _ _); [|reflexivity]. split; [done|]. apply delitem_entries.
Qed.

Lemma call_index_entries_kept c w :
  (∀ p g, c ≠ parse_channel p g) → index_entries_kept w (call c w).2.
Proof.
  intros Hc. revert w. apply (call_relates index_entries_kept).
  destruct c; try (by destruct (Hc _ _ eq_refl));
    try apply delete_channel_entries_kept;
    relates_go entries_known entries_write.
Qed.

Lemma channel_index_ok_frames {A} (c : M A) w :
  relates channels_identity_kept c → relates index_entries_kept c →
  channel_index_ok w → channel_index_ok (c w).2.
Proof. intros Hid Hentries. apply channel_index_ok_step; [apply Hid|apply Hentries]. Qed.

(** The registration of a new channel by [parse_channel], from the check
    of the type on. *)
Lemma register_channel_index_ok p c co w :
  channel_index_ok w →
  channel_objs w !! c = Some co → Channel_id co = cp_id p →
  (∀ t, cp_type p = Some t →
        channels.is_channel_type_dm t = channels.is_dm (Channel_class co)) →
  channel_index_ok
    ((channel_type ← subscript (cp_type p);
      (if channels.is_channel_type_dm channel_type then
         modify (set_dm_channels (setitem (cp_id p) c))
       else
         modify (set_guild_channels (λ d, <[cp_id p:=c]> d));;
         guild_obj ← channels.guild StateRegistryImpl.self c;
         g ← not_None guild_obj;
         go ← deref guild_objs g;
         assign set_guild_objs g
           (Guild_with_channels (λ d, <[cp_id p:=c]> d) go));;
      mret c) w).2.
Proof.
  intros [Hokg Hokd] Hco Hid Hkind.
  destruct (cp_type p) as [t|]; [|by split].
  specialize (Hkind t eq_refl). unfold subscript. rewrite bind_run, ret_run.
  destruct (channels.is_channel_type_dm t).
  - unfold modify. rewrite bind_run, ret_run. simpl. split; [done|].
    intros k c0 Hin. simpl in Hin. apply setitem_entries in Hin as [[= -> ->]|Hin].
    + by exists co.
    + by apply Hokd.
  - rewrite bind_run, bind_run. unfold modify at 1.
    set (w2 := set_guild_channels _ w).
    assert (Hok2 : channel_index_ok w2).
    { split; [|done]. intros k c0 Hin. simpl in Hin.
      apply lookup_insert_Some in Hin as [[<- <-]|[_ Hin]]; [by exists co|].
      by apply Hokg. }
    match goal with
    | |- context [match ?rest w2 with _ => _ end] =>
        pose proof (channel_index_ok_frames rest w2) as Hrest;
        destruct (rest w2) as [[[]|e] w3]
    end.
    + rewrite ret_run. apply Hrest; [| |done].
      * relates_go identity_known identity_write.
      * relates_go entries_known entries_write.
    + apply Hrest; [| |done].
      * relates_go identity_known identity_write.
      * relates_go entries_known entries_write.
Qed.

Lemma channels_parse_channel_identity_kept p :
  relates channels_identity_kept (channels.parse_channel StateRegistryImpl.self p).
Proof. relates_go identity_known identity_write. Qed.

Lemma channels_and_users_only_entries w w' :
  channels_and_users_only w w' → index_entries_kept w w'.
Proof. intros (Hdm & _ & _ & Hgc & _). split; by rewrite ?Hgc, ?Hdm. Qed.

Lemma parse_channel_index_ok p g w :
  channel_index_ok w → channel_index_ok (StateRegistryImpl.parse_channel p g w).2.
Proof.
  intros Hok. unfold StateRegistryImpl.parse_channel. rewrite bind_run.
  pose proof (channel_index_ok_frames (StateRegistryImpl.get_channel_by_id (cp_id p)) w)
    as Hok0.
  destruct (StateRegistryImpl.get_channel_by_id (cp_id p) w) as [[res|e] w0].
  2:{ apply Hok0; [relates_go identity_known identity_write
                  |apply get_channel_by_id_entries_kept|done]. }
  assert (Hok0' : channel_index_ok w0).
  { apply Hok0; [relates_go identity_known identity_write
                |apply get_channel_by_id_entries_kept|done]. }
  clear Hok0 Hok w. rename w0 into w, Hok0' into Hok.
  assert (Hmain : ∀ p', cp_id p' = cp_id p →
    channel_index_ok
      (match res with
       | Some channel_obj =>
           channels.update_state StateRegistryImpl.self channel_obj p';;
           mret channel_obj
       | None =>
           channel_obj ← channels.parse_channel StateRegistryImpl.self p';
           channel_type ← subscript (cp_type p');
           (if channels.is_channel_type_dm channel_type then
              modify (set_dm_channels (setitem (cp_id p) channel_obj))
            else
              modify (set_guild_channels (λ d, <[cp_id p:=channel_obj]> d));;
              guild_obj ← channels.guild StateRegistryImpl.self channel_obj;
              g ← not_None guild_obj;
              go ← deref guild_objs g;
              assign set_guild_objs g
                (Guild_with_channels (λ d, <[cp_id p:=channel_obj]> d) go));;
           mret channel_obj
       end w).2).
  { intros p' Hid. destruct res as [c0|].
    - apply channel_index_ok_frames; [| |done].
      + relates_go identity_known identity_write.
      + apply relates_bind; [apply _| |intros ?; apply relates_ret; apply _].
        intros w0. apply channels_and_users_only_entries,
                     update_state_channels_and_users_only.
    - rewrite bind_run.
      pose proof (channels_parse_channel_identity_kept p' w) as Hidentity.
      pose proof (channels_parse_channel_only p' w) as Honly.
      destruct (channels.parse_channel StateRegistryImpl.self p' w) as [[c|e] w1] eqn:Hrun.
      + destruct (channels_parse_channel_post _ _ _ _ Hrun)
          as (_ & t & cls & co & Ht & Hcls & Hco & Hclass & Hcid & _).
        rewrite <- Hid. apply (register_channel_index_ok p' c co); [|done|done|].
        * eapply channel_index_ok_step; [exact Hidentity| |done].
          by apply channels_and_users_only_entries.
        * intros t' Ht'. rewrite Ht in Ht'. injection Ht' as <-.
          unfold channels.is_channel_type_dm. by rewrite Hcls, Hclass.
      + eapply channel_index_ok_step; [exact Hidentity| |done].
        by apply channels_and_users_only_entries. }
  rewrite bind_run. destruct g as [g0|].
  - rewrite bind_run. unfold deref.
    destruct (guild_objs w !! g0) as [go|]; [|done].
    rewrite ret_run. by apply Hmain.
  - rewrite ret_run. by apply Hmain.
Qed.

Lemma call_keeps_channel_index_ok c w :
  channel_index_ok w → channel_index_ok (call c w).2.
Proof.
  intros Hok. destruct c;
    try (apply (channel_index_ok_step w);
         [apply call_keeps_channel_identity
         |apply call_index_entries_kept; intros ? ?; discriminate|done]).
  simpl. apply relates_outcome. by apply parse_channel_index_ok.
Qed.

Lemma init_channel_index_ok mc dc w0 :
  StateRegistryImpl.__init__ mc dc = Ok w0 → channel_index_ok w0.
Proof.
  unfold StateRegistryImpl.__init__, data_structures.LRUDict_init.
  repeat destruct (decide _); try done. intros [= <-]. split.
  - intros k c Hin. simpl in Hin. by rewrite lookup_empty in Hin.
  - intros k c Hin. simpl in Hin. by apply elem_of_nil in Hin.
Qed.

Lemma reachable_channel_index_ok mc dc w : reachable mc dc w → channel_index_ok w.
Proof.
  intros (w0 & cs & Hinit & ->).
  pose proof (init_channel_index_ok _ _ _ Hinit) as Hok. clear Hinit.
  revert w0 Hok. induction cs as [|c cs IH]; intros w0 Hok; [done|].
  simpl. apply IH. by apply call_keeps_channel_index_ok.
Qed.

(** X24: in every registry state that a history of calls reaches from a
    newly constructed registry, the channel that [get_channel_by_id]
    returns for an id is an existing channel with that id; it is of a guild
    kind when the weak channel index has the id and of a DM kind otherwise,
    so that no DM channel is ever in the weak index and no guild channel in
    the DM index. *)
Theorem get_channel_by_id_returns_that_id
    (mc dc : Z) (w : World) (channel_id : Z) (c : ref) :
  reachable mc dc w →
  (StateRegistryImpl.get_channel_by_id channel_id w).1 = Ok (Some c) →
  ∃ co, channel_objs w !! c = Some co ∧ Channel_id co = channel_id
        ∧ channels.is_dm (Channel_class co) = negb (in_weak_channel_index channel_id w).
Proof.
  intros Hreach Hget. destruct (reachable_channel_index_ok _ _ _ Hreach) as [Hokg Hokd].
  destruct (get_channel_by_id_run channel_id w) as (d & Hrun & _).
  rewrite Hrun in Hget. simpl in Hget. injection Hget as Hres.
  unfold resolve_channel in Hres. unfold in_weak_channel_index.
  destruct (_guild_channels w !! channel_id) as [c0|] eqn:Hin.
  - injection Hres as ->. rewrite bool_decide_eq_true_2 by done. by apply Hokg.
  - rewrite bool_decide_eq_false_2 by (by intros [? ?]).
    apply Hokd. by apply lru_find_elem.
Qed.

Lemma get_channel_by_id_returns_that_id_witness :
  let w := after [parse_guild (guild_payload 6);
                  parse_channel (channel_payload 1 0 (Some 6)) None;
                  parse_channel (channel_payload 2 1 None) None] registry_2_2 in
  ∃ co, channel_objs w !! 1%nat = Some co ∧ Channel_id co = 2
        ∧ channels.is_dm (Channel_class co) = negb (in_weak_channel_index 2 w).
Proof.
  intros w.
  apply (get_channel_by_id_returns_that_id 2 2 w 2 1%nat).
  - eexists _, _. split; [reflexivity|reflexivity].
  - vm_compute. reflexivity.
Defined.

End channel_index.

(** ** The fields of a parsed channel *)

(** After [update_state] has returned, the [GuildChannel] slots of the
    object are those of the payload. *)
Lemma update_state_Ok_guild_slots self p w w' :
  channels.update_state StateRegistryImpl.self self p w = (Ok tt, w') →
  ∃ co', channel_objs w' !! self = Some co'
         ∧ ∀ gc, Channel_guild_slots co' = Some gc →
             cp_position p = Some (gc_position gc)
             ∧ cp_permission_overwrites p = Some (gc_permission_overwrites gc)
             ∧ cp_name p = Some (gc_name gc)
             ∧ gc_parent_id gc = cp_parent_id p.
Proof.
  intros Hrun. pose proof (update_state_identity_kept self p w) as Hid.
  rewrite Hrun in Hid. simpl in Hid. revert Hrun.
  unfold channels.update_state. rewrite bind_run. unfold deref.
  destruct (channel_objs w !! self) as [co|] eqn:Hco; [|done].
  assert (Hlt : (self < length (channel_objs w))%nat) by (by eapply lookup_lt_Some).
  assert (Hdm : Channel_guild_slots co = None →
            ∃ co', channel_objs w' !! self = Some co'
                   ∧ ∀ gc, Channel_guild_slots co' = Some gc →
                       cp_position p = Some (gc_position gc)
                       ∧ cp_permission_overwrites p = Some (gc_permission_overwrites gc)
                       ∧ cp_name p = Some (gc_name gc)
                       ∧ gc_parent_id gc = cp_parent_id p).
  { intros Hnone. destruct (Hid self co Hco) as (co' & Hco' & Hclass & _).
    exists co'. split; [done|]. intros gc Hgc.
    destruct co, co'; simpl in *; congruence. }
  destruct co; try (intros _; by apply Hdm);
    unfold channels.GuildChannel_update_state, channels.set_channel;
    destruct (cp_position p), (cp_permission_overwrites p), (cp_name p);
    unfold_M; unfold_M; simpl; intros [= <-]; simpl;
    (eexists; split; [by apply list_lookup_insert_eq|]; by intros ? [= <-]).
Qed.

Lemma channels_parse_channel_Ok_update_state p w c w1 :
  channels.parse_channel StateRegistryImpl.self p w = (Ok c, w1) →
  ∃ w0, channels.update_state StateRegistryImpl.self c p w0 = (Ok tt, w1).
Proof.
  unfold channels.parse_channel.
  destruct (cp_type p ≫= channels._channel_implementations) as [cls|]; [|done].
  unfold channels.Channel__init__.
  destruct cls; unfold_M; unfold_M;
    try (destruct (cp_guild_id p) as [guild_id|]; [|done]);
    match goal with
    | |- context [channels.update_state ?s ?c0 p ?w0] =>
        destruct (channels.update_state s c0 p w0) as [[[]|e] w2] eqn:Hup; [|done]
    end;
    intros [= <- <-]; eexists; exact Hup.
Qed.

(** When [parse_channel] returns, [update_state] has returned on the
    channel, for a payload that is the given one up to [guild_id], and the
    channel objects are as it left them. *)
Lemma parse_channel_Ok_update_state p g w c w' :
  StateRegistryImpl.parse_channel p g w = (Ok c, w') →
  ∃ p' w0 w1,
    cp_position p' = cp_position p
    ∧ cp_permission_overwrites p' = cp_permission_overwrites p
    ∧ cp_name p' = cp_name p ∧ cp_parent_id p' = cp_parent_id p
    ∧ channels.update_state StateRegistryImpl.self c p' w0 = (Ok tt, w1)
    ∧ channel_objs w' = channel_objs w1.
Proof.
  unfold StateRegistryImpl.parse_channel. rewrite bind_run.
  destruct (get_channel_by_id_run (cp_id p) w) as (d & -> & _).
  set (w0 := set_dm_channels _ w). set (res := resolve_channel (cp_id p) w).
  assert (Hmain : ∀ p',
    cp_position p' = cp_position p
    ∧ cp_permission_overwrites p' = cp_permission_overwrites p
    ∧ cp_name p' = cp_name p ∧ cp_parent_id p' = cp_parent_id p →
    match res with
    | Some channel_obj =>
        channels.update_state StateRegistryImpl.self channel_obj p';;
        mret channel_obj
    | None =>
        channel_obj ← channels.parse_channel StateRegistryImpl.self p';
        channel_type ← subscript (cp_type p');
        (if channels.is_channel_type_dm channel_type then
           modify (set_dm_channels (data_structures.setitem (cp_id p) channel_obj))
         else
           modify (set_guild_channels (λ d, <[cp_id p:=channel_obj]> d));;
           guild_obj ← channels.guild StateRegistryImpl.self channel_obj;
           g ← not_None guild_obj;
           go ← deref guild_objs g;
           assign set_guild_objs g
             (Guild_with_channels (λ d, <[cp_id p:=channel_obj]> d) go));;
        mret channel_obj
    end w0 = (Ok c, w') →
    ∃ p' w0 w1,
      cp_position p' = cp_position p
      ∧ cp_permission_overwrites p' = cp_permission_overwrites p
      ∧ cp_name p' = cp_name p ∧ cp_parent_id p' = cp_parent_id p
      ∧ channels.update_state StateRegistryImpl.self c p' w0 = (Ok tt, w1)
      ∧ channel_objs w' = channel_objs w1).
  { intros p' (Hpos & How & Hname & Hparent). destruct res as [c0|].
    - rewrite bind_run.
      destruct (channels.update_state _ c0 p' w0) as [[[]|e] w1] eqn:Hup; [|done].
      rewrite ret_run. intros [= <- <-]. by exists p', w0, w1.
    - rewrite bind_run.
      destruct (channels.parse_channel _ p' w0) as [[c1|e] w1] eqn:Hrun; [|done].
      destruct (channels_parse_channel_Ok_update_state _ _ _ _ Hrun) as (w00 & Hup).
      destruct (cp_type p') as [t|]; [|done]. unfold subscript.
      rewrite bind_run, ret_run, bind_run.
      match goal with
      | |- context [match ?rest w1 with _ => _ end] =>
          assert (Hrest : relates (same channel_objs) rest)
            by (destruct (channels.is_channel_type_dm t); relates_go fail same_write);
          specialize (Hrest w1); unfold same in Hrest;
          destruct (rest w1) as [[[]|e] w2]; [|done]
      end.
      rewrite ret_run. intros [= <- <-]. by exists p', w00, w1. }
  rewrite bind_run. destruct g as [g0|].
  - rewrite bind_run. unfold deref.
    destruct (guild_objs w0 !! g0) as [go|]; [|done].
    rewrite ret_run. by apply Hmain.
  - rewrite ret_run. by apply Hmain.
Qed.

(** X25: a channel that [parse_channel] returns carries the payload.  When
    the call returns, created or updated, a channel of a guild kind has the
    position, the permission overwrites, the name and the parent id of the
    payload, a missing [parent_id] being [None]; so the call cannot return
    for a guild channel when the payload lacks one of the first three. *)
Theorem parse_channel_reflects_payload
    (p : ChannelPayload) (guild_obj : option ref) (w w' : World) (c : ref) :
  StateRegistryImpl.parse_channel p guild_obj w = (Ok c, w') →
  ∃ co, channel_objs w' !! c = Some co
        ∧ ∀ gc, Channel_guild_slots co = Some gc →
            cp_position p = Some (gc_position gc)
            ∧ cp_permission_overwrites p = Some (gc_permission_overwrites gc)
            ∧ cp_name p = Some (gc_name gc)
            ∧ gc_parent_id gc = cp_parent_id p.
Proof.
  intros Hrun.
  destruct (parse_channel_Ok_update_state _ _ _ _ _ Hrun)
    as (p' & w0 & w1 & Hpos & How & Hname & Hparent & Hup & Hobjs).
  destruct (update_state_Ok_guild_slots _ _ _ _ Hup) as (co & Hco & Hslots).
  exists co. rewrite Hobjs. split; [done|].
  rewrite <- Hpos, <- How, <- Hname, <- Hparent. exact Hslots.
Qed.

Lemma parse_channel_reflects_payload_witness :
  let w := after [parse_guild (guild_payload 6);
                  parse_channel (channel_payload 1 0 (Some 6)) None] registry_2_2 in
  let p := {| cp_id := 1; cp_type := Some 0; cp_guild_id := None;
              cp_position := Some 4; cp_permission_overwrites := Some [9];
              cp_name := Some "renamed"; cp_parent_id := Some 2; cp_nsfw := None;
              cp_topic := None; cp_rate_limit_per_user := None;
              cp_last_message_id := None; cp_recipients := None; cp_bitrate := None;
              cp_user_limit := None; cp_icon := None; cp_application_id := None;
              cp_owner_id := None |} in
  ∃ co, channel_objs (StateRegistryImpl.parse_channel p None w).2 !! 0%nat = Some co
        ∧ ∀ gc, Channel_guild_slots co = Some gc →
            Some 4 = Some (gc_position gc)
            ∧ Some [9] = Some (gc_permission_overwrites gc)
            ∧ Some "renamed" = Some (gc_name gc)
            ∧ gc_parent_id gc = Some 2.
Proof.
  intros w p.
  apply (parse_channel_reflects_payload p None w _ 0%nat). vm_compute. reflexivity.
Defined.

(** X26: the parent of a newly parsed guild channel is looked up in the
    guild that the channel was put in.  After [parse_channel] has created a
    channel of a guild kind, [parent] on it changes nothing and returns
    [None] when the payload has no parent id; otherwise it returns the
    entry for the payload's parent id in the channel collection of the
    guild that now holds the channel, and raises [KeyError] when that
    collection has no such entry (the parent has not been parsed, or is in
    another guild). *)
Theorem parent_of_parsed_channel
    (p : ChannelPayload) (guild_obj : option ref) (w w' : World) (c : ref) (t : Z) :
  resolve_channel (cp_id p) w = None →
  cp_type p = Some t → channels.is_channel_type_dm t = false →
  StateRegistryImpl.parse_channel p guild_obj w = (Ok c, w') →
  ∃ guild_id g go,
    _guilds w' !! guild_id = Some g ∧ guild_objs w' !! g = Some go
    ∧ Guild_channels go !! cp_id p = Some c
    ∧ channels.parent StateRegistryImpl.self c w'
      = (match cp_parent_id p with
         | None => Ok None
         | Some parent_id =>
             match Guild_channels go !! parent_id with
             | Some parent_obj => Ok (Some parent_obj)
             | None => Raise KeyError
             end
         end, w').
Proof.
  intros Hres Ht Hkind Hrun.
  destruct (parse_channel_Ok_update_state _ _ _ _ _ Hrun)
    as (p0 & w00 & w10 & _ & _ & _ & Hparent & Hup & Hobjs).
  destruct (update_state_Ok_guild_slots _ _ _ _ Hup) as (co0 & Hco0 & Hslots).
  rewrite <- Hobjs in Hco0.
  assert (Hpar : ∀ gc, Channel_guild_slots co0 = Some gc →
                       gc_parent_id gc = cp_parent_id p).
  { intros gc Hgc. destruct (Hslots gc Hgc) as (_ & _ & _ & ->). exact Hparent. }
  clear Hslots Hup Hobjs Hparent p0 w00 w10.
  destruct (parse_channel_guild_cases p guild_obj w)
    as [(g0 & _ & Hraise)|(p' & Hid & Ht' & _ & Heq)].
  { by rewrite Hrun in Hraise. }
  rewrite Heq in Hrun. rewrite <- Hid in Hres |- *. rewrite <- Ht' in Ht.
  clear Heq Ht'.
  destruct (parse_channel_fresh_Ok _ _ _ _ Hres Hrun)
    as (t' & cls & co & w1 & Ht'' & Hcls & Honly & _ & Hco & Hclass & Hcid & Hw').
  rewrite Ht in Ht''. injection Ht'' as <-.
  unfold channels.is_channel_type_dm in Hkind. rewrite Hcls in Hkind. rewrite Hkind in Hw'.
  destruct Hw' as (guild_id & g & go & Hgid & Hcgid & Hg & Hgo & ->).
  destruct Honly as (_ & _ & Hguilds & _ & _ & Hgobjs & _).
  simpl in Hco0. rewrite Hco in Hco0. injection Hco0 as <-.
  assert (Hlt : (g < length (guild_objs w1))%nat)
    by (rewrite Hgobjs; by eapply lookup_lt_Some).
  exists guild_id, g, (Guild_with_channels (λ d, <[cp_id p' := c]> d) go).
  split; [simpl; by rewrite Hguilds|].
  split; [simpl; by apply list_lookup_insert_eq|].
  split; [simpl; by rewrite lookup_insert_eq|].
  unfold channels.parent. rewrite bind_run. unfold deref at 1. simpl. rewrite Hco.
  destruct (Channel_guild_slots co) as [gc|] eqn:Hgc.
  2:{ destruct co; simpl in *; subst cls; discriminate. }
  rewrite (Hpar gc eq_refl).
  destruct (cp_parent_id p) as [parent_id|]; [|done].
  rewrite bind_run. unfold channels.guild. rewrite bind_run. unfold deref at 1. simpl.
  rewrite Hco, Hcgid. cbn [state_registry.get_guild_by_id StateRegistryImpl.self].
  unfold StateRegistryImpl.get_guild_by_id, gets. simpl. rewrite Hguilds, Hg.
  unfold not_None. rewrite bind_run, ret_run, bind_run. unfold deref. simpl.
  rewrite list_lookup_insert_eq by done. rewrite bind_run. simpl.
  by destruct (<[cp_id p':=c]> (Guild_channels go) !! parent_id).
Qed.

Lemma parent_of_parsed_channel_witness :
  let w := after [parse_guild (guild_payload 6);
                  parse_channel (channel_payload 2 4 (Some 6)) None] registry_2_2 in
  let p := {| cp_id := 1; cp_type := Some 0; cp_guild_id := Some 6;
              cp_position := Some 4; cp_permission_overwrites := Some [];
              cp_name := Some "general"; cp_parent_id := Some 2; cp_nsfw := None;
              cp_topic := None; cp_rate_limit_per_user := None;
              cp_last_message_id := None; cp_recipients := None; cp_bitrate := None;
              cp_user_limit := None; cp_icon := None; cp_application_id := None;
              cp_owner_id := None |} in
  let w' := (StateRegistryImpl.parse_channel p None w).2 in
  ∃ guild_id g go,
    _guilds w' !! guild_id = Some g ∧ guild_objs w' !! g = Some go
    ∧ Guild_channels go !! 1 = Some 1%nat
    ∧ channels.parent StateRegistryImpl.self 1%nat w'
      = (match Guild_channels go !! 2 with
         | Some parent_obj => Ok (Some parent_obj)
         | None => Raise KeyError
         end, w').
Proof.
  intros w p w'.
  apply (parent_of_parsed_channel p None w w' 1%nat 0);
    [reflexivity|reflexivity|reflexivity|vm_compute; reflexivity].
Defined.

(** ** Users *)

(** For an id that is not the bot user's, [get_user_by_id] is the lookup in
    the weak user index. *)
Lemma get_user_by_id_other user_id w :
  (∀ me, _user w = Some me →
         ∃ uo, user_objs w !! me = Some uo ∧ User_id uo ≠ user_id) →
  StateRegistryImpl.get_user_by_id user_id w = (Ok (_users w !! user_id), w).
Proof.
  intros Hother. unfold StateRegistryImpl.get_user_by_id.
  rewrite bind_run. unfold gets at 1.
  destruct (_user w) as [me|] eqn:Hme.
  - destruct (Hother me eq_refl) as (uo & Huo & Hne).
    rewrite bind_run, bind_run. unfold deref. rewrite Huo. rewrite ret_run.
    by rewrite bool_decide_eq_false_2.
  - by rewrite bind_run, ret_run.
Qed.

(** X27: a payload that does not go to the bot user (it carries neither
    [mfa_enabled] nor [verified], and its id is not the bot user's) is
    handled through the weak user index: the user that [parse_user] returns
    is the one [get_user_by_id] finds under the id of the payload right
    after, a user already indexed under the id is the one returned, a new
    one is created only when the id was not indexed, and the bot user is
    not replaced.  (Modelled from the spec: the classes of users.) *)
Theorem parse_user_then_get_user_by_id (p : UserPayload) (w w' : World) (u : ref) :
  ¬ for_bot_user p w →
  StateRegistryImpl.parse_user p w = (Ok u, w') →
  StateRegistryImpl.get_user_by_id (up_id p) w' = (Ok (Some u), w')
  ∧ _user w' = _user w
  ∧ (∀ u0, _users w !! up_id p = Some u0 → u = u0)
  ∧ (_users w !! up_id p = None → u = length (user_objs w)).
Proof.
  intros Hnot.
  assert (Hmfa : up_mfa_enabled p = None).
  { destruct (up_mfa_enabled p) eqn:H; [|done]. destruct Hnot. left. by eexists. }
  assert (Hver : up_verified p = None).
  { destruct (up_verified p) eqn:H; [|done]. destruct Hnot. right. left. by eexists. }
  unfold StateRegistryImpl.parse_user. rewrite bind_run. unfold gets at 1.
  rewrite Hmfa, Hver.
  rewrite (bool_decide_eq_false_2 (is_Some None)) by (by intros [? ?]).
  assert (Hrest : ∀ is_me : bool,
    is_me = false →
    (∀ me, _user w = Some me → ∃ uo, user_objs w !! me = Some uo ∧ User_id uo ≠ up_id p) →
    (if is_me || false || false
     then StateRegistryImpl.parse_bot_user p
     else
       user_obj ← StateRegistryImpl.get_user_by_id (up_id p);
       match user_obj with
       | Some _ =>
           us ← gets _users;
           existing_user ← subscript (us !! up_id p);
           users.update_state existing_user p;; mret existing_user
       | None =>
           user_obj0 ← users.User__init__ p;
           modify (set_users (λ d, <[up_id p:=user_obj0]> d));; mret user_obj0
       end) w = (Ok u, w') →
    StateRegistryImpl.get_user_by_id (up_id p) w' = (Ok (Some u), w')
    ∧ _user w' = _user w
    ∧ (∀ u0, _users w !! up_id p = Some u0 → u = u0)
    ∧ (_users w !! up_id p = None → u = length (user_objs w))).
  { intros is_me -> Hother. simpl.
    rewrite bind_run, (get_user_by_id_other _ _ Hother).
    destruct (_users w !! up_id p) as [u0|] eqn:Hu0.
    - rewrite bind_run. unfold gets at 1. rewrite Hu0. unfold subscript.
      rewrite bind_run, ret_run, bind_run, users_update_state_run.
      destruct (user_objs w !! u0) as [uo0|] eqn:Huo0; [|done].
      rewrite ret_run. intros [= <- <-].
      rewrite get_user_by_id_other; simpl.
      + rewrite Hu0. split; [done|]. split; [done|].
        split; [by intros ? [= <-]|done].
      + intros me Hme. destruct (Hother me Hme) as (uo & Huo & Hne).
        destruct (decide (me = u0)) as [->|Hneq].
        * rewrite list_lookup_insert_eq by (by eapply lookup_lt_Some).
          rewrite Huo in Huo0. injection Huo0 as <-.
          eexists. split; [done|]. by destruct (User_class uo).
        * rewrite list_lookup_insert_ne by done. by exists uo.
    - rewrite bind_run. unfold users.User__init__, alloc. rewrite bind_run.
      unfold modify. rewrite ret_run. intros [= <- <-].
      rewrite get_user_by_id_other; simpl.
      + rewrite lookup_insert_eq. split; [done|]. split; [done|].
        split; [done|by intros].
      + intros me Hme. destruct (Hother me Hme) as (uo & Huo & Hne).
        exists uo. split; [|done]. by apply lookup_app_l_Some. }
  destruct (_user w) as [me|] eqn:Hme.
  - rewrite bind_run, bind_run. unfold deref.
    destruct (user_objs w !! me) as [uo|] eqn:Huo; [|done].
    rewrite ret_run.
    assert (Hne : User_id uo ≠ up_id p).
    { intros Heq. destruct Hnot. right. right. by exists me, uo. }
    apply Hrest.
    + apply bool_decide_eq_false_2. congruence.
    + intros me' [= <-]. by exists uo.
  - rewrite bind_run, ret_run. apply Hrest; [done|]. by intros.
Qed.

Lemma parse_user_then_get_user_by_id_witness :
  let w := after [parse_bot_user (user_payload 1); parse_user (user_payload 2)]
             registry_2_2 in
  let w' := (StateRegistryImpl.parse_user (user_payload 2) w).2 in
  StateRegistryImpl.get_user_by_id 2 w' = (Ok (Some 1%nat), w')
  ∧ _user w' = _user w
  ∧ (∀ u0, _users w !! 2 = Some u0 → 1%nat = u0)
  ∧ (_users w !! 2 = None → 1%nat = length (user_objs w)).
Proof.
  intros w w'.
  apply (parse_user_then_get_user_by_id (user_payload 2) w w' 1%nat).
  - intros [[x Hx]|[[x Hx]|(me & uo & Hme & Huo & Hid)]]; [done|done|].
    vm_compute in Hme. injection Hme as <-. vm_compute in Huo. injection Huo as <-.
    discriminate Hid.
  - vm_compute. reflexivity.
Defined.

(** X28: the user that [parse_bot_user] returns is the bot user: [me]
    returns it right after, and so does [get_user_by_id] for its id,
    before any user that the weak user index has under that id.
    (Modelled from the spec: the classes of users.) *)
Theorem parse_bot_user_then_me (p : UserPayload) (w w' : World) (u : ref) :
  StateRegistryImpl.parse_bot_user p w = (Ok u, w') →
  StateRegistryImpl.me w' = (Ok (Some u), w')
  ∧ ∃ uo, user_objs w' !! u = Some uo
          ∧ StateRegistryImpl.get_user_by_id (User_id uo) w' = (Ok (Some u), w').
Proof.
  unfold StateRegistryImpl.parse_bot_user, StateRegistryImpl.me.
  rewrite bind_run. unfold gets at 1.
  assert (Hget : ∀ w0 uo, _user w0 = Some u → user_objs w0 !! u = Some uo →
            StateRegistryImpl.get_user_by_id (User_id uo) w0 = (Ok (Some u), w0)).
  { intros w0 uo Hu Huo. unfold StateRegistryImpl.get_user_by_id.
    rewrite bind_run. unfold gets at 1. rewrite Hu.
    rewrite bind_run, bind_run. unfold deref. rewrite Huo, ret_run.
    by rewrite bool_decide_eq_true_2. }
  destruct (_user w) as [me|] eqn:Hme.
  - rewrite bind_run, users_update_state_run.
    destruct (user_objs w !! me) as [uo|] eqn:Huo; [|done].
    rewrite ret_run. intros [= <- <-]. unfold gets. simpl. rewrite Hme.
    split; [done|]. eexists. split.
    + apply list_lookup_insert_eq. by eapply lookup_lt_Some.
    + apply Hget; [done|]. simpl. apply list_lookup_insert_eq. by eapply lookup_lt_Some.
  - unfold users.BotUser__init__, alloc. rewrite bind_run, bind_run. unfold modify.
    rewrite ret_run. intros [= <- <-]. unfold gets. simpl.
    split; [done|]. eexists. split.
    + by rewrite lookup_app_r, Nat.sub_diag by lia.
    + apply Hget; [done|]. simpl. by rewrite lookup_app_r, Nat.sub_diag by lia.
Qed.

Lemma parse_bot_user_then_me_witness :
  let w := after [parse_user (user_payload 1)] registry_2_2 in
  let w' := (StateRegistryImpl.parse_bot_user (user_payload 1) w).2 in
  (StateRegistryImpl.get_user_by_id 1 w).1 = Ok (Some 0%nat)
  ∧ StateRegistryImpl.me w' = (Ok (Some 1%nat), w')
  ∧ ∃ uo, user_objs w' !! 1%nat = Some uo
          ∧ StateRegistryImpl.get_user_by_id (User_id uo) w' = (Ok (Some 1%nat), w').
Proof.
  intros w w'. split; [vm_compute; reflexivity|].
  apply (parse_bot_user_then_me (user_payload 1) w w' 1%nat). vm_compute. reflexivity.
Defined.

(** ** Emojis *)

(** X29: what [parse_emoji] returns is either a guild emoji that
    [get_emoji_by_id] finds under the id of the payload right after (the
    one already indexed under the id, or a new one of the guild given), or,
    for a payload without id or without guild, an emoji that is no object
    of the registry, made of the id and the name of the payload, in which
    case no index and no guild or emoji object has changed.  (Modelled
    from the spec: the classes of emojis.) *)
Theorem parse_emoji_then_get_emoji_by_id
    (p : EmojiPayload) (guild_obj : option ref) (w w' : World) (em : Emoji) :
  StateRegistryImpl.parse_emoji p guild_obj w = (Ok em, w') →
  match em with
  | GuildEmojiRef e =>
      ∃ emoji_id, ep_id p = Some emoji_id
                  ∧ StateRegistryImpl.get_emoji_by_id emoji_id w' = (Ok (Some e), w')
                  ∧ ∀ e0, _emojis w !! emoji_id = Some e0 → e = e0
  | EphemeralEmoji emoji_id name =>
      emoji_id = ep_id p ∧ name = ep_name p
      ∧ (guild_obj = None ∨ ep_id p = None) ∧ w' = w
  end.
Proof.
  unfold StateRegistryImpl.parse_emoji, StateRegistryImpl.get_emoji_by_id.
  rewrite bind_run.
  assert (Hexisting : ∀ e0 emoji_id, ep_id p = Some emoji_id →
            _emojis w !! emoji_id = Some e0 →
            (emojis.update_state e0 p;; mret (GuildEmojiRef e0)) w = (Ok em, w') →
            match em with
            | GuildEmojiRef e =>
                ∃ emoji_id, ep_id p = Some emoji_id
                  ∧ gets (λ w0, _emojis w0 !! emoji_id) w' = (Ok (Some e), w')
                  ∧ ∀ e0, _emojis w !! emoji_id = Some e0 → e = e0
            | EphemeralEmoji emoji_id name =>
                emoji_id = ep_id p ∧ name = ep_name p
                ∧ (guild_obj = None ∨ ep_id p = None) ∧ w' = w
            end).
  { intros e0 emoji_id Hid He0. unfold emojis.update_state. unfold_M. unfold_M.
    destruct (emoji_objs w !! e0); [|done]. intros [= <- <-].
    exists emoji_id. simpl. rewrite He0. split; [done|]. split; [done|].
    by intros ? [= <-]. }
  assert (Hnew : ∀ (absent : ∀ emoji_id, ep_id p = Some emoji_id →
                                        _emojis w !! emoji_id = None),
    (guild_id ← match guild_obj with
                | Some g => go ← deref guild_objs g; mret (Some (Guild_id go))
                | None => mret None
                end;
     new_emoji ← emojis.parse_emoji p guild_id;
     match new_emoji with
     | GuildEmojiRef e =>
         guild_id0 ← not_None guild_id;
         guild_obj0 ← gets (λ w0, _guilds w0 !! guild_id0);
         g ← not_None guild_obj0;
         eo ← deref emoji_objs e;
         go ← deref guild_objs g;
         assign set_guild_objs g
           (Guild_with_emojis (λ d, <[GuildEmoji_id eo:=e]> d) go);;
         modify (set_emojis (λ d, <[GuildEmoji_id eo:=e]> d));;
         mret new_emoji
     | EphemeralEmoji _ _ => mret new_emoji
     end) w = (Ok em, w') →
    match em with
    | GuildEmojiRef e =>
        ∃ emoji_id, ep_id p = Some emoji_id
          ∧ gets (λ w0, _emojis w0 !! emoji_id) w' = (Ok (Some e), w')
          ∧ ∀ e0, _emojis w !! emoji_id = Some e0 → e = e0
    | EphemeralEmoji emoji_id name =>
        emoji_id = ep_id p ∧ name = ep_name p
        ∧ (guild_obj = None ∨ ep_id p = None) ∧ w' = w
    end).
  { intros Habsent. unfold emojis.parse_emoji. unfold_M. unfold_M.
    destruct guild_obj as [g0|].
    - destruct (guild_objs w !! g0) as [go0|]; [|done].
      destruct (ep_id p) as [emoji_id|] eqn:Hid; [|done]. simpl.
      destruct (_guilds w !! Guild_id go0) as [g|]; [|done]. simpl.
      rewrite lookup_app_r, Nat.sub_diag by lia. simpl.
      destruct (guild_objs w !! g) as [go|]; [|done].
      intros [= <- <-]. exists emoji_id. simpl. rewrite lookup_insert_eq.
      split; [done|]. split; [done|].
      intros e0 He0. by rewrite (Habsent _ eq_refl) in He0.
    - intros [= <- <-]. repeat (split; [done|]). split; [by left|done]. }
  destruct (ep_id p) as [emoji_id|] eqn:Hid.
  - unfold gets at 1.
    destruct (_emojis w !! emoji_id) as [e0|] eqn:He0.
    + by apply (Hexisting e0 emoji_id).
    + intros Hrun. apply Hnew in Hrun; [|by intros ? [= <-]].
      destruct em; [|done].
      destruct Hrun as (-> & -> & [->|?] & ->); [|done].
      repeat (split; [done|]). split; [by left|done].
  - rewrite ret_run. intros Hrun. apply Hnew in Hrun; [|done].
    destruct em as [i n|e]; [|by destruct Hrun as (? & ? & _)].
    destruct Hrun as (-> & -> & _ & ->). repeat (split; [done|]). split; [by right|done].
Qed.

Lemma parse_emoji_then_get_emoji_by_id_witness :
  let w := after [parse_guild (guild_payload 6)] registry_2_2 in
  let w' := (StateRegistryImpl.parse_emoji (emoji_payload 5) (Some 0%nat) w).2 in
  ∃ emoji_id, ep_id (emoji_payload 5) = Some emoji_id
              ∧ StateRegistryImpl.get_emoji_by_id emoji_id w' = (Ok (Some 0%nat), w')
              ∧ ∀ e0, _emojis w !! emoji_id = Some e0 → 0%nat = e0.
Proof.
  intros w w'.
  apply (parse_emoji_then_get_emoji_by_id (emoji_payload 5) (Some 0%nat) w w'
           (GuildEmojiRef 0%nat)).
  vm_compute. reflexivity.
Defined.

(** ** Deleting one reaction *)

Lemma first_to_delete_some e l1 r l2 ro w :
  no_reaction_with e l1 w → reaction_objs w !! r = Some ro → Reaction_emoji ro = e →
  is_Some (message_objs w !! Reaction_message ro) →
  StateRegistryImpl.first_to_delete e (l1 ++ r :: l2) w = (Ok (Some r), w).
Proof.
  intros Hl1 Hr He [mo Hmo]. induction Hl1 as [|r' l1 (ro' & Hr' & Hne) _ IH]; simpl.
  - unfold mbind, M_bind, deref. rewrite Hr. rewrite decide_True by done.
    rewrite Hmo. by rewrite decide_True.
  - unfold mbind, M_bind, deref. rewrite Hr'. by rewrite decide_False.
Qed.

Lemma first_to_delete_none e l w :
  no_reaction_with e l w →
  StateRegistryImpl.first_to_delete e l w = (Ok None, w).
Proof.
  induction 1 as [|r l (ro & Hr & Hne) _ IH]; [done|]. simpl.
  unfold mbind, M_bind, deref. rewrite Hr. by rewrite decide_False.
Qed.

(** X30: [delete_reaction] takes the first reaction with the emoji out of
    the reaction list of the message and sets its count to zero, whatever
    the count was; the reactions before and after it stay in the list, in
    order, a later one with the same emoji included.  When no reaction of
    the list has the emoji, the call changes nothing.  It returns in both
    cases. *)
Theorem delete_reaction_removes_first
    (m : ref) (mo : Message) (e : Emoji) (w : World) :
  message_objs w !! m = Some mo →
  (no_reaction_with e (Message_reactions mo) w →
   StateRegistryImpl.delete_reaction m e w = (Ok tt, w))
  ∧ ∀ l1 r l2 ro,
      Message_reactions mo = l1 ++ r :: l2 → no_reaction_with e l1 w →
      reaction_objs w !! r = Some ro → Reaction_emoji ro = e →
      is_Some (message_objs w !! Reaction_message ro) →
      StateRegistryImpl.delete_reaction m e w
      = (Ok tt,
         set_reaction_objs
           (λ l, <[r := {| Reaction_count := 0; Reaction_emoji := e;
                           Reaction_message := Reaction_message ro |}]> l)
           (set_message_objs
              (λ l, <[m := Message_with_reactions (l1 ++ l2) mo]> l) w)).
Proof.
  intros Hmo. split.
  - intros Hnone. unfold StateRegistryImpl.delete_reaction.
    rewrite bind_run. unfold deref at 1. rewrite Hmo.
    by rewrite bind_run, first_to_delete_none.
  - intros l1 r l2 ro Hl Hl1 Hr He Hmsg. unfold StateRegistryImpl.delete_reaction.
    rewrite bind_run. unfold deref at 1. rewrite Hmo.
    rewrite bind_run, Hl, (first_to_delete_some _ _ _ _ ro) by done.
    unfold StateRegistryImpl.remove_reaction. unfold_M. unfold_M. rewrite Hmo, Hl.
    rewrite list_remove_middle by (by eapply no_reaction_with_not_in).
    simpl. rewrite Hr. simpl. by rewrite <- He.
Qed.

Lemma delete_reaction_removes_first_witness :
  let w := after [parse_channel (channel_payload 1 1 None) None;
                  parse_message (message_payload 3 1);
                  increment_reaction_count 0 heart;
                  increment_reaction_count 0 thumbsup;
                  increment_reaction_count 0 thumbsup] registry_2_2 in
  ∃ w',
    StateRegistryImpl.delete_reaction 0%nat thumbsup w = (Ok tt, w')
    ∧ Message_reactions <$> message_objs w' !! 0%nat = Some [0%nat]
    ∧ Reaction_count <$> reaction_objs w' !! 1%nat = Some 0.
Proof.
  intros w.
  destruct (delete_reaction_removes_first 0%nat
              {| Message_id := 3; Message_channel_id := 1; Message_content := "hello";
                 Message_reactions := [0%nat; 1%nat] |} thumbsup w)
    as [_ Hfirst]; [vm_compute; reflexivity|].
  eexists. split.
  - apply (Hfirst [0%nat] 1%nat []
             {| Reaction_count := 2; Reaction_emoji := thumbsup;
                Reaction_message := 0%nat |}).
    + reflexivity.
    + constructor; [|constructor].
      exists {| Reaction_count := 1; Reaction_emoji := heart; Reaction_message := 0%nat |}.
      split; [vm_compute; reflexivity|discriminate].
    + vm_compute. reflexivity.
    + reflexivity.
    + apply lookup_lt_is_Some. vm_compute. lia.
  - split; vm_compute; reflexivity.
Defined.
